(** * LastMile.cy: the request clustering and route assembly of the two
    front-ends ([LastMileDemo], the dashboard demo, and [LastMileAI], the
    map-based application), embedded from their JavaScript sources.

    Numbers: passenger counts and counters are integers ([Z]); coordinates,
    distances and emission figures are JavaScript doubles, embedded as real
    numbers ([R]) with the rounding functions written out ([toFixed1],
    [Math_round], [Math_floor]); the rounding error of double arithmetic
    is not part of the model.  [Math.random] and the network are inputs
    of the functions that use them. *)

From Stdlib Require Import Reals Lra ZArith List String Permutation.
From stdpp Require Import base gmap sets list strings.

Import ListNotations.
#[local] Open Scope string_scope.
#[local] Open Scope list_scope.

(** ** Locations (shared shape of both catalogues) *)

Inductive LocType : Type :=
  | city | village | beach | archaeological | poi | transport.

#[global] Instance LocType_eq_dec : EqDecision LocType.
Proof. solve_decision. Defined.

(** [region] is only present on the demo's villages; a missing property
    reads as [undefined], embedded as [None]. *)
Record Location : Type := mkLocation {
  loc_id : string;
  loc_name : string;
  lat : R;
  lng : R;
  type : LocType;
  region : option string
}.


(** ** The seed-and-scan loop common to both front-ends

    Both [simulateRLOptimization] and [submitRequest] run
    [requests.forEach(req => ...)] over a [Set] of request ids and an
    array of clusters, and inside it a second [requests.forEach(other =>
    ...)] over the same array.  The loop state is passed explicitly. *)

Section Scan.
Context {Req : Type}.
Variable rid : Req -> string.
(** [joins req cluster other]: the front-end's test, past the
    [processed.has(other.id)] check, for pushing [other] on the open
    cluster seeded by [req]. *)
Variable joins : Req -> list Req -> Req -> bool.

(** one turn of the inner [forEach] *)
Definition scan_step (req : Req) (st : list Req * gset string) (other : Req)
  : list Req * gset string :=
  let '(cluster, processed) := st in
  if bool_decide (rid other ∈ processed) then st
  else if joins req cluster other
       then (cluster ++ [other], {[rid other]} ∪ processed)
       else st.

(** one turn of the outer [forEach]; returns the closed cluster, if one
    was opened *)
Definition seed_step (requests : list Req) (processed : gset string) (req : Req)
  : option (list Req) * gset string :=
  if bool_decide (rid req ∈ processed) then (None, processed)
  else
    let '(cluster, processed') :=
      fold_left (scan_step req) requests ([req], {[rid req]} ∪ processed) in
    (Some cluster, processed').

Definition group_step (requests : list Req)
    (st : gset string * list (list Req)) (req : Req)
  : gset string * list (list Req) :=
  let '(processed, clusters) := st in
  match seed_step requests processed req with
  | (None, processed') => (processed', clusters)
  | (Some cluster, processed') => (processed', clusters ++ [cluster])
  end.

Definition group_requests (requests : list Req) : list (list Req) :=
  snd (fold_left (group_step requests) requests (∅, [])).

(** [tracked requests members processed]: the loop invariant tying the
    id set to the requests placed so far, which come from [requests]
    and carry distinct ids. *)
Definition tracked (requests members : list Req) (processed : gset string) : Prop :=
  (forall x, x ∈ members -> x ∈ requests)
  /\ NoDup (map rid members)
  /\ (forall i, i ∈ processed <-> i ∈ map rid members).
End Scan.

(** ** JavaScript numerics and [Math.random] *)

#[global] Instance Rlt_decision (x y : R) : Decision (x < y)%R := Rlt_dec x y.

Definition Math_floor (x : R) : Z := Zfloor x.

(** [Math.round]: the nearest integer, halves going up. *)
Definition Math_round (x : R) : Z := Zfloor (x + / 2).

(** The number that [x.toFixed(1)] writes: [x] rounded to one decimal,
    halves away from zero. *)
Definition toFixed1 (x : R) : R :=
  if bool_decide (x < 0)%R
  then (- (IZR (Zfloor (- x * 10 + / 2)) / 10))%R
  else (IZR (Zfloor (x * 10 + / 2)) / 10)%R.

Definition Math_max (x y : R) : R := Rmax x y.

(** One call of [Math.random()]: the number in [[0, 1)] and the digits
    after [0.] of its [toString(36)] rendering. *)
Record Draw : Type := mkDraw { number : R; digits36 : string }.

(** [Math.random().toString(36).substr(2, n)] *)
Definition random_id (d : Draw) (n : nat) : string :=
  String.substring 0 n (digits36 d).

Definition unit_draw (d : Draw) : Prop := (0 <= number d < 1)%R.

(** ** The dashboard demo ([LastMileDemo]) *)

Module Demo.

Definition loc (i n : string) (la lo : R) (t : LocType) (r : option string) : Location :=
  mkLocation i n la lo t r.

(** [CYPRUS_LOCATIONS] *)
Module CYPRUS_LOCATIONS.
Definition cities : list Location :=
  [ loc "nicosia" "Nicosia" 35.1856 33.3823 city None;
    loc "limassol" "Limassol" 34.6786 33.0413 city None;
    loc "larnaca" "Larnaca" 34.9229 33.6233 city None;
    loc "paphos" "Paphos" 34.7754 32.4245 city None ].

Definition villages : list Location :=
  [ loc "kakopetria" "Kakopetria" 34.9833 32.9000 village (Some "Troodos");
    loc "platres" "Platres" 34.8897 32.8639 village (Some "Troodos");
    loc "lefkara" "Lefkara" 34.8667 33.3000 village (Some "Larnaca");
    loc "omodos" "Omodos" 34.8472 32.8083 village (Some "Limassol");
    loc "fikardou" "Fikardou" 34.9667 33.1333 village (Some "Nicosia");
    loc "peyia" "Peyia" 34.8833 32.3500 village (Some "Paphos") ].

Definition beaches : list Location :=
  [ loc "nissi" "Nissi Beach" 34.9875 34.0028 beach None;
    loc "coral" "Coral Bay" 34.8553 32.3569 beach None;
    loc "konnos" "Konnos Bay" 34.9764 34.0764 beach None ].

Definition archaeological : list Location :=
  [ loc "kourion" "Kourion" 34.6647 32.8872 archaeological None;
    loc "tombs" "Tombs of Kings" 34.7728 32.4072 archaeological None ].
End CYPRUS_LOCATIONS.

Inductive Status : Type := pending | assigned.

#[global] Instance Status_eq_dec : EqDecision Status.
Proof. solve_decision. Defined.

Record Request : Type := mkRequest {
  id : string;
  origin : Location;
  destination : Location;
  passengers : Z;
  timestamp : Z;
  status : Status;
  eta : Z
}.

(** [allLocations[Math.floor(Math.random() * allLocations.length)]];
    an index past the end reads [undefined], which a draw in [[0, 1)]
    never produces. *)
Definition pick (l : list Location) (d : Draw) : option Location :=
  l !! Z.to_nat (Math_floor (number d * INR (length l))).

(** [generateRideRequest]; [rnd k] is its [k]-th call of [Math.random]
    and [now] the clock. *)
Definition generateRideRequest (rnd : nat -> Draw) (now : Z) : option Request :=
  let allLocations :=
    CYPRUS_LOCATIONS.villages ++ CYPRUS_LOCATIONS.beaches
    ++ CYPRUS_LOCATIONS.archaeological in
  match pick allLocations (rnd 0%nat), pick CYPRUS_LOCATIONS.cities (rnd 1%nat) with
  | Some destination, Some origin =>
      Some {| id := random_id (rnd 3%nat) 9;
              origin := origin;
              destination := destination;
              passengers := (Math_floor (number (rnd 2%nat) * 4) + 1)%Z;
              timestamp := now;
              status := pending;
              eta := (Math_floor (number (rnd 4%nat) * 20) + 5)%Z |}
  | _, _ => None
  end.

(** What [simulateRLOptimization] pushes on [clusters]. *)
Record Cluster : Type := mkCluster {
  cluster_id : string;
  requests : list Request;
  totalPassengers : Z;
  estimatedSavings : Z;
  co2Saved : R;
  route : list string
}.

(** the test of the inner [forEach] past [!processed.has(other.id)]:
    [other.destination.region === req.destination.region &&
     cluster.length < 4] *)
Definition joins (req : Request) (cluster : list Request) (other : Request) : bool :=
  bool_decide (region (destination other) = region (destination req))
  && (length cluster <? 4)%nat.

(** the object literal pushed for the [k]-th cluster; its two draws are
    the [2k]-th and [2k+1]-th of the call *)
Definition describe (rnd : nat -> Draw) (k : nat) (cluster : list Request) : Cluster :=
  {| cluster_id := random_id (rnd (2 * k)%nat) 9;
     requests := cluster;
     totalPassengers := fold_left (fun sum r => (sum + passengers r)%Z) cluster 0%Z;
     estimatedSavings :=
       Math_floor (INR (length cluster) * 15 + number (rnd (2 * k + 1)%nat) * 10);
     co2Saved := toFixed1 (INR (length cluster) * 2.5);
     route := map (fun r => loc_name (destination r)) cluster |}.

Definition optimize_step (rnd : nat -> Draw) (reqs : list Request)
    (st : gset string * list Cluster) (req : Request)
  : gset string * list Cluster :=
  let '(processed, clusters) := st in
  match seed_step id joins reqs processed req with
  | (None, processed') => (processed', clusters)
  | (Some cluster, processed') =>
      (processed',
       if (0 <? length cluster)%nat
       then clusters ++ [describe rnd (length clusters) cluster]
       else clusters)
  end.

Definition simulateRLOptimization (rnd : nat -> Draw) (reqs : list Request)
  : list Cluster :=
  snd (fold_left (optimize_step rnd reqs) reqs (∅, [])).

(** *** The component state and its handlers

    [activeTab], [isOptimizing] and [showSuccess] only drive the
    display and are left out.  [timers] holds the [setTimeout]
    callbacks of the optimisation effect that have not fired yet, each
    with the [rideRequests] array its closure captured. *)

Record Stats : Type := mkStats {
  totalRequests : Z;
  activeVehicles : Z;
  stats_co2Saved : R;
  avgWaitTime : Z
}.

Record State : Type := mkState {
  rideRequests : list Request;
  optimizedRoutes : list Cluster;
  stats : Stats;
  selectedOrigin : option Location;
  selectedDestination : option Location;
  timers : list (list Request)
}.

Definition initial : State :=
  {| rideRequests := [];
     optimizedRoutes := [];
     stats := {| totalRequests := 0; activeVehicles := 3;
                 stats_co2Saved := 0; avgWaitTime := 12 |};
     selectedOrigin := None;
     selectedDestination := None;
     timers := [] |}.

Definition count_request (s : Stats) : Stats :=
  {| totalRequests := (totalRequests s + 1)%Z;
     activeVehicles := activeVehicles s;
     stats_co2Saved := stats_co2Saved s;
     avgWaitTime := avgWaitTime s |}.

(** The effect on [[rideRequests]]: with three or more pending requests
    it arms a timeout whose closure holds the current array. *)
Definition optimization_effect (rs : list Request) (ts : list (list Request))
  : list (list Request) :=
  if (3 <=? length (filter (fun r => status r = pending) rs))%nat
  then ts ++ [rs] else ts.

Definition append_request (r : Request) (st : State) : State :=
  let rs := rideRequests st ++ [r] in
  {| rideRequests := rs;
     optimizedRoutes := optimizedRoutes st;
     stats := count_request (stats st);
     selectedOrigin := selectedOrigin st;
     selectedDestination := selectedDestination st;
     timers := optimization_effect rs (timers st) |}.

(** the [setInterval] callback *)
Definition incoming (rnd : nat -> Draw) (now : Z) (st : State) : State :=
  if (length (rideRequests st) <? 8)%nat
  then match generateRideRequest rnd now with
       | Some newRequest => append_request newRequest st
       | None => st
       end
  else st.

Definition clear_selection (st : State) : State :=
  {| rideRequests := rideRequests st;
     optimizedRoutes := optimizedRoutes st;
     stats := stats st;
     selectedOrigin := None;
     selectedDestination := None;
     timers := timers st |}.

(** [handleRequestRide]; [rnd 0] gives the id and [rnd 1] the eta. *)
Definition handleRequestRide (rnd : nat -> Draw) (now : Z) (st : State) : State :=
  match selectedOrigin st, selectedDestination st with
  | Some o, Some d =>
      let newRequest :=
        {| id := random_id (rnd 0%nat) 9;
           origin := o;
           destination := d;
           passengers := 1;
           timestamp := now;
           status := pending;
           eta := (Math_floor (number (rnd 1%nat) * 15) + 5)%Z |} in
      clear_selection (append_request newRequest st)
  | _, _ => st
  end.

Definition setSelectedOrigin (l : Location) (st : State) : State :=
  {| rideRequests := rideRequests st;
     optimizedRoutes := optimizedRoutes st;
     stats := stats st;
     selectedOrigin := Some l;
     selectedDestination := selectedDestination st;
     timers := timers st |}.

Definition setSelectedDestination (l : Location) (st : State) : State :=
  {| rideRequests := rideRequests st;
     optimizedRoutes := optimizedRoutes st;
     stats := stats st;
     selectedOrigin := selectedOrigin st;
     selectedDestination := Some l;
     timers := timers st |}.

Definition assign (r : Request) : Request :=
  {| id := id r; origin := origin r; destination := destination r;
     passengers := passengers r; timestamp := timestamp r;
     status := assigned; eta := eta r |}.

(** The timeout callback of the optimisation effect, [snapshot] being
    the array its closure captured. *)
Definition optimize (rnd : nat -> Draw) (snapshot : list Request) (st : State)
  : State :=
  let optimized :=
    simulateRLOptimization rnd (filter (fun r => status r = pending) snapshot) in
  let rs := map assign (rideRequests st) in
  {| rideRequests := rs;
     optimizedRoutes := optimized;
     stats :=
       {| totalRequests := totalRequests (stats st);
          activeVehicles := activeVehicles (stats st);
          stats_co2Saved :=
            (stats_co2Saved (stats st)
             + fold_left (fun sum c => sum + co2Saved c) optimized 0)%R;
          avgWaitTime := avgWaitTime (stats st) |};
     selectedOrigin := selectedOrigin st;
     selectedDestination := selectedDestination st;
     timers := optimization_effect rs (timers st) |}.

(** One event of the running component. *)
Inductive step : State -> State -> Prop :=
  | step_incoming rnd now st :
      (forall k, unit_draw (rnd k)) ->
      step st (incoming rnd now st)
  | step_origin l st :
      l ∈ CYPRUS_LOCATIONS.cities ->
      step st (setSelectedOrigin l st)
  | step_destination l st :
      l ∈ CYPRUS_LOCATIONS.villages ++ CYPRUS_LOCATIONS.beaches ->
      step st (setSelectedDestination l st)
  | step_request rnd now st :
      (forall k, unit_draw (rnd k)) ->
      step st (handleRequestRide rnd now st)
  | step_timeout rnd snapshot ts1 ts2 st :
      (forall k, unit_draw (rnd k)) ->
      timers st = ts1 ++ snapshot :: ts2 ->
      step st (optimize rnd snapshot
                 {| rideRequests := rideRequests st;
                    optimizedRoutes := optimizedRoutes st;
                    stats := stats st;
                    selectedOrigin := selectedOrigin st;
                    selectedDestination := selectedDestination st;
                    timers := ts1 ++ ts2 |}).

Inductive reachable : State -> Prop :=
  | reachable_initial : reachable initial
  | reachable_step st st' : reachable st -> step st st' -> reachable st'.

(** *** Invariants of the demo *)

(** what every cluster satisfies, [req] being its seed *)
Definition demo_cluster (reqs : list Request) (req : Request) (c : list Request)
  : Prop :=
  (forall x, x ∈ c -> x ∈ reqs /\ region (destination x) = region (destination req))
  /\ (length c <= 4)%nat.

Definition few_passengers (r : Request) : Prop := (1 <= passengers r <= 4)%Z.

Definition demo_invariant (st : State) : Prop :=
  Forall few_passengers (rideRequests st)
  /\ Forall (Forall few_passengers) (timers st)
  /\ Forall (fun c => (length (requests c) <= 4)%nat /\ (totalPassengers c <= 16)%Z)
            (optimizedRoutes st).

(** *** Sample inputs *)

Definition nicosia : Location := loc "nicosia" "Nicosia" 35.1856 33.3823 city None.
Definition limassol : Location := loc "limassol" "Limassol" 34.6786 33.0413 city None.
Definition kakopetria : Location :=
  loc "kakopetria" "Kakopetria" 34.9833 32.9000 village (Some "Troodos").
Definition nissi : Location := loc "nissi" "Nissi Beach" 34.9875 34.0028 beach None.
Definition kourion : Location :=
  loc "kourion" "Kourion" 34.6647 32.8872 archaeological None.

Definition still : nat -> Draw := fun _ => mkDraw 0 "4fzzzxjyl".

Definition to_nissi : Request := mkRequest "r1" nicosia nissi 1 0 pending 10.
Definition to_kourion : Request := mkRequest "r2" limassol kourion 2 0 pending 12.

Definition ready : State :=
  {| rideRequests := [];
     optimizedRoutes := [];
     stats := stats initial;
     selectedOrigin := Some nicosia;
     selectedDestination := Some kakopetria;
     timers := [] |}.

End Demo.


(** ** The map-based application ([LastMileAI])

    In this module a handler runs to its end before the next event is
    handled: [submitRequest] is taken with its [await] already
    answered.  Module [Async] below splits it at the [await] and lets
    the other handlers in between. *)

Module MapApp.

Definition pin (i n : string) (la lo : R) (t : LocType) : Location :=
  mkLocation i n la lo t None.

Definition LOCATIONS : list Location :=
  [
    pin "nicosia" "Nicosia" 35.1856 33.3823 city;
    pin "limassol" "Limassol" 34.6786 33.0413 city;
    pin "larnaca" "Larnaca" 34.9229 33.6233 city;
    pin "paphos" "Paphos" 34.7754 32.4245 city;
    pin "ayianapa" "Ayia Napa" 34.9879 33.9990 city;
    pin "paralimni" "Paralimni" 35.0384 33.9823 city;
    pin "protaras" "Protaras" 35.0125 34.0583 city;
    pin "kakopetria" "Kakopetria" 34.9833 32.9000 village;
    pin "platres" "Platres" 34.8897 32.8639 village;
    pin "pedoulas" "Pedoulas" 34.9667 32.8333 village;
    pin "omodos" "Omodos" 34.8472 32.8083 village;
    pin "lefkara" "Lefkara" 34.8667 33.3000 village;
    pin "agros" "Agros" 34.9167 33.0167 village;
    pin "kalopanayiotis" "Kalopanayiotis" 34.9903 32.8297 village;
    pin "fikardou" "Fikardou" 34.9667 33.1333 village;
    pin "lofou" "Lofou" 34.8333 32.7833 village;
    pin "tochni" "Tochni" 34.7667 33.3333 village;
    pin "galata" "Galata" 34.9833 32.8917 village;
    pin "moutoullas" "Moutoullas" 34.9833 32.8417 village;
    pin "vouni" "Vouni" 34.8833 32.7667 village;
    pin "nissi" "Nissi Beach" 34.9875 34.0028 beach;
    pin "coral" "Coral Bay" 34.8553 32.3569 beach;
    pin "figtree" "Fig Tree Bay" 35.0125 34.0583 beach;
    pin "mackenzie" "Mackenzie Beach" 34.8833 33.6167 beach;
    pin "ladysmile" "Lady's Mile Beach" 34.6333 33.0167 beach;
    pin "konnos" "Konnos Bay" 34.9764 34.0764 beach;
    pin "lara" "Lara Beach" 35.0597 32.3017 beach;
    pin "governors" "Governor's Beach" 34.7167 33.2667 beach;
    pin "kourion" "Kourion" 34.6647 32.8872 archaeological;
    pin "tombs" "Tombs of Kings" 34.7728 32.4072 archaeological;
    pin "choirokoitia" "Choirokoitia" 34.7967 33.3417 archaeological;
    pin "kolossi" "Kolossi Castle" 34.6653 32.9336 archaeological;
    pin "troodos" "Troodos Square" 34.9333 32.8667 poi;
    pin "kykkos" "Kykkos Monastery" 34.9833 32.7417 poi;
    pin "stavrovouni" "Stavrovouni Monastery" 34.8833 33.4333 poi;
    pin "caledonia" "Caledonia Waterfalls" 34.8833 32.8833 poi;
    pin "millomeris" "Millomeris Waterfalls" 34.8750 32.8583 poi;
    pin "larnaca_airport" "Larnaca Airport" 34.8756 33.6247 transport;
    pin "paphos_airport" "Paphos Airport" 34.7180 32.4857 transport;
    pin "limassol_port" "Limassol Port" 34.6667 33.0333 transport ].

Module Vehicle.
Record t : Type := mk {
  name : string;
  capacity : Z;
  co2 : R;
  color : string
}.
End Vehicle.

(** [VEHICLES] (the [icon] glyphs are left out) *)
Module VEHICLES.
Definition small : Vehicle.t := Vehicle.mk "Mini Van" 4 0.15 "#10b981".
Definition medium : Vehicle.t := Vehicle.mk "Minibus" 8 0.22 "#3b82f6".
Definition large : Vehicle.t := Vehicle.mk "Bus" 20 0.30 "#8b5cf6".
End VEHICLES.

(** [Math.atan2] on real numbers *)
Definition Math_atan2 (y x : R) : R :=
  if bool_decide (0 < x)%R then atan (y / x)
  else if bool_decide (x < 0)%R
       then (if bool_decide (y < 0)%R then atan (y / x) - PI else atan (y / x) + PI)%R
       else if bool_decide (0 < y)%R then (PI / 2)%R
            else if bool_decide (y < 0)%R then (- PI / 2)%R else 0%R.

(** [getDistance]: the haversine great-circle distance in km *)
Definition getDistance (lat1 lng1 lat2 lng2 : R) : R :=
  let R_ := 6371%R in
  let dLat := ((lat2 - lat1) * PI / 180)%R in
  let dLng := ((lng2 - lng1) * PI / 180)%R in
  let a := ((sin (dLat / 2)) ^ 2
            + cos (lat1 * PI / 180) * cos (lat2 * PI / 180) * (sin (dLng / 2)) ^ 2)%R in
  (R_ * 2 * Math_atan2 (sqrt a) (sqrt (1 - a)))%R.

(** What the OSRM request resolves to: the [fetch] or the JSON parse
    throws ([failure]), or a parsed body with its [code] and [routes]
    (none when the property is missing or the array is empty); a route
    without [geometry] makes [fetchRoute] throw into its own [catch]. *)
Module Osrm.
Record route : Type := mk {
  geometry : option (list (R * R));
  distance : R;
  duration : R
}.
Inductive reply : Type :=
  | failure
  | json (code : string) (routes : list route).
End Osrm.

Module RouteData.
Record t : Type := mk {
  geometry : list (R * R);
  distance : R;
  duration : R
}.
End RouteData.

(** [fetchRoute], given what the network answers *)
Definition fetchRoute (answer : Osrm.reply) (stops : list Location)
  : option RouteData.t :=
  if (length stops <? 2)%nat then None
  else match answer with
       | Osrm.failure => None
       | Osrm.json code routes =>
           if bool_decide (code = "Ok")
           then match routes with
                | r0 :: _ =>
                    match Osrm.geometry r0 with
                    | Some coordinates =>
                        Some {| RouteData.geometry := coordinates;
                                RouteData.distance := (Osrm.distance r0 / 1000)%R;
                                RouteData.duration := (Osrm.duration r0 / 60)%R |}
                    | None => None
                    end
                | [] => None
                end
           else None
       end.

Definition selectVehicle (passengers : Z) : Vehicle.t :=
  if (passengers <=? 4)%Z then VEHICLES.small
  else if (passengers <=? 8)%Z then VEHICLES.medium
  else VEHICLES.large.

Module Request.
Record t : Type := mk {
  id : string;
  pickup : Location;
  destination : Location;
  passengers : Z;
  time : string
}.
End Request.

Module Route.
Record t : Type := mk {
  id : string;
  stops : list Location;
  vehicle : Vehicle.t;
  passengers : Z;
  distance : R;
  time : Z;
  co2 : R;
  geometry : option (list (R * R));
  requests : list Request.t
}.
End Route.

(** the test of the inner [forEach] past [used.has(other.id)]:
    [getDistance(req.destination, other.destination) < 20] *)
Definition nearby (req : Request.t) (cluster : list Request.t) (other : Request.t)
  : bool :=
  bool_decide
    (getDistance (lat (Request.destination req)) (lng (Request.destination req))
                 (lat (Request.destination other)) (lng (Request.destination other))
     < 20)%R.

(** the clustering block of [submitRequest] *)
Definition clusters_of (newRequests : list Request.t) : list (list Request.t) :=
  group_requests Request.id nearby newRequests.

(** [new Map(entries)] as the list of its entries in insertion order: a
    key that is set again keeps its place and takes the new value. *)
Fixpoint Map_set (m : list (string * Location)) (k : string) (v : Location)
  : list (string * Location) :=
  match m with
  | [] => [(k, v)]
  | (k', v') :: m' =>
      if bool_decide (k' = k) then (k', v) :: m' else (k', v') :: Map_set m' k v
  end.

Definition new_Map (entries : list (string * Location)) : list (string * Location) :=
  fold_left (fun m e => Map_set m (fst e) (snd e)) entries [].

Definition unique_stops (ls : list Location) : list Location :=
  map snd (new_Map (map (fun l => (loc_id l, l)) ls)).

(** [stops.reduce((sum, s, i) => i === 0 ? 0 : sum + getDistance(stops[i-1], s), 0)] *)
Fixpoint segments_from (prev : Location) (rest : list Location) (sum : R) : R :=
  match rest with
  | [] => sum
  | s :: rest' =>
      segments_from s rest' (sum + getDistance (lat prev) (lng prev) (lat s) (lng s))%R
  end.

Definition straight_line_km (stops : list Location) : R :=
  match stops with
  | [] => 0%R
  | s0 :: rest => segments_from s0 rest 0%R
  end.

(** What one run of [submitRequest] reads from outside the component. *)
Record Env : Type := mkEnv {
  request_draw : Draw;
  clock : string;
  route_draw : nat -> Draw;
  network : list Location -> Osrm.reply
}.

Definition total_passengers (cluster : list Request.t) : Z :=
  fold_left (fun sum r => (sum + Request.passengers r)%Z) cluster 0%Z.

Definition stops_of (cluster : list Request.t) : list Location :=
  let pickups := unique_stops (map Request.pickup cluster) in
  let dests := unique_stops (map Request.destination cluster) in
  pickups ++ dests.

(** the callback of [clusters.map] in [submitRequest], for the cluster
    at index [k] *)
Definition build_route (env : Env) (k : nat) (cluster : list Request.t) : Route.t :=
  let totalPass := total_passengers cluster in
  let vehicle := selectVehicle totalPass in
  let stops := stops_of cluster in
  let routeData := fetchRoute (network env stops) stops in
  let dist :=
    match routeData with
    | Some rd => RouteData.distance rd
    | None => straight_line_km stops
    end in
  let carCO2 := (IZR totalPass * dist * 0.21)%R in
  let busCO2 := (dist * Vehicle.co2 vehicle)%R in
  let saved := Math_max 0 (carCO2 - busCO2) in
  {| Route.id := random_id (route_draw env k) 6;
     Route.stops := stops;
     Route.vehicle := vehicle;
     Route.passengers := totalPass;
     Route.distance :=
       match routeData with
       | Some rd => toFixed1 (RouteData.distance rd)
       | None => toFixed1 dist
       end;
     Route.time :=
       match routeData with
       | Some rd => Math_round (RouteData.duration rd)
       | None => Math_round (dist / 45 * 60)
       end;
     Route.co2 := toFixed1 saved;
     Route.geometry :=
       match routeData with
       | Some rd => Some (RouteData.geometry rd)
       | None => None
       end;
     Route.requests := cluster |}.

Module Stats.
Record t : Type := mk { total : Z; co2 : R }.
End Stats.

(** The component state ([mapReady], [isLoading] and the Leaflet refs
    only drive the display). *)
Module State.
Record t : Type := mk {
  pickup : option Location;
  destination : option Location;
  passengers : Z;
  routes : list Route.t;
  requests : list Request.t;
  stats : Stats.t
}.
End State.

Definition start : State.t :=
  State.mk None None 1 [] [] (Stats.mk 0 0).

Definition new_request (env : Env) (p d : Location) (n : Z) : Request.t :=
  {| Request.id := random_id (request_draw env) 8;
     Request.pickup := p;
     Request.destination := d;
     Request.passengers := n;
     Request.time := clock env |}.

(** The values of the properties of a request object. *)
Inductive Value : Type :=
  | VString (s : string)
  | VNumber (n : Z)
  | VLocation (l : Location).

(** The object literal [{ id, pickup, destination, passengers, time }]
    of [submitRequest], property by property: what a reader of a request
    finds under a property name. *)
Definition properties (r : Request.t) : list (string * Value) :=
  [ ("id", VString (Request.id r));
    ("pickup", VLocation (Request.pickup r));
    ("destination", VLocation (Request.destination r));
    ("passengers", VNumber (Request.passengers r));
    ("time", VString (Request.time r)) ].

(** [request[key]]; a missing property reads as [undefined], embedded as
    [None] *)
Definition property (r : Request.t) (key : string) : option Value :=
  (list_to_map (properties r) : gmap string Value) !! key.

Definition submitRequest (env : Env) (st : State.t) : State.t :=
  match State.pickup st, State.destination st with
  | Some p, Some d =>
      let newRequest := new_request env p d (State.passengers st) in
      let newRequests := State.requests st ++ [newRequest] in
      let clusters := clusters_of newRequests in
      let newRoutes := imap (build_route env) clusters in
      {| State.pickup := None;
         State.destination := None;
         State.passengers := 1;
         State.routes := newRoutes;
         State.requests := newRequests;
         State.stats :=
           {| Stats.total := (Stats.total (State.stats st) + 1)%Z;
              Stats.co2 :=
                (Stats.co2 (State.stats st)
                 + fold_left (fun sum r => sum + Route.co2 r) newRoutes 0)%R |} |}
  | _, _ => st
  end.

Definition clearAll (st : State.t) : State.t :=
  {| State.pickup := None;
     State.destination := None;
     State.passengers := State.passengers st;
     State.routes := [];
     State.requests := [];
     State.stats := {| Stats.total := 0; Stats.co2 := 0 |} |}.

Definition clearSelection (st : State.t) : State.t :=
  {| State.pickup := None;
     State.destination := None;
     State.passengers := State.passengers st;
     State.routes := State.routes st;
     State.requests := State.requests st;
     State.stats := State.stats st |}.

Definition setPickup (l : Location) (st : State.t) : State.t :=
  {| State.pickup := Some l;
     State.destination := State.destination st;
     State.passengers := State.passengers st;
     State.routes := State.routes st;
     State.requests := State.requests st;
     State.stats := State.stats st |}.

Definition setDestination (l : Location) (st : State.t) : State.t :=
  {| State.pickup := State.pickup st;
     State.destination := Some l;
     State.passengers := State.passengers st;
     State.routes := State.routes st;
     State.requests := State.requests st;
     State.stats := State.stats st |}.

Definition setRoutes (rs : list Route.t) (st : State.t) : State.t :=
  {| State.pickup := State.pickup st;
     State.destination := State.destination st;
     State.passengers := State.passengers st;
     State.routes := rs;
     State.requests := State.requests st;
     State.stats := State.stats st |}.

Definition setPassengers (n : Z) (st : State.t) : State.t :=
  {| State.pickup := State.pickup st;
     State.destination := State.destination st;
     State.passengers := n;
     State.routes := State.routes st;
     State.requests := State.requests st;
     State.stats := State.stats st |}.

(** the marker's click handler ([pickupRef] and [destinationRef] hold
    the current selection) *)
Definition marker_click (l : Location) (st : State.t) : State.t :=
  match State.pickup st with
  | None => setPickup l st
  | Some p =>
      match State.destination st with
      | None =>
          if bool_decide (loc_id l ≠ loc_id p) then setDestination l st
          else st
      | Some _ =>
          if bool_decide (loc_id l ≠ loc_id p) then setDestination l st
          else st
      end
  end.

Definition fewer_passengers (st : State.t) : State.t :=
  setPassengers (Z.max 1 (State.passengers st - 1)) st.

Definition more_passengers (st : State.t) : State.t :=
  setPassengers (Z.min 20 (State.passengers st + 1)) st.

(** One event of the running component. *)
Inductive event : Type :=
  | MarkerClick (l : Location)
  | Minus
  | Plus
  | Submit (env : Env)
  | ClearSelection
  | ClearAll.

Definition handle (e : event) (st : State.t) : State.t :=
  match e with
  | MarkerClick l => marker_click l st
  | Minus => fewer_passengers st
  | Plus => more_passengers st
  | Submit env => submitRequest env st
  | ClearSelection => clearSelection st
  | ClearAll => clearAll st
  end.

Definition run (es : list event) (st : State.t) : State.t :=
  fold_left (fun s e => handle e s) es st.

(** *** Definitions used in the statements *)

(** the vehicle class in the specification's words: the smallest class
    whose capacity is at least the passenger count, else the largest *)
Definition classes : list Vehicle.t :=
  [VEHICLES.small; VEHICLES.medium; VEHICLES.large].

Definition spec_vehicle_class (passengers : Z) : Vehicle.t :=
  match List.filter (fun v => (passengers <=? Vehicle.capacity v)%Z) classes with
  | v :: _ => v
  | [] => List.last classes VEHICLES.large
  end.

(** the [dist] of [build_route]: the distance, in km and not yet rounded,
    that the emission figures are computed from *)
Definition route_km (env : Env) (cluster : list Request.t) : R :=
  match fetchRoute (network env (stops_of cluster)) (stops_of cluster) with
  | Some rd => RouteData.distance rd
  | None => straight_line_km (stops_of cluster)
  end.

(** the haversine term [a] of [getDistance] *)
Definition hav (lat1 lng1 lat2 lng2 : R) : R :=
  ((sin ((lat2 - lat1) * PI / 180 / 2)) ^ 2
   + cos (lat1 * PI / 180) * cos (lat2 * PI / 180)
     * (sin ((lng2 - lng1) * PI / 180 / 2)) ^ 2)%R.

(** the sum of the great-circle lengths of the consecutive segments *)
Fixpoint segment_sum (stops : list Location) : R :=
  match stops with
  | a :: ((b :: _) as rest) =>
      (getDistance (lat a) (lng a) (lat b) (lng b) + segment_sum rest)%R
  | _ => 0%R
  end.

Definition on_globe (l : Location) : Prop :=
  (-90 < lat l < 90 /\ -180 < lng l <= 180)%R.

Definition coincident (s t : Location) : Prop :=
  lat s = lat t /\ lng s = lng t.

(** what the form's controls guarantee about the selection *)
Definition well_formed (st : State.t) : Prop :=
  (1 <= State.passengers st <= 20)%Z
  /\ (State.pickup st = None -> State.destination st = None)
  /\ (forall p d, State.pickup st = Some p -> State.destination st = Some d ->
      loc_id d <> loc_id p).


(** *** Sample inputs *)

Definition pin_nicosia : Location := pin "nicosia" "Nicosia" 35.1856 33.3823 city.
Definition pin_kakopetria : Location := pin "kakopetria" "Kakopetria" 34.9833 32.9000 village.
Definition pin_figtree : Location := pin "figtree" "Fig Tree Bay" 35.0125 34.0583 beach.

(** the routing service does not answer *)
Definition offline : Env :=
  {| request_draw := mkDraw 0 "k3x9q2m7p";
     clock := "10:05:00";
     route_draw := fun _ => mkDraw 0 "z81hd0c4w";
     network := fun _ => Osrm.failure |}.

(** the routing service answers with a 10.5 km, 15 min route *)
Definition online : Env :=
  {| request_draw := mkDraw 0 "b7w2n5t1r";
     clock := "10:00:00";
     route_draw := fun _ => mkDraw 0 "q4s8v6y0u";
     network := fun _ =>
       Osrm.json "Ok"
         [ {| Osrm.geometry := Some [(33.3823, 35.1856); (32.9000, 34.9833)]%R;
              Osrm.distance := 10500;
              Osrm.duration := 900 |} ] |}.

(** the same submission as [offline], with the routing service answering
    and other draws for the route ids *)
Definition answering : Env :=
  {| request_draw := request_draw offline;
     clock := clock offline;
     route_draw := fun _ => mkDraw 0 "m2c5x8a1k";
     network := network online |}.

Definition select (p d : Location) : list event := [MarkerClick p; MarkerClick d].

(** one passenger from Nicosia to Kakopetria *)
Definition solo : Request.t := new_request online pin_nicosia pin_kakopetria 1.

(** twice twenty passengers from Nicosia to Kakopetria *)
Definition two_groups : list event :=
  select pin_nicosia pin_kakopetria ++ replicate 19 Plus ++ [Submit online]
  ++ select pin_nicosia pin_kakopetria ++ replicate 19 Plus ++ [Submit offline].

Definition group_a : Request.t := new_request online pin_nicosia pin_kakopetria 20.
Definition group_b : Request.t := new_request offline pin_nicosia pin_kakopetria 20.


(** two submissions for which [Math.random] returns the same number *)
Definition same_draw_twice : list event :=
  select pin_nicosia pin_kakopetria ++ [Submit offline]
  ++ select pin_nicosia pin_figtree ++ [Submit offline].

Definition twin_a : Request.t := new_request offline pin_nicosia pin_kakopetria 1.
Definition twin_b : Request.t := new_request offline pin_nicosia pin_figtree 1.



End MapApp.

(** ** What the dashboard demo displays *)

Module DemoView.
Import Demo.

(** [rideRequests.slice(-6).reverse()], the rows of the request queue *)
Definition queue (rideRequests : list Request) : list Request :=
  reverse (drop (length rideRequests - 6) rideRequests).

(** what the counters and the request list of every state satisfy *)
Definition demo_consistent (st : State) : Prop :=
  totalRequests (stats st) = Z.of_nat (length (rideRequests st))
  /\ activeVehicles (stats st) = 3%Z
  /\ avgWaitTime (stats st) = 12%Z
  /\ (0 <= stats_co2Saved (stats st))%R
  /\ Forall (fun r => origin r ∈ CYPRUS_LOCATIONS.cities
                      /\ destination r ∈ CYPRUS_LOCATIONS.villages
                           ++ CYPRUS_LOCATIONS.beaches
                           ++ CYPRUS_LOCATIONS.archaeological)
            (rideRequests st)
  /\ (forall o, selectedOrigin st = Some o -> o ∈ CYPRUS_LOCATIONS.cities)
  /\ (forall d, selectedDestination st = Some d ->
      d ∈ CYPRUS_LOCATIONS.villages ++ CYPRUS_LOCATIONS.beaches).

(** *** Sample inputs *)

Definition platres : Location :=
  loc "platres" "Platres" 34.8897 32.8639 village (Some "Troodos").

(** five requests into the Troodos region *)
Definition troodos_five : list Request :=
  [ mkRequest "t1" nicosia kakopetria 1 0 pending 10;
    mkRequest "t2" limassol platres 2 0 pending 11;
    mkRequest "t3" nicosia kakopetria 1 0 pending 12;
    mkRequest "t4" limassol platres 3 0 pending 13;
    mkRequest "t5" nicosia platres 1 0 pending 14 ].

(** a request that arrives after a timeout was armed on [troodos_five] *)
Definition late : Request := mkRequest "t6" nicosia nissi 1 0 pending 9.

Definition waiting : State :=
  {| rideRequests := troodos_five ++ [late];
     optimizedRoutes := [];
     stats := {| totalRequests := 6; activeVehicles := 3;
                 stats_co2Saved := 0; avgWaitTime := 12 |};
     selectedOrigin := None;
     selectedDestination := None;
     timers := [] |}.

(** one booking through the form: an origin, a destination and a click
    on the request button *)
Definition book (rnd : nat -> Draw) (o d : Location) (st : State) : State :=
  handleRequestRide rnd 0 (setSelectedDestination d (setSelectedOrigin o st)).

Definition other_draw : nat -> Draw := fun _ => mkDraw 0 "9q2m7k3x1".

(** three bookings, [Math.random] returning the same number for the
    first two *)
Definition booked_thrice : State :=
  book other_draw limassol platres
    (book still nicosia nissi (book still nicosia kakopetria initial)).

Definition booked_a : Request := mkRequest "4fzzzxjyl" nicosia kakopetria 1 0 pending 5.
Definition booked_b : Request := mkRequest "4fzzzxjyl" nicosia nissi 1 0 pending 5.
Definition booked_c : Request := mkRequest "9q2m7k3x1" limassol platres 1 0 pending 5.

End DemoView.

(** ** The state of the map-based application *)

Module MapState.
Import MapApp.

(** what the form's controls make true of every request they submit *)
Definition valid_request (r : Request.t) : Prop :=
  (1 <= Request.passengers r <= 20)%Z
  /\ loc_id (Request.pickup r) <> loc_id (Request.destination r).

Definition co2_sum (routes : list Route.t) : R :=
  fold_left (fun sum r => sum + Route.co2 r)%R routes 0%R.

(** what every state that the events lead to satisfies *)
Definition consistent (st : State.t) : Prop :=
  well_formed st
  /\ Forall valid_request (State.requests st)
  /\ Stats.total (State.stats st) = Z.of_nat (length (State.requests st))
  /\ (exists env, State.routes st = imap (build_route env) (clusters_of (State.requests st)))
  /\ (co2_sum (State.routes st) <= Stats.co2 (State.stats st))%R
  /\ (State.routes st = [] -> Stats.co2 (State.stats st) = 0%R).

(** *** Sample inputs *)

(** two points on the equator, half its length apart *)
Definition equator_west : Location := pin "west" "Equator 0" 0 0 poi.
Definition equator_east : Location := pin "east" "Equator 180" 0 180 poi.

Definition to_west : Request.t := new_request online pin_nicosia equator_west 1.
Definition to_east : Request.t := new_request offline pin_nicosia equator_east 1.

End MapState.

(** ** The answer of the routing service, property by property

    [Osrm.reply] is an answer whose routes carry [distance] and
    [duration] as numbers and a [geometry] that, when present, has its
    [coordinates].  [fetchRoute] reads a body that need not be so; this
    module takes the body as it comes.  A number that may be NaN is an
    [option R] here, [None] being NaN. *)

Module Payload.
Import MapApp.

(** [data.routes[0].geometry]: missing or null, so that reading its
    [coordinates] throws, or an object, with or without [coordinates] *)
Inductive geometry : Type :=
  | no_geometry
  | with_coordinates (coordinates : option (list (R * R))).

(** a route of the body; [distance_of] and [duration_of] are the
    properties as the divisions read them, [None] when the property is
    missing or not numeric *)
Record route : Type := mk_route {
  geometry_of : geometry;
  distance_of : option R;
  duration_of : option R
}.

Inductive reply : Type :=
  | failure
  | json (code : string) (routes : list route).

Module RouteData.
Record t : Type := mk {
  geometry : option (list (R * R));
  distance : option R;
  duration : option R
}.
End RouteData.

(** [fetchRoute], given what the network answers *)
Definition fetchRoute (answer : reply) (stops : list Location)
  : option RouteData.t :=
  if (length stops <? 2)%nat then None
  else match answer with
       | failure => None
       | json code routes =>
           if bool_decide (code = "Ok")
           then match routes with
                | r0 :: _ =>
                    match geometry_of r0 with
                    | with_coordinates coordinates =>
                        Some {| RouteData.geometry := coordinates;
                                RouteData.distance :=
                                  (fun d => d / 1000)%R <$> distance_of r0;
                                RouteData.duration :=
                                  (fun d => d / 60)%R <$> duration_of r0 |}
                    | no_geometry => None
                    end
                | [] => None
                end
           else None
       end.

Module Route.
Record t : Type := mk {
  id : string;
  stops : list Location;
  vehicle : Vehicle.t;
  passengers : Z;
  distance : option R;
  time : option Z;
  co2 : option R;
  geometry : option (list (R * R));
  requests : list Request.t
}.
End Route.

(** the callback of [clusters.map] in [submitRequest], for the cluster
    at index [k]; [Math.max], [Math.round] and [toFixed] of NaN are
    NaN *)
Definition build_route (route_draw : nat -> Draw)
    (network : list Location -> reply) (k : nat) (cluster : list Request.t)
  : Route.t :=
  let totalPass := total_passengers cluster in
  let vehicle := selectVehicle totalPass in
  let stops := stops_of cluster in
  let routeData := fetchRoute (network stops) stops in
  let dist : option R :=
    match routeData with
    | Some rd => RouteData.distance rd
    | None => Some (straight_line_km stops)
    end in
  let carCO2 := (fun d => IZR totalPass * d * 0.21)%R <$> dist in
  let busCO2 := (fun d => d * Vehicle.co2 vehicle)%R <$> dist in
  let saved :=
    match carCO2, busCO2 with
    | Some car, Some bus => Some (Math_max 0 (car - bus))
    | _, _ => None
    end in
  {| Route.id := random_id (route_draw k) 6;
     Route.stops := stops;
     Route.vehicle := vehicle;
     Route.passengers := totalPass;
     Route.distance :=
       match routeData with
       | Some rd => toFixed1 <$> RouteData.distance rd
       | None => toFixed1 <$> dist
       end;
     Route.time :=
       match routeData with
       | Some rd => Math_round <$> RouteData.duration rd
       | None => (fun d => Math_round (d / 45 * 60)) <$> dist
       end;
     Route.co2 := toFixed1 <$> saved;
     Route.geometry :=
       match routeData with
       | Some rd => RouteData.geometry rd
       | None => None
       end;
     Route.requests := cluster |}.

(** an answer of [Osrm] as a body *)
Definition of_osrm (answer : Osrm.reply) : reply :=
  match answer with
  | Osrm.failure => failure
  | Osrm.json code routes =>
      json code
        (map (fun r => {| geometry_of :=
                            match Osrm.geometry r with
                            | Some coordinates => with_coordinates (Some coordinates)
                            | None => no_geometry
                            end;
                          distance_of := Some (Osrm.distance r);
                          duration_of := Some (Osrm.duration r) |})
             routes)
  end.

(** a route of [MapApp] as a route whose numbers are all numbers *)
Definition of_route (r : MapApp.Route.t) : Route.t :=
  {| Route.id := MapApp.Route.id r;
     Route.stops := MapApp.Route.stops r;
     Route.vehicle := MapApp.Route.vehicle r;
     Route.passengers := MapApp.Route.passengers r;
     Route.distance := Some (MapApp.Route.distance r);
     Route.time := Some (MapApp.Route.time r);
     Route.co2 := Some (MapApp.Route.co2 r);
     Route.geometry := MapApp.Route.geometry r;
     Route.requests := MapApp.Route.requests r |}.

(** *** Sample inputs *)

(** the routing service does not answer *)
Definition unreachable : list Location -> reply := fun _ => failure.

(** a body with code [Ok] whose route has a geometry without
    coordinates and neither distance nor duration *)
Definition garbled : list Location -> reply :=
  fun _ => json "Ok" [ {| geometry_of := with_coordinates None;
                          distance_of := None;
                          duration_of := None |} ].

End Payload.


(** ** The catalogue on the grid of its coordinates *)

Module Grid.
Import MapApp.

(** the box of latitudes and longitudes that holds the catalogue *)
Definition in_box (la lo : R) : Prop := (34 <= la <= 36 /\ 32 <= lo <= 35)%R.

(** the coordinates of [LOCATIONS] in units of 1/10000 degree *)
Definition LOCATIONS_grid : list (Z * Z) :=
  [(351856, 333823); (346786, 330413); (349229, 336233); (347754, 324245);
    (349879, 339990); (350384, 339823); (350125, 340583); (349833, 329000);
    (348897, 328639); (349667, 328333); (348472, 328083); (348667, 333000);
    (349167, 330167); (349903, 328297); (349667, 331333); (348333, 327833);
    (347667, 333333); (349833, 328917); (349833, 328417); (348833, 327667);
    (349875, 340028); (348553, 323569); (350125, 340583); (348833, 336167);
    (346333, 330167); (349764, 340764); (350597, 323017); (347167, 332667);
    (346647, 328872); (347728, 324072); (347967, 333417); (346653, 329336);
    (349333, 328667); (349833, 327417); (348833, 334333); (348833, 328833);
    (348750, 328583); (348756, 336247); (347180, 324857); (346667, 330333) ]%Z.
Definition on_grid (l : Location) (p : Z * Z) : Prop :=
  lat l = (IZR (fst p) / 10000)%R /\ lng l = (IZR (snd p) / 10000)%R.

(** two grid points are the same or at least 0.003 degree apart in
    latitude or in longitude *)
Definition apart (p q : Z * Z) : bool :=
  bool_decide (p = q)
  || (30 <=? Z.abs (fst q - fst p))%Z || (30 <=? Z.abs (snd q - snd p))%Z.

Definition in_grid_box (p : Z * Z) : bool :=
  (340000 <=? fst p)%Z && (fst p <=? 360000)%Z
  && (320000 <=? snd p)%Z && (snd p <=? 350000)%Z.
End Grid.

(** ** The submission split at its [await]

    Up to the [await], [submitRequest] appends the request, counts it,
    computes the clusters and starts fetching their routes; the routes,
    the CO2 statistic and the reset of the form follow once every
    answer is in.  The clicks on the markers and on the other buttons
    are handled in between; only the submit button is disabled
    meanwhile. *)

Module Async.
Import MapApp.

(** what the closure of a started submission holds *)
Record Flight : Type := mkFlight {
  flight_env : Env;
  newRequests : list Request.t
}.

(** the component state with [isLoading]: [Some] while a submission
    awaits its routes *)
Record t : Type := mk {
  state : State.t;
  isLoading : option Flight
}.

Definition idle (st : State.t) : t := mk st None.

Definition initial : t := idle start.

(** [submitRequest] up to its [await]; the button that calls it is
    disabled while [isLoading] *)
Definition begin (env : Env) (a : t) : t :=
  let st := state a in
  match isLoading a, State.pickup st, State.destination st with
  | None, Some p, Some d =>
      let newRequest := new_request env p d (State.passengers st) in
      let newRequests := State.requests st ++ [newRequest] in
      {| state :=
           {| State.pickup := State.pickup st;
              State.destination := State.destination st;
              State.passengers := State.passengers st;
              State.routes := State.routes st;
              State.requests := newRequests;
              State.stats :=
                {| Stats.total := (Stats.total (State.stats st) + 1)%Z;
                   Stats.co2 := Stats.co2 (State.stats st) |} |};
         isLoading := Some {| flight_env := env; newRequests := newRequests |} |}
  | _, _, _ => a
  end.

(** [submitRequest] from its [await] on: the state updates run on the
    state as it is by then *)
Definition settle (a : t) : t :=
  let st := state a in
  match isLoading a with
  | Some flight =>
      let newRoutes :=
        imap (build_route (flight_env flight)) (clusters_of (newRequests flight)) in
      {| state :=
           {| State.pickup := None;
              State.destination := None;
              State.passengers := 1;
              State.routes := newRoutes;
              State.requests := State.requests st;
              State.stats :=
                {| Stats.total := Stats.total (State.stats st);
                   Stats.co2 :=
                     (Stats.co2 (State.stats st)
                      + fold_left (fun sum r => sum + Route.co2 r) newRoutes 0)%R |} |};
         isLoading := None |}
  | None => a
  end.

(** an event of the component, or the answers of a started submission
    coming in *)
Inductive event : Type :=
  | Ui (e : MapApp.event)
  | Settle.

Definition handle (e : event) (a : t) : t :=
  match e with
  | Ui (Submit env) => begin env a
  | Ui e => {| state := MapApp.handle e (state a); isLoading := isLoading a |}
  | Settle => settle a
  end.

Definition run (es : list event) (a : t) : t :=
  fold_left (fun a e => handle e a) es a.


(** what every state satisfies, also between the two halves of a
    submission *)
Definition consistent (a : t) : Prop :=
  let st := state a in
  Stats.total (State.stats st) = Z.of_nat (length (State.requests st))
  /\ match isLoading a with
     | None =>
         (State.requests st <> [] ->
          map Route.requests (State.routes st) = clusters_of (State.requests st))
         /\ (State.routes st = [] ->
             State.requests st = [] /\ Stats.co2 (State.stats st) = 0%R)
     | Some flight =>
         newRequests flight <> []
         /\ (State.requests st = newRequests flight \/ State.requests st = [])
     end.

End Async.

(** ** What the map-based application draws *)

Module MapView.
Import MapApp.

(** *** Marker appearance *)

Record Icon : Type := mkIcon {
  icon_color : string;
  icon_size : Z;
  icon_border : Z;
  icon_pulse : bool
}.

(** the [colors] table; every category has an entry, so the [||]
    default is never taken *)
Definition colors (t : LocType) : string :=
  match t with
  | city => "#10b981"
  | village => "#f59e0b"
  | beach => "#06b6d4"
  | archaeological => "#a855f7"
  | poi => "#ec4899"
  | transport => "#ef4444"
  end.

(** [selection?.id === loc.id] *)
Definition is_selected (selection : option Location) (loc : Location) : bool :=
  match selection with
  | Some s => bool_decide (loc_id s = loc_id loc)
  | None => false
  end.

(** the icon that the appearance effect gives the marker of [loc] *)
Definition marker_icon (pickup destination : option Location) (loc : Location) : Icon :=
  let isPickup := is_selected pickup loc in
  let isDest := is_selected destination loc in
  let color := colors (type loc) in
  let size := if bool_decide (type loc = city) then 14%Z else 10%Z in
  let '(color, size) := if isPickup then ("#22c55e", 18%Z) else (color, size) in
  let '(color, size) := if isDest then ("#ef4444", 18%Z) else (color, size) in
  {| icon_color := color;
     icon_size := size;
     icon_border := if isPickup || isDest then 3%Z else 2%Z;
     icon_pulse := isPickup || isDest |}.

(** the [sizes] table of [loadMap] *)
Definition sizes (t : LocType) : Z :=
  match t with
  | city => 14
  | village => 10
  | beach => 10
  | archaeological => 10
  | poi => 9
  | transport => 11
  end%Z.

(** the icon that [loadMap] gives the marker of [loc] when it places it *)
Definition loadMap_icon (loc : Location) : Icon :=
  {| icon_color := colors (type loc);
     icon_size := sizes (type loc);
     icon_border := 2;
     icon_pulse := false |}.

(** What the dependency array [[pickup, destination]] of the appearance
    effect is compared on.  The markers hand [setPickup] and
    [setDestination] entries of the catalogue, which are the same
    object exactly when they have the same identifier; and the icons
    the effect sets depend on the identifiers only. *)
Definition selection (st : State.t) : option string * option string :=
  (loc_id <$> State.pickup st, loc_id <$> State.destination st).

(** The icons on the map: [None] while the markers carry the icons of
    [loadMap] (the effect's run at mount finds no marker yet), and the
    pickup and destination of the effect's last run after that. *)
Definition Styling : Type := option (option Location * option Location).

(** the appearance effect after an event: it runs when the selection
    has changed *)
Definition restyle (before after : State.t) (styled : Styling) : Styling :=
  if bool_decide (selection after = selection before) then styled
  else Some (State.pickup after, State.destination after).

Fixpoint styling (es : list event) (st : State.t) (styled : Styling) : Styling :=
  match es with
  | [] => styled
  | e :: es' => styling es' (handle e st) (restyle st (handle e st) styled)
  end.

(** the icon that the marker of [loc] carries *)
Definition displayed (styled : Styling) (loc : Location) : Icon :=
  match styled with
  | None => loadMap_icon loc
  | Some (pickup, destination) => marker_icon pickup destination loc
  end.

(** whether a marker has been clicked *)
Definition clicked (es : list event) : bool :=
  existsb (fun e => match e with MarkerClick _ => true | _ => false end) es.

(** what ties the icons on the map to the state *)
Definition styled_as (st : State.t) (styled : Styling) : Prop :=
  match styled with
  | None => selection st = (None, None)
  | Some (p, d) => (loc_id <$> p, loc_id <$> d) = selection st
  end.

(** *** Route layers *)

Inductive Layer : Type :=
  | Polyline (latLngs : list (R * R)) (color : string)
  | StopMarker (number : Z) (stop : Location) (color : string)
  | VehicleMarker (latLng : option (R * R)).

(** [[coord[1], coord[0]]] *)
Definition to_latLng (coord : R * R) : R * R := (snd coord, fst coord).

(** the layers that the callback of [routes.forEach] pushes on
    [routeLayers.current] *)
Definition draw_route (route : Route.t) : list Layer :=
  match Route.geometry route with
  | None => []
  | Some geometry =>
      if (length geometry <? 2)%nat then []
      else
        let latLngs := map to_latLng geometry in
        let color := Vehicle.color (Route.vehicle route) in
        [Polyline latLngs color]
        ++ imap (fun idx stop => StopMarker (Z.of_nat idx + 1) stop color)
                (Route.stops route)
        ++ [VehicleMarker (head latLngs)]
  end.

(** the drawing effect: the old layers are removed, then every route is
    drawn *)
Definition draw (routes : list Route.t) : list Layer :=
  concat (map draw_route routes).

(** *** The vehicle animation *)

#[export] Instance Rge_decision (x y : R) : Decision (x >= y)%R := Rge_dec x y.
#[export] Instance Req_decision : EqDecision R := Req_dec_T.

(** what one call of [animate] does with the vehicle marker *)
Inductive Move : Type :=
  | move_to (latLng : R * R)
  | move_undefined   (* the ratio is a division by a segment length of zero *)
  | stay.            (* the loop ends without [setLatLng] *)

Definition between (a b : R * R) (ratio : R) : R * R :=
  (fst a + (fst b - fst a) * ratio, snd a + (snd b - snd a) * ratio)%R.

Definition totalSteps : Z := 200.

Section Animation.
(** [mapInstance.current.distance], Leaflet's distance between two points *)
Variable distance : R * R -> R * R -> R.

Fixpoint segmentLengths (latLngs : list (R * R)) : list R :=
  match latLngs with
  | a :: ((b :: _) as rest) => distance a b :: segmentLengths rest
  | _ => []
  end.

Definition totalLength (latLngs : list (R * R)) : R :=
  fold_left Rplus (segmentLengths latLngs) 0%R.

(** the inner [for] loop of [animate], from segment [i] on, [lengths]
    and [latLngs] being what is left of both arrays *)
Fixpoint locate (lengths : list R) (latLngs : list (R * R))
    (accumulated targetDist : R) : Move :=
  match lengths, latLngs with
  | len :: lengths', a :: ((b :: _) as rest) =>
      if bool_decide (accumulated + len >= targetDist)%R
      then if bool_decide (len = 0%R) then move_undefined
           else move_to (between a b ((targetDist - accumulated) / len))
      else locate lengths' rest (accumulated + len) targetDist
  | _, _ => stay
  end.

(** the value of [step] that a call of [animate] works with *)
Definition wrap (step : Z) : Z :=
  if (step >=? totalSteps)%Z then 0%Z else step.

(** one call of [animate]: the move and the new value of [step].  When
    the position is not a pair of finite numbers, the call of
    [setLatLng] comes before [step++] and [setTimeout]; whether these
    are still reached is decided inside Leaflet and not by the source,
    so the new value is then [None]. *)
Definition animate (latLngs : list (R * R)) (step : Z) : Move * option Z :=
  let step := wrap step in
  let targetDist := (IZR step / IZR totalSteps * totalLength latLngs)%R in
  let move := locate (segmentLengths latLngs) latLngs 0 targetDist in
  (move,
   match move with
   | move_undefined => None
   | _ => Some (step + 1)%Z
   end).

(** the value of [step] after [n] calls, as far as the source decides it *)
Definition step_after (latLngs : list (R * R)) (n : nat) : option Z :=
  Nat.iter n
    (fun step => match step with
                 | Some s => snd (animate latLngs s)
                 | None => None
                 end)
    (Some 0%Z).

(** the [n]-th call, counted from zero; [move_undefined] also when an
    earlier call has left the value of [step] open *)
Definition frame (latLngs : list (R * R)) (n : nat) : Move :=
  match step_after latLngs n with
  | Some step => fst (animate latLngs step)
  | None => move_undefined
  end.

End Animation.

(** the point at arc length [d] of the path whose segments have the
    given lengths *)
Definition at_arc_length (lengths : list R) (latLngs : list (R * R)) (d : R)
    (p : R * R) : Prop :=
  exists (i : nat) (len : R) (a b : R * R) (ratio : R),
    lengths !! i = Some len /\ latLngs !! i = Some a /\ latLngs !! S i = Some b
    /\ (0 <= ratio <= 1)%R
    /\ p = between a b ratio
    /\ (fold_left Rplus (take i lengths) 0 + ratio * len = d)%R.

(** *** Sample inputs *)

(** a distance under which every segment is one unit long *)
Definition unit_distance (a b : R * R) : R := 1%R.

Definition three_points : list (R * R) :=
  [(35.1856, 33.3823); (35.0000, 33.1000); (34.9833, 32.9000)]%R.

End MapView.


(** * Facts about the loop *)

Section ScanFacts.
Context {Req : Type}.
Variable rid : Req -> string.
Variable joins : Req -> list Req -> Req -> bool.
Variable requests : list Req.

Lemma fold_left_invariant {S A : Type} (I : S -> Prop) (f : S -> A -> S) (l : list A) :
  (forall s x, x ∈ l -> I s -> I (f s x)) ->
  forall s, I s -> I (fold_left f l s).
Proof.
  induction l as [|a l IH]; intros Hstep s Hs; simpl; [done|].
  apply IH.
  - intros s' x Hx. apply Hstep. by right.
  - apply Hstep; [by left|done].
Qed.

Lemma NoDup_map_inj_on (l : list Req) x y :
  NoDup (map rid l) -> x ∈ l -> y ∈ l -> rid x = rid y -> x = y.
Proof.
  induction l as [|a l IH]; simpl; intros Hnd Hx Hy Hxy.
  { by apply elem_of_nil in Hx. }
  apply NoDup_cons in Hnd as [Ha Hnd].
  apply elem_of_cons in Hx as [->|Hx]; apply elem_of_cons in Hy as [->|Hy]; auto.
  - exfalso. apply Ha. rewrite Hxy. apply list_elem_of_fmap. eauto.
  - exfalso. apply Ha. rewrite <- Hxy. apply list_elem_of_fmap. eauto.
Qed.

Lemma tracked_push members processed x :
  x ∈ requests -> rid x ∉ processed ->
  tracked rid requests members processed ->
  tracked rid requests (members ++ [x]) ({[rid x]} ∪ processed).
Proof.
  intros Hx Hfresh (Hsub & Hnd & Hids). split; [|split; [|intros i; split]].
  - intros y Hy. apply elem_of_app in Hy as [Hy|Hy]; [by apply Hsub|].
    apply list_elem_of_singleton in Hy. by subst.
  - rewrite map_app. simpl. apply NoDup_app. repeat split; [done| |apply NoDup_singleton].
    intros i Hi Hi'. apply list_elem_of_singleton in Hi'. subst.
    apply Hfresh. by apply Hids.
  - rewrite map_app, elem_of_app. simpl. rewrite list_elem_of_singleton.
    intros Hi. apply elem_of_union in Hi as [Hi|Hi];
      [right; by apply elem_of_singleton in Hi|left; by apply Hids].
  - rewrite map_app, elem_of_app. simpl. rewrite list_elem_of_singleton.
    intros [Hi|Hi]; [apply elem_of_union_r; by apply Hids|].
    apply elem_of_union_l. by apply elem_of_singleton.
Qed.

Lemma scan_tracked req before l cluster processed :
  (forall x, x ∈ l -> x ∈ requests) ->
  tracked rid requests (before ++ cluster) processed ->
  let out := fold_left (scan_step rid joins req) l (cluster, processed) in
  tracked rid requests (before ++ fst out) (snd out).
Proof.
  intros Hl Htr.
  apply (fold_left_invariant
           (fun st => tracked rid requests (before ++ fst st) (snd st))); [|done].
  intros [c p] x Hx Hcp. unfold scan_step. simpl in *.
  case_bool_decide as Hin; [done|].
  destruct (joins req c x); [|done]. simpl.
  rewrite app_assoc. apply tracked_push; auto.
Qed.

Lemma scan_grows req l cluster processed :
  processed ⊆ snd (fold_left (scan_step rid joins req) l (cluster, processed)).
Proof.
  apply (fold_left_invariant (fun st => processed ⊆ snd st)); [|done].
  intros [c p] x _ Hp. unfold scan_step. simpl in *.
  case_bool_decide; [done|]. destruct (joins req c x); [|done].
  intros i Hi. apply elem_of_union_r. by apply Hp.
Qed.

Lemma seed_step_tracked before processed req :
  req ∈ requests ->
  tracked rid requests before processed ->
  let out := seed_step rid joins requests processed req in
  processed ⊆ snd out
  /\ rid req ∈ snd out
  /\ tracked rid requests (before ++ default [] (fst out)) (snd out).
Proof.
  intros Hreq Htr. unfold seed_step.
  case_bool_decide as Hin; simpl.
  { rewrite app_nil_r. done. }
  pose proof (scan_grows req requests [req] ({[rid req]} ∪ processed)) as Hgrow.
  pose proof (scan_tracked req before requests [req] ({[rid req]} ∪ processed)
                (fun x H => H) (tracked_push _ _ _ Hreq Hin Htr)) as Hscan.
  destruct (fold_left _ requests _) as [cluster processed']. simpl in *.
  split; [|split; [|done]].
  - intros i Hi. apply Hgrow. by apply elem_of_union_r.
  - apply Hgrow. apply elem_of_union_l. by apply elem_of_singleton.
Qed.

Lemma group_tracked l :
  (forall x, x ∈ l -> x ∈ requests) ->
  forall st, tracked rid requests (concat (snd st)) (fst st) ->
  let st' := fold_left (group_step rid joins requests) l st in
  tracked rid requests (concat (snd st')) (fst st')
  /\ fst st ⊆ fst st'
  /\ (forall x, x ∈ l -> rid x ∈ fst st').
Proof.
  induction l as [|req l IH]; intros Hl [processed clusters] Htr; cbn [fold_left].
  { split; [done|]. split; [done|]. intros x Hx. by apply elem_of_nil in Hx. }
  cbn [fst snd] in Htr.
  destruct (seed_step_tracked (concat clusters) processed req) as (Hsub & Hreq & Htr');
    [apply Hl; by left|done|].
  assert (Hst : exists st1,
             group_step rid joins requests (processed, clusters) req = st1
             /\ tracked rid requests (concat (snd st1)) (fst st1)
             /\ processed ⊆ fst st1 /\ rid req ∈ fst st1).
  { unfold group_step.
    destruct (seed_step rid joins requests processed req) as [[cluster|] p'];
      simpl in *; eexists; (split; [reflexivity|]); simpl.
    - rewrite concat_app. simpl. rewrite app_nil_r. done.
    - rewrite app_nil_r in Htr'. done. }
  destruct Hst as (st1 & Hst1 & Htr1 & Hsub1 & Hreq1). rewrite Hst1.
  destruct (IH (fun x H => Hl x (list_elem_of_further _ _ _ H)) st1 Htr1)
    as (Hfin & Hsubfin & Hcov).
  split; [done|]. split.
  - intros i Hi. apply Hsubfin. cbn [fst]. by apply Hsub1.
  - intros x Hx. apply elem_of_cons in Hx as [->|Hx]; [by apply Hsubfin|auto].
Qed.

Lemma tracked_empty : tracked rid requests [] ∅.
Proof.
  split; [|split].
  - intros x Hx. by apply elem_of_nil in Hx.
  - apply NoDup_nil_2.
  - intros i. simpl. split; intros Hi;
      [by apply not_elem_of_empty in Hi|by apply elem_of_nil in Hi].
Qed.

(** No request of the input is lost and none is placed twice. *)
Lemma group_requests_partition :
  NoDup (map rid requests) ->
  concat (group_requests rid joins requests) ≡ₚ requests.
Proof.
  intros Hnd. unfold group_requests.
  destruct (group_tracked requests (fun x H => H) (∅, []) tracked_empty)
    as ((Hsub & Hnd' & Hids) & _ & Hcov).
  set (out := fold_left _ _ _) in *.
  apply NoDup_Permutation.
  - eapply NoDup_fmap_1. exact Hnd'.
  - eapply NoDup_fmap_1. exact Hnd.
  - intros x. split; [apply Hsub|]. intros Hx.
    pose proof (Hcov x Hx) as Hin. apply Hids in Hin.
    apply list_elem_of_fmap in Hin as (y & Hxy & Hy).
    assert (x = y) as ->; [|done].
    apply (NoDup_map_inj_on requests); auto.
Qed.

Lemma length_concat_sum (ls : list (list Req)) :
  list_sum (map length ls) = length (concat ls).
Proof.
  induction ls as [|c ls IH]; simpl; [done|]. rewrite length_app. by rewrite IH.
Qed.

(** A property of the open cluster that holds of the seed alone and
    survives every push holds of all the clusters returned. *)
Lemma group_requests_clusters (B : Req -> list Req -> Prop) :
  (forall req, req ∈ requests -> B req [req]) ->
  (forall req c x, B req c -> x ∈ requests -> joins req c x = true -> B req (c ++ [x])) ->
  forall c, c ∈ group_requests rid joins requests ->
  exists req, req ∈ requests /\ B req c.
Proof.
  intros Bseed Bpush. unfold group_requests.
  apply (fold_left_invariant
           (fun st : gset string * list (list Req) =>
              forall c, c ∈ snd st -> exists req, req ∈ requests /\ B req c)).
  - intros [processed clusters] req Hreq Hst c. unfold group_step, seed_step.
    case_bool_decide; [apply Hst|].
    pose proof (fold_left_invariant (fun st : list Req * gset string => B req (fst st))
                  (scan_step rid joins req) requests) as Hscan.
    destruct (fold_left _ requests _) as [cluster processed'] eqn:Hfold.
    cbn [snd]. intros Hc. apply elem_of_app in Hc as [Hc|Hc]; [by apply Hst|].
    apply list_elem_of_singleton in Hc as ->. exists req. split; [done|].
    change cluster with (fst (cluster, processed')). rewrite <- Hfold.
    apply Hscan; [|by apply Bseed].
    intros [c p] x Hx Hc. unfold scan_step. cbn [fst] in *.
    case_bool_decide; [done|]. destruct (joins req c x) eqn:Hj; [|done].
    by apply Bpush.
  - intros c Hc. by apply elem_of_nil in Hc.
Qed.

(** two requests with distinct ids end up together exactly when the
    second passes the test against the first *)
Lemma group_requests_pair q1 q2 :
  rid q1 <> rid q2 ->
  group_requests rid joins [q1; q2]
  = if joins q1 [q1] q2 then [[q1; q2]] else [[q1]; [q2]].
Proof.
  intros Hid.
  assert (rid q1 ∈ ({[rid q1]} ∪ ∅ : gset string)) as H1
    by (apply elem_of_union_l; by apply elem_of_singleton).
  assert (rid q2 ∉ ({[rid q1]} ∪ ∅ : gset string)) as H2.
  { intros H. apply elem_of_union in H as [H|H];
      [apply elem_of_singleton in H; congruence|by apply not_elem_of_empty in H]. }
  assert (rid q2 ∈ ({[rid q2]} ∪ ({[rid q1]} ∪ ∅) : gset string)) as H3
    by (apply elem_of_union_l; by apply elem_of_singleton).
  assert (rid q1 ∈ ({[rid q2]} ∪ ({[rid q1]} ∪ ∅) : gset string)) as H4
    by (by apply elem_of_union_r).
  unfold group_requests. cbn [fold_left].
  unfold group_step at 2. unfold seed_step.
  rewrite bool_decide_eq_false_2 by apply not_elem_of_empty.
  cbn [fold_left]. unfold scan_step at 2.
  rewrite (bool_decide_eq_true_2 _ H1).
  unfold scan_step at 1. rewrite (bool_decide_eq_false_2 _ H2).
  destruct (joins q1 [q1] q2).
  - unfold group_step, seed_step. cbn [app].
    by rewrite (bool_decide_eq_true_2 _ H3).
  - unfold group_step, seed_step.
    rewrite (bool_decide_eq_false_2 _ H2). cbn [fold_left].
    unfold scan_step.
    by rewrite (bool_decide_eq_true_2 _ H4), (bool_decide_eq_true_2 _ H3).
Qed.
(** Whatever the ids, the clusters hold requests of the input, one for
    each id of the input. *)
Lemma group_requests_one_per_id :
  let out := concat (group_requests rid joins requests) in
  NoDup (map rid out)
  /\ (forall x, x ∈ out -> x ∈ requests)
  /\ (forall x, x ∈ requests -> rid x ∈ map rid out)
  /\ length out = length (remove_dups (map rid requests)).
Proof.
  unfold group_requests.
  destruct (group_tracked requests (fun x H => H) (∅, []) tracked_empty)
    as ((Hsub & Hnd & Hids) & _ & Hcov).
  set (out := fold_left _ _ _) in *. cbv zeta.
  split; [done|]. split; [done|].
  assert (forall x, x ∈ requests -> rid x ∈ map rid (concat (snd out))) as Hall.
  { intros x Hx. apply Hids. by apply Hcov. }
  split; [done|].
  rewrite <- (length_map rid (concat (snd out))).
  apply Permutation_length, NoDup_Permutation; [done|apply NoDup_remove_dups|].
  intros i. rewrite elem_of_remove_dups. split; intros Hi.
  - apply list_elem_of_fmap in Hi as (x & -> & Hx).
    apply list_elem_of_fmap_2. by apply Hsub.
  - apply list_elem_of_fmap in Hi as (x & -> & Hx). by apply Hall.
Qed.

(** Of two requests with one id the second is in no cluster. *)
Lemma group_requests_same_id q1 q2 :
  rid q1 = rid q2 -> group_requests rid joins [q1; q2] = [[q1]].
Proof.
  intros Hid.
  assert (rid q1 ∈ ({[rid q1]} ∪ ∅ : gset string)) as H1
    by (apply elem_of_union_l; by apply elem_of_singleton).
  assert (rid q2 ∈ ({[rid q1]} ∪ ∅ : gset string)) as H2
    by (rewrite <- Hid; exact H1).
  unfold group_requests. cbn [fold_left].
  unfold group_step at 2. unfold seed_step.
  rewrite bool_decide_eq_false_2 by apply not_elem_of_empty.
  cbn [fold_left]. unfold scan_step at 2.
  rewrite (bool_decide_eq_true_2 _ H1).
  unfold scan_step at 1. rewrite (bool_decide_eq_true_2 _ H2).
  unfold group_step, seed_step. by rewrite (bool_decide_eq_true_2 _ H2).
Qed.

End ScanFacts.

(** * Facts about the numerics *)

Module NumFacts.
#[local] Open Scope R_scope.

Lemma Zfloor_nonneg x : 0 <= x -> (0 <= Zfloor x)%Z.
Proof. intros H. by apply Zfloor_lub. Qed.

Lemma Zfloor_below x (z : Z) : x < IZR z -> (Zfloor x < z)%Z.
Proof.
  intros H. apply lt_IZR. pose proof (Zfloor_bound x). lra.
Qed.

Lemma toFixed1_nonneg x : 0 <= x -> 0 <= toFixed1 x.
Proof.
  intros H. unfold toFixed1. case_bool_decide; [lra|].
  assert (0 <= Zfloor (x * 10 + / 2))%Z as Hz by (apply Zfloor_nonneg; lra).
  apply IZR_le in Hz. lra.
Qed.

Lemma toFixed1_tenths x (z : Z) :
  0 <= x -> IZR z <= x * 10 + / 2 < IZR z + 1 -> toFixed1 x = IZR z / 10.
Proof.
  intros H Hz. unfold toFixed1. case_bool_decide; [lra|].
  by rewrite (Zfloor_eq z).
Qed.

Lemma Math_max_0_nonneg x : 0 <= Math_max 0 x.
Proof. apply Rmax_l. Qed.
End NumFacts.


(** * Facts about the demo *)

Lemma fold_left_related {S1 S2 A : Type} (Rel : S1 -> S2 -> Prop)
    (f : S1 -> A -> S1) (g : S2 -> A -> S2) (l : list A) :
  (forall s1 s2 x, Rel s1 s2 -> Rel (f s1 x) (g s2 x)) ->
  forall s1 s2, Rel s1 s2 -> Rel (fold_left f l s1) (fold_left g l s2).
Proof.
  intros Hstep. induction l as [|a l IH]; intros s1 s2 H; simpl; [done|].
  apply IH. by apply Hstep.
Qed.

Lemma seed_step_nonempty {Req : Type} (rid : Req -> string) joins requests processed req c p :
  seed_step rid joins requests processed req = (Some c, p) -> (0 < length c)%nat.
Proof.
  unfold seed_step. case_bool_decide; [done|].
  pose proof (fold_left_invariant (fun st : list Req * gset string => (0 < length (fst st))%nat)
                (scan_step rid joins req) requests) as Hscan.
  destruct (fold_left _ requests _) as [cluster processed'] eqn:Hfold.
  intros [= <- <-]. change cluster with (fst (cluster, processed')). rewrite <- Hfold.
  apply Hscan; [|simpl; lia].
  intros [c' p'] x _ Hc. unfold scan_step. cbn [fst] in *.
  case_bool_decide; [done|]. destruct (joins req c' x); [|done].
  cbn [fst]. rewrite length_app. lia.
Qed.

Module DemoFacts.
Import Demo NumFacts.

(** The request lists of the clusters do not depend on the draws. *)
Lemma simulate_requests rnd reqs :
  map requests (simulateRLOptimization rnd reqs) = group_requests id joins reqs.
Proof.
  unfold simulateRLOptimization, group_requests.
  apply (fold_left_related
           (fun (s1 : gset string * list Cluster) (s2 : gset string * list (list Request)) =>
              map requests (snd s1) = snd s2 /\ fst s1 = fst s2)); [|done].
  intros [p1 cs] [p2 gs] req [Hcs Hp]. cbn [fst snd] in *. subst p2 gs.
  unfold optimize_step, group_step.
  destruct (seed_step id joins reqs p1 req) as [[c|] p'] eqn:Hseed; cbn [fst snd]; [|done].
  apply seed_step_nonempty in Hseed. apply Nat.ltb_lt in Hseed. rewrite Hseed.
  split; [|done]. by rewrite map_app.
Qed.

Lemma group_demo_cluster reqs c :
  c ∈ group_requests id joins reqs -> exists req, req ∈ reqs /\ demo_cluster reqs req c.
Proof.
  apply group_requests_clusters.
  - intros req Hreq. split; [|simpl; lia].
    intros x Hx. apply list_elem_of_singleton in Hx as ->. done.
  - intros req c' x [Hmem Hlen] Hx Hj. unfold joins in Hj.
    apply andb_true_iff in Hj as [Hreg Hlt].
    apply bool_decide_eq_true in Hreg. apply Nat.ltb_lt in Hlt.
    split; [|rewrite length_app; simpl; lia].
    intros y Hy. apply elem_of_app in Hy as [Hy|Hy]; [by apply Hmem|].
    apply list_elem_of_singleton in Hy as ->. done.
Qed.

Lemma simulate_demo_cluster rnd reqs c :
  c ∈ simulateRLOptimization rnd reqs ->
  exists req, req ∈ reqs /\ demo_cluster reqs req (requests c).
Proof.
  intros Hc. apply group_demo_cluster. rewrite <- (simulate_requests rnd).
  apply list_elem_of_fmap. eauto.
Qed.

Lemma sum_passengers_bound (c : list Request) (b z : Z) :
  (forall x, x ∈ c -> (passengers x <= b)%Z) ->
  (fold_left (fun sum r => (sum + passengers r)%Z) c z <= z + b * Z.of_nat (length c))%Z.
Proof.
  revert z. induction c as [|r c IH]; intros z Hb; simpl; [lia|].
  pose proof (Hb r (list_elem_of_here _ _)).
  pose proof (IH (z + passengers r)%Z (fun x H => Hb x (list_elem_of_further _ _ _ H))).
  lia.
Qed.

(** every cluster record is [describe] of its own request list *)
Lemma simulate_described rnd reqs c :
  c ∈ simulateRLOptimization rnd reqs -> exists k, c = describe rnd k (requests c).
Proof.
  unfold simulateRLOptimization.
  apply (fold_left_invariant
           (fun st : gset string * list Cluster =>
              forall c, c ∈ snd st -> exists k, c = describe rnd k (requests c))).
  - intros [p cs] req _ Hst c'. unfold optimize_step.
    destruct (seed_step id joins reqs p req) as [[cl|] p']; cbn [snd]; [|apply Hst].
    destruct (0 <? length cl)%nat; [|apply Hst].
    intros Hc. apply elem_of_app in Hc as [Hc|Hc]; [by apply Hst|].
    apply list_elem_of_singleton in Hc as ->. by eexists.
  - intros c' Hc. by apply elem_of_nil in Hc.
Qed.

Lemma simulate_totalPassengers rnd reqs c :
  c ∈ simulateRLOptimization rnd reqs ->
  totalPassengers c = fold_left (fun sum r => (sum + passengers r)%Z) (requests c) 0%Z.
Proof. intros Hc. apply simulate_described in Hc as [k ->]. reflexivity. Qed.

Lemma simulate_capacity rnd reqs c (b : Z) :
  (0 <= b)%Z ->
  (forall r, r ∈ reqs -> (passengers r <= b)%Z) ->
  c ∈ simulateRLOptimization rnd reqs ->
  (length (requests c) <= 4)%nat /\ (totalPassengers c <= 4 * b)%Z.
Proof.
  intros Hb0 Hb Hc. pose proof (simulate_demo_cluster _ _ _ Hc) as (req & _ & Hmem & Hlen).
  split; [done|]. rewrite (simulate_totalPassengers _ _ _ Hc).
  pose proof (sum_passengers_bound (requests c) b 0
                (fun x Hx => Hb x (proj1 (Hmem x Hx)))).
  nia.
Qed.

(** *** The running demo *)

(** with draws in [[0, 1)] the generator always yields a request *)
Lemma pick_some (l : list Location) (d : Draw) :
  l <> [] -> unit_draw d -> is_Some (pick l d).
Proof.
  intros Hl [Hlo Hhi]. unfold pick, Math_floor. apply lookup_lt_is_Some.
  assert (0 < INR (length l))%R as Hlen.
  { apply lt_0_INR. destruct l; [done|simpl; lia]. }
  pose proof (Zfloor_nonneg (number d * INR (length l)) ltac:(nra)) as H0.
  pose proof (Zfloor_below (number d * INR (length l)) (Z.of_nat (length l))) as H1.
  rewrite <- INR_IZR_INZ in H1. specialize (H1 ltac:(nra)). lia.
Qed.

Lemma generate_some rnd now :
  (forall k, unit_draw (rnd k)) -> is_Some (generateRideRequest rnd now).
Proof.
  intros Hrnd. unfold generateRideRequest.
  destruct (pick_some (CYPRUS_LOCATIONS.villages ++ CYPRUS_LOCATIONS.beaches
                       ++ CYPRUS_LOCATIONS.archaeological) (rnd 0%nat))
    as [dest ->]; [done|apply Hrnd|].
  destruct (pick_some CYPRUS_LOCATIONS.cities (rnd 1%nat)) as [orig ->];
    [done|apply Hrnd|].
  by eexists.
Qed.

Lemma generate_few_passengers rnd now r :
  (forall k, unit_draw (rnd k)) ->
  generateRideRequest rnd now = Some r -> few_passengers r.
Proof.
  intros Hrnd. unfold generateRideRequest.
  destruct (pick _ (rnd 0%nat)); [|done].
  destruct (pick CYPRUS_LOCATIONS.cities _); [|done].
  intros [= <-]. unfold few_passengers, Math_floor. simpl.
  destruct (Hrnd 2%nat) as [Hlo Hhi].
  pose proof (Zfloor_nonneg (number (rnd 2%nat) * 4) ltac:(lra)).
  pose proof (Zfloor_below (number (rnd 2%nat) * 4) 4 ltac:(lra)).
  lia.
Qed.

Lemma optimization_effect_few rs ts :
  Forall few_passengers rs -> Forall (Forall few_passengers) ts ->
  Forall (Forall few_passengers) (optimization_effect rs ts).
Proof.
  intros Hrs Hts. unfold optimization_effect.
  destruct (3 <=? _)%nat; [|done]. apply Forall_app. split; [done|]. by apply Forall_singleton.
Qed.

Lemma append_request_invariant r st :
  few_passengers r -> demo_invariant st -> demo_invariant (append_request r st).
Proof.
  intros Hr (Hrs & Hts & Hcs).
  assert (Forall few_passengers (rideRequests st ++ [r])) as Hrs'.
  { apply Forall_app. split; [done|]. by apply Forall_singleton. }
  split; [done|]. split; [|done]. by apply optimization_effect_few.
Qed.

Lemma optimize_invariant rnd snapshot st :
  Forall few_passengers snapshot -> demo_invariant st ->
  demo_invariant (optimize rnd snapshot st).
Proof.
  intros Hsnap (Hrs & Hts & Hcs).
  assert (Forall few_passengers (map assign (rideRequests st))) as Hrs'.
  { apply Forall_fmap. eapply Forall_impl; [exact Hrs|]. by intros []. }
  split; [done|]. split; [by apply optimization_effect_few|].
  apply Forall_forall. intros c Hc. simpl in Hc.
  apply (simulate_capacity _ _ _ 4) in Hc; [lia|lia|].
  intros r Hr. apply list_elem_of_filter in Hr as [_ Hr].
  rewrite Forall_forall in Hsnap. by apply Hsnap.
Qed.

Lemma step_invariant st st' : step st st' -> demo_invariant st -> demo_invariant st'.
Proof.
  intros Hstep Hinv.
  destruct Hstep as [rnd now st Hrnd|l st _|l st _|rnd now st Hrnd
                    |rnd snapshot ts1 ts2 st Hrnd Hts].
  - unfold incoming. destruct (_ <? 8)%nat; [|done].
    destruct (generateRideRequest rnd now) as [r|] eqn:Hgen; [|done].
    apply append_request_invariant; [|done]. by eapply generate_few_passengers.
  - done.
  - done.
  - unfold handleRequestRide. destruct (selectedOrigin st) as [o|]; [|done].
    destruct (selectedDestination st) as [d|]; [|done].
    apply (append_request_invariant
             {| id := random_id (rnd 0%nat) 9; origin := o; destination := d;
                passengers := 1; timestamp := now; status := pending;
                eta := (Math_floor (number (rnd 1%nat) * 15) + 5)%Z |}); [|done].
    unfold few_passengers. simpl. lia.
  - destruct Hinv as (Hrs & Htimers & Hcs). rewrite Hts in Htimers.
    apply Forall_app in Htimers as [H1 H2]. apply Forall_cons in H2 as [Hsnap H2].
    apply optimize_invariant; [done|].
    split; [done|]. split; [|done]. simpl. apply Forall_app. done.
Qed.

Lemma reachable_invariant st : reachable st -> demo_invariant st.
Proof.
  induction 1 as [|st st' _ IH Hstep].
  - repeat split; by constructor.
  - by eapply step_invariant.
Qed.

(** in every state the demo reaches, the clusters on display are within
    the capacity of the largest vehicle of the map-based application *)
Lemma reachable_routes_within_capacity st :
  reachable st ->
  Forall (fun c => (totalPassengers c <= MapApp.Vehicle.capacity MapApp.VEHICLES.large)%Z)
         (optimizedRoutes st).
Proof.
  intros Hst. destruct (reachable_invariant st Hst) as (_ & _ & Hcs).
  eapply Forall_impl; [exact Hcs|]. intros c [_ Hc]. simpl. lia.
Qed.

Lemma step_totalRequests st st' :
  step st st' -> (totalRequests (stats st) <= totalRequests (stats st'))%Z.
Proof.
  intros Hstep.
  destruct Hstep as [rnd now st Hrnd|l st _|l st _|rnd now st Hrnd
                    |rnd snapshot ts1 ts2 st Hrnd Hts]; simpl; try lia.
  - unfold incoming. destruct (_ <? 8)%nat; [|lia].
    destruct (generateRideRequest rnd now); simpl; lia.
  - unfold handleRequestRide. destruct (selectedOrigin st); [|lia].
    destruct (selectedDestination st); simpl; lia.
Qed.
End DemoFacts.

(** * Facts about distances *)

Module GeoFacts.
Import MapApp.
#[local] Open Scope R_scope.

Lemma atan_pos x : 0 < x -> 0 < atan x.
Proof. intros H. rewrite <- atan_0. by apply atan_increasing. Qed.

Lemma Math_atan2_nonneg y x : 0 <= y -> 0 <= x -> 0 <= Math_atan2 y x.
Proof.
  intros Hy Hx. unfold Math_atan2.
  case_bool_decide as Hx0.
  { destruct Hy as [Hy| <-].
    - left. apply atan_pos. by apply Rdiv_lt_0_compat.
    - unfold Rdiv. rewrite Rmult_0_l, atan_0. lra. }
  case_bool_decide; [lra|].
  case_bool_decide; [pose proof PI_RGT_0; lra|].
  case_bool_decide; lra.
Qed.

Lemma Math_atan2_pos y x : 0 < y -> 0 <= x -> 0 < Math_atan2 y x.
Proof.
  intros Hy Hx. unfold Math_atan2.
  case_bool_decide as Hx0.
  { apply atan_pos. by apply Rdiv_lt_0_compat. }
  case_bool_decide; [lra|].
  case_bool_decide; [pose proof PI_RGT_0; lra|lra].
Qed.

Lemma Math_atan2_0_1 : Math_atan2 0 1 = 0.
Proof.
  unfold Math_atan2. case_bool_decide; [|lra].
  unfold Rdiv. by rewrite Rmult_0_l, atan_0.
Qed.

Lemma getDistance_hav lat1 lng1 lat2 lng2 :
  getDistance lat1 lng1 lat2 lng2
  = 6371 * 2 * Math_atan2 (sqrt (hav lat1 lng1 lat2 lng2))
                          (sqrt (1 - hav lat1 lng1 lat2 lng2)).
Proof. reflexivity. Qed.

Lemma getDistance_same la lo : getDistance la lo la lo = 0.
Proof.
  rewrite getDistance_hav. unfold hav.
  replace ((la - la) * PI / 180 / 2) with 0 by (unfold Rdiv; ring).
  replace ((lo - lo) * PI / 180 / 2) with 0 by (unfold Rdiv; ring).
  rewrite sin_0.
  replace (0 ^ 2 + cos (la * PI / 180) * cos (la * PI / 180) * 0 ^ 2) with 0 by ring.
  rewrite Rminus_0_r, sqrt_0, sqrt_1, Math_atan2_0_1. ring.
Qed.

Lemma cos_degrees_pos la : -90 < la < 90 -> 0 < cos (la * PI / 180).
Proof.
  intros H. pose proof PI_RGT_0 as Hpi. apply cos_gt_0; nra.
Qed.

Lemma sin_sqr_pos x : - PI < x < PI -> x <> 0 -> 0 < (sin x) ^ 2.
Proof.
  intros [Hlo Hhi] Hx.
  assert (sin x <> 0) as Hs.
  { destruct (Rtotal_order x 0) as [Hneg|[->|Hpos]]; [|done|].
    - pose proof (sin_lt_0_var x Hlo Hneg). lra.
    - pose proof (sin_gt_0 x Hpos Hhi). lra. }
  nra.
Qed.

Lemma hav_nonneg lat1 lng1 lat2 lng2 :
  -90 < lat1 < 90 -> -90 < lat2 < 90 -> 0 <= hav lat1 lng1 lat2 lng2.
Proof.
  intros H1 H2. unfold hav.
  pose proof (cos_degrees_pos _ H1). pose proof (cos_degrees_pos _ H2).
  apply Rplus_le_le_0_compat; [apply pow2_ge_0|].
  apply Rmult_le_pos; [|apply pow2_ge_0].
  apply Rmult_le_pos; lra.
Qed.

Lemma hav_pos lat1 lng1 lat2 lng2 :
  -90 < lat1 < 90 -> -90 < lat2 < 90 ->
  -180 < lng1 <= 180 -> -180 < lng2 <= 180 ->
  (lat1, lng1) <> (lat2, lng2) ->
  0 < hav lat1 lng1 lat2 lng2.
Proof.
  intros H1 H2 G1 G2 Hne. unfold hav.
  pose proof PI_RGT_0 as Hpi.
  pose proof (cos_degrees_pos _ H1) as C1. pose proof (cos_degrees_pos _ H2) as C2.
  pose proof (pow2_ge_0 (sin ((lat2 - lat1) * PI / 180 / 2))) as S1.
  pose proof (pow2_ge_0 (sin ((lng2 - lng1) * PI / 180 / 2))) as S2.
  destruct (Req_dec lat1 lat2) as [Hlat|Hlat].
  - assert (lng1 <> lng2) as Hlng by (intros ->; apply Hne; by subst).
    assert (0 < sin ((lng2 - lng1) * PI / 180 / 2) ^ 2) as S2'.
    { apply sin_sqr_pos; [split; nra|]. intros Hz. apply Hlng. nra. }
    apply Rplus_le_lt_0_compat; [done|].
    apply Rmult_lt_0_compat; [|done]. by apply Rmult_lt_0_compat.
  - assert (0 < sin ((lat2 - lat1) * PI / 180 / 2) ^ 2) as S1'.
    { apply sin_sqr_pos; [split; nra|]. intros Hz. apply Hlat. nra. }
    apply Rplus_lt_le_0_compat; [done|].
    apply Rmult_le_pos; [|done]. apply Rmult_le_pos; lra.
Qed.

Lemma getDistance_nonneg lat1 lng1 lat2 lng2 :
  -90 < lat1 < 90 -> -90 < lat2 < 90 -> 0 <= getDistance lat1 lng1 lat2 lng2.
Proof.
  intros H1 H2. rewrite getDistance_hav.
  pose proof (Math_atan2_nonneg (sqrt (hav lat1 lng1 lat2 lng2))
                (sqrt (1 - hav lat1 lng1 lat2 lng2)) (sqrt_pos _) (sqrt_pos _)).
  nra.
Qed.

Lemma getDistance_pos lat1 lng1 lat2 lng2 :
  -90 < lat1 < 90 -> -90 < lat2 < 90 ->
  -180 < lng1 <= 180 -> -180 < lng2 <= 180 ->
  (lat1, lng1) <> (lat2, lng2) ->
  0 < getDistance lat1 lng1 lat2 lng2.
Proof.
  intros H1 H2 G1 G2 Hne. rewrite getDistance_hav.
  pose proof (hav_pos _ _ _ _ H1 H2 G1 G2 Hne) as Ha.
  pose proof (Math_atan2_pos (sqrt (hav lat1 lng1 lat2 lng2))
                (sqrt (1 - hav lat1 lng1 lat2 lng2)) (sqrt_lt_R0 _ Ha) (sqrt_pos _)).
  nra.
Qed.

Lemma segments_from_sum rest : forall prev sum,
  segments_from prev rest sum = sum + segment_sum (prev :: rest).
Proof.
  induction rest as [|s rest IH]; intros prev sum; simpl; [lra|].
  rewrite IH. simpl. lra.
Qed.

Lemma straight_line_segment_sum stops : straight_line_km stops = segment_sum stops.
Proof.
  destruct stops as [|s0 rest]; [done|]. unfold straight_line_km.
  rewrite segments_from_sum. lra.
Qed.

Lemma segment_sum_nonneg stops : Forall on_globe stops -> 0 <= segment_sum stops.
Proof.
  induction stops as [|a [|b rest] IH]; intros Hg; simpl; [lra|lra|].
  apply Forall_cons in Hg as [[Ha _] Hg]. pose proof Hg as Hg'.
  apply Forall_cons in Hg' as [[Hb _] _].
  pose proof (getDistance_nonneg (lat a) (lng a) (lat b) (lng b) Ha Hb).
  pose proof (IH Hg). simpl in *. lra.
Qed.

Lemma coincident_dec s t : {coincident s t} + {~ coincident s t}.
Proof.
  unfold coincident.
  destruct (Req_dec_T (lat s) (lat t)); [|right; tauto].
  destruct (Req_dec_T (lng s) (lng t)); [left|right]; tauto.
Qed.

Lemma segment_sum_pos stops :
  Forall on_globe stops ->
  (exists s t, s ∈ stops /\ t ∈ stops /\ ~ coincident s t) ->
  0 < segment_sum stops.
Proof.
  induction stops as [|a [|b rest] IH]; intros Hg (s & t & Hs & Ht & Hst).
  - by apply elem_of_nil in Hs.
  - apply list_elem_of_singleton in Hs as ->. apply list_elem_of_singleton in Ht as ->.
    exfalso. by apply Hst.
  - apply Forall_cons in Hg as [[Ha Ha'] Hg]. pose proof Hg as Hg'.
    apply Forall_cons in Hg' as [[Hb Hb'] _].
    pose proof (segment_sum_nonneg _ Hg) as Hrest.
    change (0 < getDistance (lat a) (lng a) (lat b) (lng b) + segment_sum (b :: rest)).
    destruct (coincident_dec a b) as [Hab|Hab].
    + pose proof (getDistance_nonneg (lat a) (lng a) (lat b) (lng b) Ha Hb).
      assert (0 < segment_sum (b :: rest)); [|lra].
      apply IH; [done|].
      assert (forall x, x ∈ a :: b :: rest ->
                exists y, y ∈ b :: rest /\ coincident x y) as Hmove.
      { intros x Hx. apply elem_of_cons in Hx as [->|Hx]; [exists b|exists x].
        - split; [by left|done].
        - split; [done|]. by split. }
      destruct (Hmove s Hs) as (s' & Hs' & [Es1 Es2]).
      destruct (Hmove t Ht) as (t' & Ht' & [Et1 Et2]).
      exists s', t'. split; [done|]. split; [done|].
      intros [E1 E2]. apply Hst. split; congruence.
    + assert (0 < getDistance (lat a) (lng a) (lat b) (lng b)); [|lra].
      apply getDistance_pos; try done.
      intros [= E1 E2]. apply Hab. by split.
Qed.
End GeoFacts.

(** * Facts about the map-based application *)

Module MapFacts.
Import MapApp GeoFacts NumFacts.

Lemma joins_same_place req c other :
  lat (Request.destination other) = lat (Request.destination req) ->
  lng (Request.destination other) = lng (Request.destination req) ->
  nearby req c other = true.
Proof.
  intros Hla Hlo. unfold nearby. rewrite Hla, Hlo, getDistance_same.
  apply bool_decide_eq_true. lra.
Qed.

(** two requests with distinct ids, the second of which joins the first *)
Lemma clusters_of_pair q1 q2 :
  Request.id q1 <> Request.id q2 ->
  nearby q1 [q1] q2 = true ->
  clusters_of [q1; q2] = [[q1; q2]].
Proof.
  intros Hid Hj. unfold clusters_of. by rewrite group_requests_pair, Hj.
Qed.


Lemma build_route_co2_nonneg env k cluster :
  (0 <= Route.co2 (build_route env k cluster))%R.
Proof. apply toFixed1_nonneg, Math_max_0_nonneg. Qed.

(** every route in [routes] was built by a [submitRequest] *)
Lemma handle_routes e st r :
  r ∈ State.routes (handle e st) ->
  r ∈ State.routes st \/ exists env k cluster, r = build_route env k cluster.
Proof.
  destruct e as [l| | |env| |]; simpl; auto.
  - unfold marker_click. destruct (State.pickup st); [|auto].
    destruct (State.destination st); case_bool_decide; auto.
  - unfold submitRequest. destruct (State.pickup st); [|auto].
    destruct (State.destination st); [|auto]. simpl.
    intros Hr. apply elem_of_lookup_imap in Hr as (k & c & -> & _). eauto.
  - intros Hr. by apply elem_of_nil in Hr.
Qed.

Lemma run_routes es : forall st r,
  r ∈ State.routes (run es st) ->
  r ∈ State.routes st \/ exists env k cluster, r = build_route env k cluster.
Proof.
  induction es as [|e es IH]; intros st r; simpl; [auto|].
  intros Hr. apply IH in Hr as [Hr|Hr]; [|auto]. by apply handle_routes in Hr.
Qed.

Lemma well_formed_cleared n rs qs stats :
  (1 <= n <= 20)%Z ->
  well_formed (State.mk None None n rs qs stats).
Proof.
  intros Hn. split; [done|]. split; [done|]. intros p d [=].
Qed.

Lemma setDestination_well_formed l p st :
  well_formed st -> State.pickup st = Some p -> loc_id l <> loc_id p ->
  well_formed (setDestination l st).
Proof.
  intros (Hp & Hnone & Hne) Hpick Hl. split; [done|]. split.
  - simpl. rewrite Hpick. intros [=].
  - simpl. rewrite Hpick. intros p' d' [= <-] [= <-]. done.
Qed.

Lemma handle_well_formed e st : well_formed st -> well_formed (handle e st).
Proof.
  intros Hwf. pose proof Hwf as (Hp & Hnone & Hne).
  destruct e as [l| | |env| |]; simpl.
  - unfold marker_click. destruct (State.pickup st) as [p|] eqn:Hpick.
    + destruct (State.destination st); case_bool_decide;
        try done; by eapply setDestination_well_formed.
    + split; [done|]. split; [intros [=]|]. simpl.
      intros p d _ Hd. rewrite Hnone in Hd; done.
  - split; [simpl; lia|]. split; [done|]. apply Hne.
  - split; [simpl; lia|]. split; [done|]. apply Hne.
  - unfold submitRequest. destruct (State.pickup st) eqn:Hpick; [|done].
    destruct (State.destination st) eqn:Hdest; [|done].
    by apply well_formed_cleared.
  - by apply well_formed_cleared.
  - by apply well_formed_cleared.
Qed.

Lemma run_well_formed es : forall st, well_formed st -> well_formed (run es st).
Proof.
  induction es as [|e es IH]; intros st H; simpl; [done|].
  by apply IH, handle_well_formed.
Qed.

Lemma initial_well_formed : well_formed start.
Proof. by apply well_formed_cleared. Qed.

(** the request lists of the routes are the clusters they were built from *)
Lemma build_route_requests env (cs : list (list Request.t)) :
  map Route.requests (imap (build_route env) cs) = cs.
Proof.
  change (Route.requests <$> imap (build_route env) cs = cs).
  rewrite fmap_imap.
  rewrite (imap_ext _ (const (fun c => c)) cs) by done.
  rewrite imap_const. apply list_fmap_id.
Qed.

Lemma submitRequest_selected env st p d :
  State.pickup st = Some p -> State.destination st = Some d ->
  submitRequest env st
  = let newRequests := State.requests st ++ [new_request env p d (State.passengers st)] in
    let newRoutes := imap (build_route env) (clusters_of newRequests) in
    {| State.pickup := None;
       State.destination := None;
       State.passengers := 1;
       State.routes := newRoutes;
       State.requests := newRequests;
       State.stats :=
         {| Stats.total := (Stats.total (State.stats st) + 1)%Z;
            Stats.co2 :=
              (Stats.co2 (State.stats st)
               + fold_left (fun sum r => sum + Route.co2 r) newRoutes 0)%R |} |}.
Proof. intros Hp Hd. unfold submitRequest. by rewrite Hp, Hd. Qed.

Lemma run_app es1 es2 st : run (es1 ++ es2) st = run es2 (run es1 st).
Proof. apply fold_left_app. Qed.


Lemma two_groups_routes :
  State.routes (run two_groups start) = [build_route offline 0 [group_a; group_b]].
Proof.
  change two_groups with
    ((select pin_nicosia pin_kakopetria ++ replicate 19 Plus ++ [Submit online]
      ++ select pin_nicosia pin_kakopetria ++ replicate 19 Plus) ++ [Submit offline]).
  rewrite run_app. cbn [run fold_left handle].
  rewrite (submitRequest_selected offline _ pin_nicosia pin_kakopetria) by reflexivity.
  cbn [State.routes].
  change (State.requests _ ++ _) with [group_a; group_b].
  rewrite clusters_of_pair; [reflexivity|done|].
  by apply joins_same_place.
Qed.

(** every marker of the map is at a latitude and longitude for which
    [getDistance] is a distance *)
Lemma LOCATIONS_on_globe : Forall on_globe LOCATIONS.
Proof. repeat constructor; simpl; lra. Qed.

#[local] Open Scope R_scope.

(** the route of one passenger when the service answers 10500 m *)
Lemma solo_online_route :
  let r := build_route online 0 [solo] in
  Route.passengers r = 1%Z /\ Route.vehicle r = VEHICLES.small
  /\ Route.distance r = toFixed1 (10500 / 1000)
  /\ Route.co2 r
     = toFixed1 (Math_max 0 (IZR 1 * (10500 / 1000) * 0.21 - 10500 / 1000 * 0.15)).
Proof. repeat split. Qed.

Lemma toFixed1_10_5 : toFixed1 (10500 / 1000) = 10.5.
Proof. rewrite (toFixed1_tenths _ 105); lra. Qed.

Lemma saved_solo :
  Math_max 0 (IZR 1 * (10500 / 1000) * 0.21 - 10500 / 1000 * 0.15) = 0.63.
Proof. unfold Math_max. rewrite Rmax_right; lra. Qed.

Lemma toFixed1_0_63 : toFixed1 0.63 = 0.6.
Proof. rewrite (toFixed1_tenths _ 6); lra. Qed.
(** a request object has no property [status] *)
Lemma property_status r : property r "status" = None.
Proof.
  unfold property, properties. cbn [list_to_map foldr uncurry].
  rewrite !lookup_insert_ne by done. apply lookup_empty.
Qed.

Lemma property_passengers r : property r "passengers" = Some (VNumber (Request.passengers r)).
Proof.
  unfold property, properties. cbn [list_to_map foldr uncurry].
  rewrite !lookup_insert_ne by done. apply lookup_insert_eq.
Qed.

End MapFacts.

(** * Facts about the order and the number of the clusters *)

Section ScanOrder.
Context {Req : Type}.
Variable rid : Req -> string.
Variable joins : Req -> list Req -> Req -> bool.

(** what one inner scan leaves behind *)
Lemma scan_shape req l : forall c p,
  let out := fold_left (scan_step rid joins req) l (c, p) in
  (c `prefix_of` fst out)
  /\ p ⊆ snd out
  /\ (forall x, x ∈ l -> rid x ∉ snd out ->
      exists c0, (c `prefix_of` c0) /\ (c0 `prefix_of` fst out) /\ joins req c0 x = false)
  /\ (forall x, x ∈ fst out -> x ∈ c \/ (x ∈ l /\ rid x ∉ p)).
Proof.
  induction l as [|a l IH]; intros c p out; subst out; cbn [fold_left].
  { cbn [fst snd]. split; [reflexivity|]. split; [done|]. split; [|by left].
    intros x Hx. by apply elem_of_nil in Hx. }
  assert (scan_step rid joins req (c, p) a
          = if bool_decide (rid a ∈ p) then (c, p)
            else if joins req c a then (c ++ [a], {[rid a]} ∪ p) else (c, p)) as ->
    by reflexivity.
  case_bool_decide as Hin.
  - destruct (IH c p) as (H1 & H2 & H3 & H4).
    split; [done|]. split; [done|]. split.
    + intros x Hx Hout. apply elem_of_cons in Hx as [->|Hx]; [|by apply H3].
      exfalso. apply Hout. by apply H2.
    + intros x Hx. destruct (H4 x Hx) as [?|[? ?]]; [by left|right].
      split; [by right|done].
  - destruct (joins req c a) eqn:Hj.
    + destruct (IH (c ++ [a]) ({[rid a]} ∪ p)) as (H1 & H2 & H3 & H4).
      assert (c `prefix_of` (c ++ [a])) as Hpre by apply prefix_app_r, reflexivity.
      split; [|split; [|split]].
      * by etrans.
      * intros i Hi. apply H2. by apply elem_of_union_r.
      * intros x Hx Hout. apply elem_of_cons in Hx as [->|Hx].
        { exfalso. apply Hout, H2. apply elem_of_union_l. by apply elem_of_singleton. }
        destruct (H3 x Hx Hout) as (c0 & Hc0 & Hc0' & Hrej).
        exists c0. split; [by etrans|done].
      * intros x Hx. destruct (H4 x Hx) as [Hx'|[Hx' Hp]].
        { apply elem_of_app in Hx' as [?|Hx']; [by left|].
          apply list_elem_of_singleton in Hx' as ->. right. split; [by left|done]. }
        right. split; [by right|]. intros Hp'. apply Hp. by apply elem_of_union_r.
    + destruct (IH c p) as (H1 & H2 & H3 & H4).
      split; [done|]. split; [done|]. split.
      * intros x Hx Hout. apply elem_of_cons in Hx as [->|Hx]; [|by apply H3].
        exists c. split; [reflexivity|done].
      * intros x Hx. destruct (H4 x Hx) as [?|[? ?]]; [by left|right].
        split; [by right|done].
Qed.

Lemma seed_step_shape requests p req :
  let out := seed_step rid joins requests p req in
  p ⊆ snd out
  /\ match fst out with
     | None => rid req ∈ p /\ snd out = p
     | Some c =>
         (rid req ∉ p)
         /\ ([req] `prefix_of` c)
         /\ (forall x, x ∈ requests -> rid x ∉ snd out ->
             exists c0, ([req] `prefix_of` c0) /\ (c0 `prefix_of` c) /\ joins req c0 x = false)
         /\ (forall x, x ∈ c -> x = req \/ (x ∈ requests /\ rid x ∉ p))
     end.
Proof.
  unfold seed_step. case_bool_decide as Hin; cbn [fst snd]; [done|].
  pose proof (scan_shape req requests [req] ({[rid req]} ∪ p)) as (H1 & H2 & H3 & H4).
  destruct (fold_left _ requests _) as [c p'] eqn:Hfold. cbn [fst snd] in *.
  split; [|split; [done|split; [done|split; [done|]]]].
  - intros i Hi. apply H2. by apply elem_of_union_r.
  - intros x Hx. destruct (H4 x Hx) as [Hx'|[Hx' Hp]].
    + left. by apply list_elem_of_singleton in Hx'.
    + right. split; [done|]. intros Hp'. apply Hp. by apply elem_of_union_r.
Qed.

(** A request placed in a later cluster was turned down by every earlier
    cluster: when the scan of the earlier cluster came to it, the test
    against the cluster as it then stood failed. *)
Lemma group_requests_first_fit requests i j c1 c2 x :
  (i < j)%nat ->
  group_requests rid joins requests !! i = Some c1 ->
  group_requests rid joins requests !! j = Some c2 ->
  x ∈ c2 ->
  exists s c0, ([s] `prefix_of` c0) /\ (c0 `prefix_of` c1) /\ joins s c0 x = false.
Proof.
  unfold group_requests.
  pose proof (fold_left_invariant
    (fun st : gset string * list (list Req) =>
       (forall c y, c ∈ snd st -> y ∈ requests -> rid y ∉ fst st ->
          exists s c0, ([s] `prefix_of` c0) /\ (c0 `prefix_of` c) /\ joins s c0 y = false)
       /\ (forall c y, c ∈ snd st -> y ∈ c -> y ∈ requests)
       /\ (forall i j c1 c2 y, (i < j)%nat ->
            snd st !! i = Some c1 -> snd st !! j = Some c2 -> y ∈ c2 ->
            exists s c0, ([s] `prefix_of` c0) /\ (c0 `prefix_of` c1) /\ joins s c0 y = false))
    (group_step rid joins requests) requests) as Hinv.
  intros Hij H1 H2 Hx.
  refine (proj2 (proj2 (Hinv _ (∅, []) _)) i j c1 c2 x Hij H1 H2 Hx).
  - clear. intros [p cs] req Hreq (HA & HM & HB).
    pose proof (seed_step_shape requests p req) as [Hsub Hshape].
    unfold group_step.
    destruct (seed_step rid joins requests p req) as [[c|] p']; cbn [fst snd] in *.
    + destruct Hshape as (Hfresh & Hhead & Hrej & Hmem).
      assert (forall y, y ∈ c -> y ∈ requests /\ rid y ∉ p) as Hmem'.
      { intros y Hy. destruct (Hmem y Hy) as [->|[? ?]]; done. }
      split; [|split].
      * intros c' y Hc' Hy Hp'. apply elem_of_app in Hc' as [Hc'|Hc'].
        { apply (HA c' y Hc' Hy). intros Hp. apply Hp'. by apply Hsub. }
        apply list_elem_of_singleton in Hc' as ->.
        destruct (Hrej y Hy Hp') as (c0 & ? & ? & ?). by exists req, c0.
      * intros c' y Hc' Hy. apply elem_of_app in Hc' as [Hc'|Hc']; [by eapply HM|].
        apply list_elem_of_singleton in Hc' as ->. by apply Hmem'.
      * intros i j c1 c2 y Hij H1 H2 Hy.
        destruct (decide (j < length cs)%nat) as [Hj|Hj].
        { rewrite lookup_app_l in H1 by lia. rewrite lookup_app_l in H2 by done.
          exact (HB i j c1 c2 y Hij H1 H2 Hy). }
        assert (j = length cs) as ->.
        { apply lookup_lt_Some in H2. rewrite length_app in H2. simpl in H2. lia. }
        rewrite lookup_app_l in H1 by done.
        rewrite lookup_app_r, Nat.sub_diag in H2 by done. injection H2 as <-.
        destruct (Hmem' y Hy) as [Hy' Hp].
        apply (HA c1 y); [|done|done]. by eapply list_elem_of_lookup_2.
    + destruct Hshape as [_ ->]. exact (conj HA (conj HM HB)).
  - split; [|split].
    + intros c y Hc. by apply elem_of_nil in Hc.
    + intros c y Hc. by apply elem_of_nil in Hc.
    + intros i' j' c1' c2' y _ Hc. cbn [snd] in Hc. by rewrite lookup_nil in Hc.
Qed.

Lemma group_step_eq requests p cs a :
  group_step rid joins requests (p, cs) a
  = match seed_step rid joins requests p a with
    | (None, p') => (p', cs)
    | (Some c, p') => (p', cs ++ [c])
    end.
Proof. reflexivity. Qed.

(** the first requests of the clusters, in the order of the clusters, come
    in the order of the input *)
Lemma group_step_seeds requests l : forall st,
  exists hs,
    omap head (snd (fold_left (group_step rid joins requests) l st))
    = omap head (snd st) ++ hs
    /\ hs `sublist_of` l.
Proof.
  induction l as [|a l IH]; intros [p cs]; cbn [fold_left].
  { exists []. by rewrite app_nil_r. }
  pose proof (seed_step_shape requests p a) as [_ Hshape].
  rewrite group_step_eq.
  destruct (seed_step rid joins requests p a) as [[c|] p']; cbn [fst snd] in *.
  - destruct Hshape as (_ & [k ->] & _).
    destruct (IH (p', cs ++ [[a] ++ k])) as (hs & -> & Hsub). cbn [snd].
    exists (a :: hs). rewrite omap_app. cbn. rewrite <- app_assoc. split; [done|].
    by apply sublist_skip.
  - destruct (IH (p', cs)) as (hs & -> & Hsub). exists hs. split; [done|].
    by apply sublist_cons.
Qed.

Lemma group_requests_seeds requests :
  omap head (group_requests rid joins requests) `sublist_of` requests.
Proof.
  destruct (group_step_seeds requests requests (∅, [])) as (hs & Hhs & Hsub).
  unfold group_requests. by rewrite Hhs.
Qed.

(** each turn of the outer loop adds at most one cluster and removes none *)
Lemma group_step_count requests l : forall st,
  let out := fold_left (group_step rid joins requests) l st in
  (length (snd st) <= length (snd out) <= length (snd st) + length l)%nat.
Proof.
  induction l as [|a l IH]; intros [p cs] out; subst out; cbn [fold_left].
  { simpl. lia. }
  rewrite group_step_eq.
  destruct (seed_step rid joins requests p a) as [[c|] p'].
  - pose proof (IH (p', cs ++ [c])) as H. cbv zeta in H. cbn [snd] in *.
    rewrite length_app in H. cbn [length] in *. lia.
  - pose proof (IH (p', cs)) as H. cbv zeta in H. cbn [snd length] in *. lia.
Qed.

Lemma group_requests_count requests :
  (length (group_requests rid joins requests) <= length requests)%nat
  /\ (group_requests rid joins requests = [] <-> requests = []).
Proof.
  unfold group_requests. split.
  - pose proof (group_step_count requests requests (∅, [])) as H.
    cbv zeta in H. cbn [snd length] in H. lia.
  - split.
    + destruct requests as [|a l] eqn:Hreq; [done|]. rewrite <- Hreq.
      rewrite Hreq at 2. cbn [fold_left]. rewrite group_step_eq. unfold seed_step.
      rewrite bool_decide_eq_false_2 by apply not_elem_of_empty.
      destruct (fold_left (scan_step rid joins a) requests _) as [c p'].
      pose proof (group_step_count requests l (p', [] ++ [c])) as H.
      cbv zeta in H. intros Hnil. rewrite Hnil in H. cbn [snd length app] in H. lia.
    + by intros ->.
Qed.

Lemma group_requests_nonempty requests c :
  c ∈ group_requests rid joins requests ->
  exists s rest, c = s :: rest /\ s ∈ requests.
Proof.
  intros Hc.
  destruct (group_requests_clusters rid joins requests
              (fun req c => ([req] `prefix_of` c))) with (c := c)
    as (s & Hs & [k ->]); [reflexivity| |done|by exists s, k].
  intros req c' x Hpre _ _. by apply prefix_app_r.
Qed.
End ScanOrder.


(** * Facts about the stops of a route *)

Module StopFacts.
Import MapApp.

Lemma Map_set_keys m k v :
  map fst (Map_set m k v)
  = if bool_decide (k ∈ map fst m) then map fst m else map fst m ++ [k].
Proof.
  induction m as [|[k' v'] m IH]; cbn [Map_set map fst].
  { rewrite bool_decide_eq_false_2; [done|]. intros H. by apply elem_of_nil in H. }
  destruct (decide (k' = k)) as [->|Hk].
  - rewrite (bool_decide_eq_true_2 (k = k)) by done. cbn [map fst].
    rewrite bool_decide_eq_true_2; [done|]. by left.
  - rewrite (bool_decide_eq_false_2 (k' = k)) by done. cbn [map fst]. rewrite IH.
    destruct (decide (k ∈ map fst m)) as [Hin|Hin].
    + rewrite !bool_decide_eq_true_2; [done|by right|done].
    + rewrite !bool_decide_eq_false_2; [done| |done].
      intros H. apply elem_of_cons in H as [->|H]; done.
Qed.

Lemma Map_set_fresh m k v : k ∉ map fst m -> Map_set m k v = m ++ [(k, v)].
Proof.
  induction m as [|[k' v'] m IH]; cbn [Map_set map fst app]; intros Hk; [done|].
  rewrite bool_decide_eq_false_2.
  - rewrite IH; [done|]. intros H. apply Hk. by right.
  - intros ->. apply Hk. by left.
Qed.

Lemma Map_set_entries m k v e :
  e ∈ Map_set m k v -> e = (k, v) \/ e ∈ m.
Proof.
  induction m as [|[k' v'] m IH]; cbn [Map_set]; intros He.
  { apply list_elem_of_singleton in He. by left. }
  case_bool_decide as Hk.
  - apply elem_of_cons in He as [->|He]; [left; by rewrite Hk|right; by right].
  - apply elem_of_cons in He as [->|He]; [right; by left|].
    destruct (IH He) as [?|?]; [by left|right; by right].
Qed.

(** what [new Map(...)] holds after the entries of [ls], starting from [m] *)
Lemma fold_Map_set (ls : list Location) : forall m,
  let out := fold_left (fun m e => Map_set m (fst e) (snd e))
                       (map (fun l => (loc_id l, l)) ls) m in
  (NoDup (map fst m) -> NoDup (map fst out))
  /\ (forall k, k ∈ map fst m -> k ∈ map fst out)
  /\ (forall l, l ∈ ls -> loc_id l ∈ map fst out)
  /\ (forall e, e ∈ out -> e ∈ m \/ exists l, l ∈ ls /\ e = (loc_id l, l))
  /\ (NoDup (map fst m ++ map loc_id ls) ->
      out = m ++ map (fun l => (loc_id l, l)) ls).
Proof.
  induction ls as [|a ls IH]; intros m out; subst out; cbn [map fold_left fst snd].
  { split; [done|]. split; [done|]. split; [|split; [by left|]].
    - intros l Hl. by apply elem_of_nil in Hl.
    - intros _. by rewrite app_nil_r. }
  destruct (IH (Map_set m (loc_id a) a)) as (H1 & H2 & H3 & H4 & H5).
  assert (forall k, k ∈ map fst m -> k ∈ map fst (Map_set m (loc_id a) a)) as Hgrow.
  { intros k Hk. rewrite Map_set_keys. case_bool_decide; [done|].
    apply elem_of_app. by left. }
  assert (loc_id a ∈ map fst (Map_set m (loc_id a) a)) as Ha.
  { rewrite Map_set_keys. case_bool_decide; [done|].
    apply elem_of_app. right. by apply list_elem_of_singleton. }
  split; [|split; [|split; [|split]]].
  - intros Hnd. apply H1. rewrite Map_set_keys. case_bool_decide as Hin; [done|].
    apply NoDup_app. split; [done|]. split; [|apply NoDup_singleton].
    intros k Hk Hk'. apply list_elem_of_singleton in Hk' as ->. done.
  - intros k Hk. by apply H2, Hgrow.
  - intros l Hl. apply elem_of_cons in Hl as [->|Hl]; [by apply H2|by apply H3].
  - intros e He. destruct (H4 e He) as [He'|(l & Hl & ->)].
    + apply Map_set_entries in He' as [->|?]; [right|by left].
      exists a. split; [by left|done].
    + right. exists l. split; [by right|done].
  - intros Hnd. apply NoDup_app in Hnd as (Hm & Hdisj & Hls).
    apply NoDup_cons in Hls as [Ha' Hls].
    assert (loc_id a ∉ map fst m) as Hfresh.
    { intros Hin. apply (Hdisj _ Hin). by left. }
    rewrite Map_set_fresh in * by done.
    rewrite H5; [by rewrite <- app_assoc|].
    rewrite map_app. cbn [map fst]. rewrite <- app_assoc. cbn [app].
    apply NoDup_app. split; [done|]. split; [|by apply NoDup_cons].
    intros k Hk Hk'. by apply (Hdisj k Hk).
Qed.

Lemma unique_stops_ids ls :
  map loc_id (unique_stops ls)
  = map fst (new_Map (map (fun l => (loc_id l, l)) ls)).
Proof.
  unfold unique_stops.
  destruct (fold_Map_set ls []) as (_ & _ & _ & H4 & _).
  fold (new_Map (map (fun l => (loc_id l, l)) ls)) in H4.
  induction (new_Map (map (fun l => (loc_id l, l)) ls)) as [|[k v] m IH]; [done|].
  cbn [map fst snd]. f_equal.
  - destruct (H4 (k, v)) as [H|(l & _ & [= -> ->])]; [by left| |done].
    by apply elem_of_nil in H.
  - apply IH. intros e He. apply H4. by right.
Qed.

Lemma unique_stops_spec ls :
  NoDup (map loc_id (unique_stops ls))
  /\ (forall l, l ∈ ls -> loc_id l ∈ map loc_id (unique_stops ls))
  /\ (forall s, s ∈ unique_stops ls -> s ∈ ls)
  /\ (NoDup (map loc_id ls) -> unique_stops ls = ls).
Proof.
  destruct (fold_Map_set ls []) as (H1 & _ & H3 & H4 & H5).
  fold (new_Map (map (fun l => (loc_id l, l)) ls)) in *.
  rewrite unique_stops_ids. split; [|split; [|split]].
  - apply H1. constructor.
  - done.
  - intros s Hs. unfold unique_stops in Hs.
    apply list_elem_of_fmap in Hs as ([k v] & -> & He).
    destruct (H4 _ He) as [H|(l & Hl & [= _ ->])]; [by apply elem_of_nil in H|done].
  - intros Hnd. unfold unique_stops. rewrite H5 by done. cbn [app].
    clear. induction ls as [|a ls IH]; [done|]. cbn [map snd]. by rewrite IH.
Qed.

Lemma unique_stops_nonempty a ls : (1 <= length (unique_stops (a :: ls)))%nat.
Proof.
  destruct (unique_stops_spec (a :: ls)) as (_ & H & _).
  specialize (H a (list_elem_of_here _ _)).
  destruct (unique_stops (a :: ls)); [by apply elem_of_nil in H|simpl; lia].
Qed.

Lemma unique_stops_length ls : (length (unique_stops ls) <= length ls)%nat.
Proof.
  destruct (unique_stops_spec ls) as (Hnd & _ & Hsub & _).
  apply NoDup_fmap_1 in Hnd.
  rewrite <- (length_map loc_id (unique_stops ls)), <- (length_map loc_id ls).
  apply submseteq_length, NoDup_submseteq.
  - destruct (unique_stops_spec ls) as (Hnd' & _). exact Hnd'.
  - intros k Hk. apply list_elem_of_fmap in Hk as (s & -> & Hs).
    apply list_elem_of_fmap. exists s. split; [done|]. by apply Hsub.
Qed.

Lemma stops_of_length cluster :
  cluster <> [] ->
  (2 <= length (stops_of cluster) <= 2 * length cluster)%nat.
Proof.
  intros Hc. unfold stops_of. rewrite length_app.
  pose proof (unique_stops_length (map Request.pickup cluster)) as H1.
  pose proof (unique_stops_length (map Request.destination cluster)) as H2.
  rewrite length_map in H1, H2.
  destruct cluster as [|r c]; [done|]. cbn [map].
  pose proof (unique_stops_nonempty (Request.pickup r) (map Request.pickup c)).
  pose proof (unique_stops_nonempty (Request.destination r) (map Request.destination c)).
  cbn [map length] in *. lia.
Qed.
End StopFacts.


(** * Further facts about distances *)

Module GeoMore.
Import MapApp GeoFacts.
#[local] Open Scope R_scope.

Lemma hav_sym lat1 lng1 lat2 lng2 : hav lat1 lng1 lat2 lng2 = hav lat2 lng2 lat1 lng1.
Proof.
  unfold hav.
  replace ((lat1 - lat2) * PI / 180 / 2) with (- ((lat2 - lat1) * PI / 180 / 2))
    by (unfold Rdiv; ring).
  replace ((lng1 - lng2) * PI / 180 / 2) with (- ((lng2 - lng1) * PI / 180 / 2))
    by (unfold Rdiv; ring).
  rewrite !sin_neg. ring.
Qed.

Lemma getDistance_sym lat1 lng1 lat2 lng2 :
  getDistance lat1 lng1 lat2 lng2 = getDistance lat2 lng2 lat1 lng1.
Proof. by rewrite !getDistance_hav, hav_sym. Qed.

(** two points half the equator apart *)
Lemma getDistance_antipodes : getDistance 0 0 0 180 = 6371 * PI.
Proof.
  rewrite getDistance_hav. unfold hav.
  replace ((0 - 0) * PI / 180 / 2) with 0 by (unfold Rdiv; ring).
  replace ((180 - 0) * PI / 180 / 2) with (PI / 2) by field.
  replace (0 * PI / 180) with 0 by (unfold Rdiv; ring).
  rewrite sin_0, sin_PI2, cos_0.
  replace (0 ^ 2 + 1 * 1 * 1 ^ 2) with 1 by ring.
  rewrite Rminus_diag, sqrt_1, sqrt_0. unfold Math_atan2.
  rewrite (bool_decide_eq_false_2 (0 < 0)) by lra.
  rewrite (bool_decide_eq_true_2 (0 < 1)) by lra. field.
Qed.
End GeoMore.


(** * Bounds on the distances of the catalogue *)

Module GeoBounds.
Import MapApp GeoFacts GeoMore Grid.
#[local] Open Scope R_scope.

Lemma sin_le_x x : 0 <= x -> sin x <= x.
Proof.
  intros [H| <-]; [left; by apply sin_lt_x|]. rewrite sin_0. lra.
Qed.

(** [x - x^3/6 <= sin x] on [[0, PI]] *)
Lemma sin_cubic x : 0 <= x <= PI -> x - x ^ 3 / 6 <= sin x.
Proof.
  intros [H0 H1]. destruct (sin_bound x 0 H0 H1) as [H _].
  unfold sin_approx, sin_term in H. cbn in H. lra.
Qed.

Lemma sin_lower x : 0 <= x <= 1 -> 5 / 6 * x <= sin x.
Proof.
  intros [H0 H1]. pose proof PI2_1.
  pose proof (sin_cubic x ltac:(lra)).
  assert (x ^ 3 <= x) by nra. lra.
Qed.

(** [1 - x^2/2 <= cos x] on [[-PI/2, PI/2]] *)
Lemma cos_quadratic x : - PI / 2 <= x <= PI / 2 -> 1 - x ^ 2 / 2 <= cos x.
Proof.
  intros [H0 H1]. destruct (cos_bound x 0 H0 H1) as [H _].
  unfold cos_approx, cos_term in H. cbn in H. lra.
Qed.

Lemma Math_atan2_right y x : 0 < x -> Math_atan2 y x = atan (y / x).
Proof. intros H. unfold Math_atan2. by rewrite bool_decide_eq_true_2. Qed.

(** the angle whose sine is [sqrt a] *)
Lemma sin_atan2_sqrt a :
  0 <= a < 1 -> sin (Math_atan2 (sqrt a) (sqrt (1 - a))) = sqrt a.
Proof.
  intros [H0 H1].
  assert (0 < sqrt (1 - a)) as Hs by (apply sqrt_lt_R0; lra).
  rewrite Math_atan2_right by done. rewrite sin_atan.
  assert (1 + (sqrt a / sqrt (1 - a))² = (/ sqrt (1 - a))²) as ->.
  { unfold Rsqr. field_simplify; [|lra|lra].
    replace (sqrt a ^ 2) with a by (simpl; rewrite Rmult_1_r, sqrt_sqrt; lra).
    replace (sqrt (1 - a) ^ 2) with (1 - a) by (simpl; rewrite Rmult_1_r, sqrt_sqrt; lra).
    field. lra. }
  rewrite sqrt_Rsqr; [|left; by apply Rinv_0_lt_compat].
  field. lra.
Qed.

Lemma Math_atan2_sqrt_range a :
  0 <= a < 1 -> 0 <= Math_atan2 (sqrt a) (sqrt (1 - a)) < PI / 2.
Proof.
  intros [H0 H1].
  assert (0 < sqrt (1 - a)) as Hs by (apply sqrt_lt_R0; lra).
  split; [apply Math_atan2_nonneg; [apply sqrt_pos|lra]|].
  rewrite Math_atan2_right by done. apply atan_bound.
Qed.

Lemma Math_atan2_sqrt_lower a :
  0 <= a < 1 -> sqrt a <= Math_atan2 (sqrt a) (sqrt (1 - a)).
Proof.
  intros Ha. rewrite <- (sin_atan2_sqrt a Ha) at 1.
  apply sin_le_x. by apply Math_atan2_sqrt_range.
Qed.

Lemma Math_atan2_sqrt_upper a :
  0 <= a <= / 2 -> Math_atan2 (sqrt a) (sqrt (1 - a)) <= 6 / 5 * sqrt a.
Proof.
  intros [H0 H1].
  assert (0 < sqrt (1 - a)) as Hs by (apply sqrt_lt_R0; lra).
  pose proof (Math_atan2_sqrt_range a ltac:(lra)) as [Hz0 _].
  assert (Math_atan2 (sqrt a) (sqrt (1 - a)) <= 1) as Hz1.
  { rewrite Math_atan2_right by done.
    assert (sqrt a / sqrt (1 - a) <= 1) as Hy.
    { apply (Rmult_le_reg_r (sqrt (1 - a))); [done|].
      unfold Rdiv. rewrite Rmult_assoc, Rinv_l by lra.
      rewrite Rmult_1_r, Rmult_1_l. apply sqrt_le_1_alt. lra. }
    pose proof PI_4. destruct Hy as [Hy|Hy].
    - pose proof (atan_increasing _ _ Hy). rewrite atan_1 in *. lra.
    - rewrite Hy, atan_1. lra. }
  pose proof (sin_lower _ (conj Hz0 Hz1)) as H.
  rewrite (sin_atan2_sqrt a) in H by lra. lra.
Qed.

Lemma sin_sqr_bounds x :
  -1 <= x <= 1 -> (5 / 6 * x) ^ 2 <= (sin x) ^ 2 <= x ^ 2.
Proof.
  intros [H0 H1]. pose proof PI2_1.
  assert (forall y, 0 <= y <= 1 -> (5 / 6 * y) ^ 2 <= (sin y) ^ 2 <= y ^ 2) as Hpos.
  { intros y [Hy0 Hy1].
    pose proof (sin_lower y (conj Hy0 Hy1)). pose proof (sin_le_x y Hy0).
    split.
    - apply pow_incr. lra.
    - apply pow_incr. lra. }
  destruct (Rle_dec 0 x) as [Hx|Hx]; [apply Hpos; lra|].
  specialize (Hpos (- x) ltac:(lra)). rewrite sin_neg in Hpos.
  replace ((5 / 6 * x) ^ 2) with ((5 / 6 * - x) ^ 2) by ring.
  replace (sin x ^ 2) with ((- sin x) ^ 2) by ring.
  replace (x ^ 2) with ((- x) ^ 2) by ring. done.
Qed.

Lemma cos_box la : 34 <= la <= 36 -> 68 / 100 <= cos (la * PI / 180) <= 1.
Proof.
  intros [H0 H1]. pose proof PI2_1. pose proof PI_4.
  assert (0 <= la * PI / 180 <= 8 / 10) as [Hx0 Hx1] by (split; nra).
  pose proof (cos_quadratic (la * PI / 180) ltac:(lra)) as Hc.
  pose proof (COS_bound (la * PI / 180)) as [_ Hub].
  split; [|done]. nra.
Qed.

Lemma hav_box lat1 lng1 lat2 lng2 :
  in_box lat1 lng1 -> in_box lat2 lng2 ->
  let x := (lat2 - lat1) * PI / 180 / 2 in
  let y := (lng2 - lng1) * PI / 180 / 2 in
  hav lat1 lng1 lat2 lng2 <= 2 / 1000
  /\ (5 / 6 * x) ^ 2 <= hav lat1 lng1 lat2 lng2
  /\ (68 / 100 * (5 / 6 * y)) ^ 2 <= hav lat1 lng1 lat2 lng2.
Proof.
  intros [Ha1 Ho1] [Ha2 Ho2] x y. pose proof PI2_1. pose proof PI_4.
  assert (- (223 / 10000) <= x <= 223 / 10000) as Hx by (unfold x; split; nra).
  assert (- (334 / 10000) <= y <= 334 / 10000) as Hy by (unfold y; split; nra).
  pose proof (sin_sqr_bounds x ltac:(lra)) as [Hx1 Hx2].
  pose proof (sin_sqr_bounds y ltac:(lra)) as [Hy1 Hy2].
  pose proof (cos_box lat1 Ha1) as [Hc1 Hc1'].
  pose proof (cos_box lat2 Ha2) as [Hc2 Hc2'].
  unfold hav. fold x y.
  set (sx := sin x ^ 2) in *. set (sy := sin y ^ 2) in *.
  set (c1 := cos (lat1 * PI / 180)) in *. set (c2 := cos (lat2 * PI / 180)) in *.
  assert (0 <= sx) by (unfold sx; apply pow2_ge_0).
  assert (0 <= sy) by (unfold sy; apply pow2_ge_0).
  assert (x ^ 2 <= 5 / 10000) by nra.
  assert (y ^ 2 <= 112 / 100000) by nra.
  assert (68 / 100 * (68 / 100) <= c1 * c2 <= 1) as [Hcc Hcc'] by (split; nra).
  split; [|split].
  - assert (c1 * c2 * sy <= sy) by nra. lra.
  - assert (0 <= c1 * c2 * sy) by nra. lra.
  - replace ((68 / 100 * (5 / 6 * y)) ^ 2)
      with (68 / 100 * (68 / 100) * (5 / 6 * y) ^ 2) by ring.
    assert (68 / 100 * (68 / 100) * (5 / 6 * y) ^ 2 <= c1 * c2 * sy); [|lra].
    assert (0 <= (5 / 6 * y) ^ 2) by apply pow2_ge_0.
    apply Rmult_le_compat; lra.
Qed.

Lemma sqrt_lower c a : 0 <= c -> c ^ 2 <= a -> c <= sqrt a.
Proof.
  intros Hc Ha. rewrite <- (sqrt_pow2 c Hc). by apply sqrt_le_1_alt.
Qed.

(** distances inside the box that holds the catalogue *)
Lemma getDistance_box lat1 lng1 lat2 lng2 :
  in_box lat1 lng1 -> in_box lat2 lng2 ->
  0 <= hav lat1 lng1 lat2 lng2 <= 2 / 1000
  /\ 0 <= getDistance lat1 lng1 lat2 lng2 <= 700
  /\ (3 / 1000 <= Rabs (lat2 - lat1) \/ 3 / 1000 <= Rabs (lng2 - lng1) ->
      1 / 10 <= getDistance lat1 lng1 lat2 lng2).
Proof.
  intros B1 B2. pose proof PI2_1. pose proof PI_4.
  destruct (hav_box lat1 lng1 lat2 lng2 B1 B2) as (Hup & Hlat & Hlng).
  cbv zeta in Hlat, Hlng.
  assert (0 <= hav lat1 lng1 lat2 lng2) as Ha0.
  { apply hav_nonneg; destruct B1 as [? _], B2 as [? _]; lra. }
  set (a := hav lat1 lng1 lat2 lng2) in *.
  rewrite getDistance_hav. fold a.
  pose proof (Math_atan2_sqrt_lower a ltac:(lra)) as Hlo.
  pose proof (Math_atan2_sqrt_upper a ltac:(lra)) as Hhi.
  pose proof (sqrt_pos a) as Hs0.
  assert (sqrt a <= 45 / 1000) as Hs1.
  { rewrite <- (sqrt_pow2 (45 / 1000)) by lra. apply sqrt_le_1_alt. lra. }
  split; [done|]. split; [lra|].
  intros [Hgap|Hgap].
  - assert (138 / 10000000 <= sqrt a); [|lra].
    apply sqrt_lower; [lra|].
    apply Rle_trans with (2 := Hlat).
    replace ((5 / 6 * ((lat2 - lat1) * PI / 180 / 2)) ^ 2)
      with ((5 / 6 * (PI / 360)) ^ 2 * (lat2 - lat1) ^ 2) by field.
    assert ((3 / 1000) ^ 2 <= (lat2 - lat1) ^ 2) as Hsq.
    { rewrite <- (pow2_abs (lat2 - lat1)). apply pow_incr. lra. }
    assert ((5 / 6 * (2 / 360)) ^ 2 <= (5 / 6 * (PI / 360)) ^ 2) as Hk
      by (apply pow_incr; lra).
    assert (0 <= (5 / 6 * (2 / 360)) ^ 2) by apply pow2_ge_0.
    assert (0 <= (3 / 1000) ^ 2) by apply pow2_ge_0.
    apply Rle_trans with ((5 / 6 * (2 / 360)) ^ 2 * (3 / 1000) ^ 2); [lra|].
    apply Rmult_le_compat; lra.
  - assert (94 / 10000000 <= sqrt a); [|lra].
    apply sqrt_lower; [lra|].
    apply Rle_trans with (2 := Hlng).
    replace ((68 / 100 * (5 / 6 * ((lng2 - lng1) * PI / 180 / 2))) ^ 2)
      with ((68 / 100 * (5 / 6) * (PI / 360)) ^ 2 * (lng2 - lng1) ^ 2) by field.
    assert ((3 / 1000) ^ 2 <= (lng2 - lng1) ^ 2) as Hsq.
    { rewrite <- (pow2_abs (lng2 - lng1)). apply pow_incr. lra. }
    assert ((68 / 100 * (5 / 6) * (2 / 360)) ^ 2 <= (68 / 100 * (5 / 6) * (PI / 360)) ^ 2)
      as Hk by (apply pow_incr; lra).
    assert (0 <= (68 / 100 * (5 / 6) * (2 / 360)) ^ 2) by apply pow2_ge_0.
    assert (0 <= (3 / 1000) ^ 2) by apply pow2_ge_0.
    apply Rle_trans with ((68 / 100 * (5 / 6) * (2 / 360)) ^ 2 * (3 / 1000) ^ 2); [lra|].
    apply Rmult_le_compat; lra.
Qed.

End GeoBounds.

Module GridFacts.
Import MapApp GeoFacts GeoMore GeoBounds Grid.

Lemma LOCATIONS_on_grid : Forall2 on_grid LOCATIONS LOCATIONS_grid.
Proof.
  unfold LOCATIONS, LOCATIONS_grid.
  repeat (constructor; [split; cbn; lra|]). constructor.
Qed.

Lemma grid_checked :
  forallb (fun p => in_grid_box p && forallb (apart p) LOCATIONS_grid) LOCATIONS_grid = true.
Proof. vm_compute. reflexivity. Qed.

Lemma grid_point s :
  s ∈ LOCATIONS -> exists p, In p LOCATIONS_grid /\ on_grid s p.
Proof.
  intros Hs. apply list_elem_of_lookup_1 in Hs as [i Hi].
  destruct (Forall2_lookup_l _ _ _ _ _ LOCATIONS_on_grid Hi) as (p & Hp & Hon).
  exists p. split; [|done].
  apply list_elem_of_lookup_2 in Hp. by apply list_elem_of_In.
Qed.

Lemma on_grid_box s p : on_grid s p -> in_grid_box p = true -> in_box (lat s) (lng s).
Proof.
  intros [Hla Hlo] Hbox. unfold in_grid_box in Hbox.
  apply andb_prop in Hbox as [Hbox H4]. apply andb_prop in Hbox as [Hbox H3].
  apply andb_prop in Hbox as [H1 H2].
  apply Z.leb_le, IZR_le in H1, H2, H3, H4.
  unfold in_box. rewrite Hla, Hlo. lra.
Qed.

Lemma LOCATIONS_in_box : Forall (fun l => in_box (lat l) (lng l)) LOCATIONS.
Proof.
  apply Forall_forall. intros s Hs.
  destruct (grid_point s Hs) as (p & Hp & Hon).
  pose proof grid_checked as Hall. rewrite forallb_forall in Hall.
  specialize (Hall p Hp). apply andb_prop in Hall as [Hbox _].
  by apply (on_grid_box s p).
Qed.

(** two catalogue locations are at the same coordinates or at least
    100 m apart *)
Lemma catalogue_apart s t :
  s ∈ LOCATIONS -> t ∈ LOCATIONS ->
  coincident s t
  \/ (1 / 10 <= getDistance (lat s) (lng s) (lat t) (lng t))%R.
Proof.
  intros Hs Ht.
  destruct (grid_point s Hs) as (p & Hp & Hps).
  destruct (grid_point t Ht) as (q & Hq & Hqt).
  pose proof grid_checked as Hall. rewrite forallb_forall in Hall.
  pose proof (Hall q Hq) as Hqbox. apply andb_prop in Hqbox as [Hqbox _].
  specialize (Hall p Hp). apply andb_prop in Hall as [Hpbox Hpq].
  rewrite forallb_forall in Hpq. specialize (Hpq q Hq).
  pose proof (on_grid_box s p Hps Hpbox) as Bs.
  pose proof (on_grid_box t q Hqt Hqbox) as Bt.
  destruct Hps as [Hsa Hso], Hqt as [Hta Hto].
  unfold apart in Hpq.
  apply orb_prop in Hpq as [Hpq|Hlo]; [apply orb_prop in Hpq as [Heq|Hla]|].
  - left. apply bool_decide_eq_true_1 in Heq. subst q. split; congruence.
  - right. apply (getDistance_box _ _ _ _ Bs Bt). left.
    apply Z.leb_le in Hla. rewrite Hsa, Hta.
    replace (IZR (fst q) / 10000 - IZR (fst p) / 10000)%R
      with (IZR (fst q - fst p) / 10000)%R by (rewrite minus_IZR; lra).
    unfold Rdiv. rewrite Rabs_mult, Rabs_inv, (Rabs_pos_eq 10000) by lra.
    rewrite <- abs_IZR. apply IZR_le in Hla. lra.
  - right. apply (getDistance_box _ _ _ _ Bs Bt). right.
    apply Z.leb_le in Hlo. rewrite Hso, Hto.
    replace (IZR (snd q) / 10000 - IZR (snd p) / 10000)%R
      with (IZR (snd q - snd p) / 10000)%R by (rewrite minus_IZR; lra).
    unfold Rdiv. rewrite Rabs_mult, Rabs_inv, (Rabs_pos_eq 10000) by lra.
    rewrite <- abs_IZR. apply IZR_le in Hlo. lra.
Qed.

End GridFacts.


(** * Facts about the answers of the routing service *)

Module PayloadFacts.
Import MapApp GeoFacts GridFacts NumFacts.
#[local] Open Scope R_scope.

(** [MapApp.fetchRoute] is [Payload.fetchRoute] on the bodies of [Osrm] *)
Lemma fetchRoute_of_osrm answer stops :
  Payload.fetchRoute (Payload.of_osrm answer) stops
  = (fun rd => {| Payload.RouteData.geometry := Some (RouteData.geometry rd);
                  Payload.RouteData.distance := Some (RouteData.distance rd);
                  Payload.RouteData.duration := Some (RouteData.duration rd) |})
    <$> fetchRoute answer stops.
Proof.
  unfold Payload.fetchRoute, fetchRoute.
  destruct (length stops <? 2)%nat; [done|].
  destruct answer as [|code [|r0 rs]]; cbn; [done| |].
  - by case_bool_decide.
  - case_bool_decide; [|done]. by destruct (Osrm.geometry r0).
Qed.

Lemma build_route_of_osrm env k cluster :
  Payload.build_route (route_draw env) (fun stops => Payload.of_osrm (network env stops))
                      k cluster
  = Payload.of_route (build_route env k cluster).
Proof.
  unfold Payload.build_route, build_route, Payload.of_route.
  rewrite fetchRoute_of_osrm.
  by destruct (fetchRoute (network env (stops_of cluster)) (stops_of cluster)).
Qed.

Lemma fetchRoute_none answer stops :
  (2 <= length stops)%nat ->
  Payload.fetchRoute answer stops = None
  <-> answer = Payload.failure
      \/ exists code routes,
           answer = Payload.json code routes
           /\ (code <> "Ok" \/ routes = []
               \/ exists r0 rs, routes = r0 :: rs
                    /\ Payload.geometry_of r0 = Payload.no_geometry).
Proof.
  intros Hlen. unfold Payload.fetchRoute.
  destruct (length stops <? 2)%nat eqn:E; [apply Nat.ltb_lt in E; lia|].
  destruct answer as [|code routes]; [by split; [left|]|].
  split.
  - intros H. right. exists code, routes. split; [done|].
    case_bool_decide; [|by left]. right.
    destruct routes as [|r0 rs]; [by left|]. right. exists r0, rs. split; [done|].
    by destruct (Payload.geometry_of r0).
  - intros [|(code' & routes' & [= <- <-] & H)]; [done|].
    case_bool_decide as Hok; [|done].
    destruct H as [H|[->|(r0 & rs & -> & ->)]]; done.
Qed.

Lemma segment_sum_catalogue stops :
  Forall (fun s => s ∈ LOCATIONS) stops ->
  0 <= segment_sum stops
  /\ ((exists s t, s ∈ stops /\ t ∈ stops /\ ~ coincident s t) ->
      1 / 10 <= segment_sum stops).
Proof.
  pose proof LOCATIONS_in_box as Hbox. rewrite Forall_forall in Hbox.
  induction stops as [|a [|b rest] IH]; intros Hin.
  - split; [simpl; lra|]. intros (s & t & Hs & _). by apply elem_of_nil in Hs.
  - split; [simpl; lra|]. intros (s & t & Hs & Ht & Hst).
    apply list_elem_of_singleton in Hs as ->. apply list_elem_of_singleton in Ht as ->.
    exfalso. by apply Hst.
  - apply Forall_cons in Hin as [Ha Hin]. pose proof Hin as Hin'.
    apply Forall_cons in Hin' as [Hb _].
    destruct (IH Hin) as [Hrest Hfar].
    destruct (GeoBounds.getDistance_box _ _ _ _ (Hbox a Ha) (Hbox b Hb)) as (_ & [Hd _] & _).
    change (segment_sum (a :: b :: rest))
      with (getDistance (lat a) (lng a) (lat b) (lng b) + segment_sum (b :: rest)).
    split; [lra|].
    intros (s & t & Hs & Ht & Hst).
    destruct (catalogue_apart a b Ha Hb) as [Hab|Hab]; [|lra].
    assert (1 / 10 <= segment_sum (b :: rest)); [|lra].
    apply Hfar.
    assert (forall x, x ∈ a :: b :: rest ->
              exists y, y ∈ b :: rest /\ coincident x y) as Hmove.
    { intros x Hx. apply elem_of_cons in Hx as [->|Hx]; [exists b|exists x].
      - split; [by left|done].
      - split; [done|]. by split. }
    destruct (Hmove s Hs) as (s' & Hs' & [Es1 Es2]).
    destruct (Hmove t Ht) as (t' & Ht' & [Et1 Et2]).
    exists s', t'. split; [done|]. split; [done|].
    intros [E1 E2]. apply Hst. split; congruence.
Qed.

Lemma toFixed1_tenth x : 1 / 10 <= x -> 1 / 10 <= toFixed1 x.
Proof.
  intros Hx. unfold toFixed1. rewrite bool_decide_eq_false_2 by lra.
  assert (1 <= Zfloor (x * 10 + / 2))%Z as Hz by (apply Zfloor_lub; simpl; lra).
  apply IZR_le in Hz. lra.
Qed.

End PayloadFacts.


(** * Facts about the states of the map-based application *)

Module StateFacts.
Import MapApp MapState NumFacts MapFacts.


Lemma sum_co2_nonneg (rs : list Route.t) (z : R) :
  Forall (fun r => 0 <= Route.co2 r)%R rs ->
  (z <= fold_left (fun sum r => sum + Route.co2 r) rs z)%R.
Proof.
  revert z. induction rs as [|r rs IH]; intros z Hrs; cbn [fold_left]; [lra|].
  apply Forall_cons in Hrs as [Hr Hrs].
  pose proof (IH (z + Route.co2 r)%R Hrs). lra.
Qed.

Lemma built_routes_co2 env (cs : list (list Request.t)) :
  Forall (fun r => 0 <= Route.co2 r)%R (imap (build_route env) cs).
Proof.
  apply Forall_forall. intros r Hr.
  apply elem_of_lookup_imap in Hr as (k & c & -> & _).
  apply build_route_co2_nonneg.
Qed.

Lemma co2_sum_nonneg env cs : (0 <= co2_sum (imap (build_route env) cs))%R.
Proof. apply sum_co2_nonneg, built_routes_co2. Qed.

Lemma consistent_co2_nonneg st : consistent st -> (0 <= Stats.co2 (State.stats st))%R.
Proof.
  intros (_ & _ & _ & [env Hroutes] & Hsum & _).
  rewrite Hroutes in Hsum. pose proof (co2_sum_nonneg env (clusters_of (State.requests st))).
  lra.
Qed.

Lemma clusters_of_nil_iff rs : clusters_of rs = [] <-> rs = [].
Proof. apply group_requests_count. Qed.

Lemma handle_consistent e st : consistent st -> consistent (handle e st).
Proof.
  intros Hst.
  pose proof (consistent_co2_nonneg st Hst) as Hco2.
  destruct Hst as (Hwf & Hreqs & Htotal & Hroutes & Hsum & Hnone).
  pose proof (handle_well_formed e st Hwf) as Hwf'.
  split; [done|]. clear Hwf'.
  destruct e as [l| | |env| |]; cbn [handle].
  - unfold marker_click. destruct (State.pickup st); [|done].
    destruct (State.destination st); case_bool_decide; done.
  - done.
  - done.
  - unfold submitRequest.
    destruct (State.pickup st) as [p|] eqn:Hp; [|done].
    destruct (State.destination st) as [d|] eqn:Hd; [|done].
    cbn [State.requests State.routes State.stats Stats.total Stats.co2].
    split; [|split; [|split; [|split]]].
    + apply Forall_app. split; [done|]. apply Forall_singleton.
      destruct Hwf as (Hn & _ & Hne). split; [done|].
      cbn [new_request Request.pickup Request.destination]. intros Heq.
      by apply (Hne p d Hp Hd).
    + rewrite length_app, Htotal. cbn [length]. lia.
    + by exists env.
    + fold (co2_sum (imap (build_route env)
              (clusters_of (State.requests st
                            ++ [new_request env p d (State.passengers st)])))).
      lra.
    + intros Hnil. exfalso.
      apply (f_equal length) in Hnil. rewrite length_imap in Hnil.
      apply length_zero_iff_nil, clusters_of_nil_iff in Hnil.
      by destruct (State.requests st).
  - done.
  - cbn. split; [done|]. split; [done|]. split; [by exists offline|].
    split; [unfold co2_sum; cbn; lra|done].
Qed.

Lemma start_consistent : consistent start.
Proof.
  split; [apply initial_well_formed|]. cbn.
  split; [done|]. split; [done|]. split; [by exists offline|].
  split; [unfold co2_sum; cbn; lra|done].
Qed.

Lemma run_consistent es : forall st, consistent st -> consistent (run es st).
Proof.
  induction es as [|e es IH]; intros st H; cbn [run fold_left]; [done|].
  by apply IH, handle_consistent.
Qed.

(** a pickup, once chosen, stays; the destination is the marker clicked
    last among those that are not the pickup *)
Lemma marker_clicks_selected p ls : forall st,
  State.pickup st = Some p ->
  let st' := run (map MarkerClick ls) st in
  State.pickup st' = Some p
  /\ State.destination st'
     = match last (filter (fun l => loc_id l ≠ loc_id p) ls) with
       | Some l => Some l
       | None => State.destination st
       end
  /\ State.passengers st' = State.passengers st
  /\ State.routes st' = State.routes st
  /\ State.requests st' = State.requests st
  /\ State.stats st' = State.stats st.
Proof.
  induction ls as [|l ls IH]; intros st Hp st'; subst st'; [done|].
  change (run (map MarkerClick (l :: ls)) st)
    with (run (map MarkerClick ls) (marker_click l st)).
  assert (marker_click l st
          = if bool_decide (loc_id l ≠ loc_id p) then setDestination l st else st) as ->.
  { unfold marker_click. rewrite Hp. by destruct (State.destination st). }
  rewrite filter_cons. case_bool_decide as Hl.
  - rewrite decide_True by exact Hl.
    destruct (IH (setDestination l st) Hp) as (H1 & H2 & H3 & H4 & H5 & H6).
    split; [done|]. split; [|by rewrite H3, H4, H5, H6].
    rewrite H2. rewrite last_cons.
    destruct (last _); reflexivity.
  - rewrite decide_False by (by intros []). by apply IH.
Qed.

Lemma toFixed1_close x : (Rabs (toFixed1 x - x) <= / 20)%R.
Proof.
  unfold toFixed1. case_bool_decide as Hx.
  - pose proof (Zfloor_bound (- x * 10 + / 2)). apply Rabs_le. lra.
  - pose proof (Zfloor_bound (x * 10 + / 2)). apply Rabs_le. lra.
Qed.

Lemma Math_round_close x : (Rabs (IZR (Math_round x) - x) <= / 2)%R.
Proof.
  unfold Math_round. pose proof (Zfloor_bound (x + / 2)). apply Rabs_le. lra.
Qed.
End StateFacts.


(** * Facts about the submission split at its [await] *)

Module AsyncFacts.
Import MapApp MapState MapFacts StateFacts.







End AsyncFacts.


(** * Facts about what is drawn *)

Module ViewFacts.
Import MapApp MapState MapView NumFacts MapFacts StopFacts StateFacts.

Lemma fetchRoute_usable answer cluster :
  cluster <> [] ->
  fetchRoute answer (stops_of cluster)
  = match answer with
    | Osrm.json code (r0 :: _) =>
        if bool_decide (code = "Ok")
        then match Osrm.geometry r0 with
             | Some coordinates =>
                 Some {| RouteData.geometry := coordinates;
                         RouteData.distance := (Osrm.distance r0 / 1000)%R;
                         RouteData.duration := (Osrm.duration r0 / 60)%R |}
             | None => None
             end
        else None
    | _ => None
    end.
Proof.
  intros Hne. unfold fetchRoute.
  pose proof (stops_of_length cluster Hne) as [Hlen _].
  destruct (length (stops_of cluster) <? 2)%nat eqn:Hguard.
  { apply Nat.ltb_lt in Hguard. lia. }
  destruct answer as [|code [|r0 rs]]; try done.
  by case_bool_decide.
Qed.

Lemma draw_route_no_geometry r : Route.geometry r = None -> draw_route r = [].
Proof. unfold draw_route. by intros ->. Qed.

Lemma draw_nothing rs : Forall (fun r => Route.geometry r = None) rs -> draw rs = [].
Proof.
  unfold draw. induction 1 as [|r rs Hr _ IH]; [done|].
  cbn [map concat]. by rewrite (draw_route_no_geometry r Hr), IH.
Qed.

Lemma draw_route_length r g :
  Route.geometry r = Some g -> (2 <= length g)%nat ->
  length (draw_route r) = (2 + length (Route.stops r))%nat.
Proof.
  intros Hg Hlen. unfold draw_route. rewrite Hg.
  destruct (length g <? 2)%nat eqn:Hguard.
  { apply Nat.ltb_lt in Hguard. lia. }
  rewrite !length_app, length_imap. cbn [length]. lia.
Qed.

Lemma fold_Rplus_shift (l : list R) (z : R) :
  (fold_left Rplus l z = z + fold_left Rplus l 0)%R.
Proof.
  revert z. induction l as [|x l IH]; intros z; cbn [fold_left]; [lra|].
  rewrite (IH (z + x)%R), (IH (0 + x)%R). lra.
Qed.

Lemma fold_Rplus_nonneg (l : list R) :
  Forall (fun len => 0 < len)%R l -> (0 <= fold_left Rplus l 0)%R.
Proof.
  induction 1 as [|x l Hx _ IH]; cbn [fold_left]; [lra|].
  rewrite fold_Rplus_shift. lra.
Qed.

Lemma segmentLengths_length distance latLngs :
  length (segmentLengths distance latLngs) = (length latLngs - 1)%nat.
Proof.
  induction latLngs as [|a [|b rest] IH]; [done..|].
  change (segmentLengths distance (a :: b :: rest))
    with (distance a b :: segmentLengths distance (b :: rest)).
  cbn [length] in *. lia.
Qed.

Lemma ratio_range (x len : R) :
  (0 < len -> 0 <= x <= len -> 0 <= x / len <= 1)%R.
Proof.
  intros Hlen [Hlo Hhi]. split.
  - unfold Rdiv. apply Rmult_le_pos; [lra|]. left. by apply Rinv_0_lt_compat.
  - apply (Rmult_le_reg_r len); [lra|].
    unfold Rdiv. rewrite Rmult_assoc, Rinv_l by lra. lra.
Qed.

(** the inner loop finds the point at arc length [targetDist] *)
Lemma locate_arc lengths : forall latLngs accumulated targetDist,
  lengths <> [] ->
  length latLngs = S (length lengths) ->
  Forall (fun len => 0 < len)%R lengths ->
  (accumulated <= targetDist <= accumulated + fold_left Rplus lengths 0)%R ->
  exists p, locate lengths latLngs accumulated targetDist = move_to p
    /\ at_arc_length lengths latLngs (targetDist - accumulated) p.
Proof.
  induction lengths as [|len lengths IH]; intros latLngs acc t Hne Hlen Hpos Ht; [done|].
  destruct latLngs as [|a [|b rest]]; [done|cbn in Hlen; lia|].
  apply Forall_cons in Hpos as [Hl Hpos].
  cbn [fold_left] in Ht. rewrite fold_Rplus_shift in Ht.
  change (locate (len :: lengths) (a :: b :: rest) acc t)
    with (if bool_decide (acc + len >= t)%R
          then if bool_decide (len = 0%R) then move_undefined
               else move_to (between a b ((t - acc) / len))
          else locate lengths (b :: rest) (acc + len) t).
  case_bool_decide as Hhere.
  - rewrite bool_decide_eq_false_2 by lra.
    eexists. split; [reflexivity|].
    exists 0%nat, len, a, b, ((t - acc) / len)%R.
    split; [done|]. split; [done|]. split; [done|].
    split; [apply ratio_range; lra|].
    split; [done|].
    cbn [take fold_left]. field. lra.
  - assert (lengths <> []) as Hne'.
    { intros ->. cbn [fold_left] in Ht. lra. }
    destruct (IH (b :: rest) (acc + len)%R t Hne') as (p & Hp & Harc).
    + cbn [length] in *. lia.
    + done.
    + lra.
    + exists p. split; [done|].
      destruct Harc as (i & l & x & y & ratio & H1 & H2 & H3 & H4 & H5 & H6).
      exists (S i), l, x, y, ratio.
      split; [done|]. split; [done|]. split; [done|]. split; [done|]. split; [done|].
      cbn [take fold_left]. rewrite fold_Rplus_shift. lra.
Qed.

Lemma is_selected_ids (s s' : option Location) loc :
  loc_id <$> s = loc_id <$> s' -> is_selected s loc = is_selected s' loc.
Proof.
  destruct s as [x|], s' as [y|]; cbn; intros H; try discriminate; [|done].
  injection H as H. by rewrite H.
Qed.

Lemma marker_icon_ids (p p' d d' : option Location) loc :
  loc_id <$> p = loc_id <$> p' -> loc_id <$> d = loc_id <$> d' ->
  marker_icon p d loc = marker_icon p' d' loc.
Proof.
  intros Hp Hd. unfold marker_icon.
  by rewrite (is_selected_ids p p' loc Hp), (is_selected_ids d d' loc Hd).
Qed.

Lemma selection_none st :
  selection st = (None, None) -> State.pickup st = None /\ State.destination st = None.
Proof.
  unfold selection. by destruct (State.pickup st), (State.destination st).
Qed.

Lemma restyle_step e st styled :
  styled_as st styled ->
  styled_as (handle e st) (restyle st (handle e st) styled)
  /\ (restyle st (handle e st) styled = None
      <-> styled = None /\ clicked [e] = false).
Proof.
  intros Hst. unfold restyle. case_bool_decide as Hsame.
  - split.
    + destruct styled as [[p d]|]; cbn in *; congruence.
    + split; [|by intros [-> _]].
      intros ->. split; [done|]. cbn in Hst.
      destruct (selection_none st Hst) as [Hp Hd].
      destruct e as [l| | |env| |]; try done.
      exfalso. revert Hsame. unfold selection. cbn [handle]. unfold marker_click.
      rewrite Hp. cbn. done.
  - split; [done|]. split; [done|].
    intros [-> Hclick]. exfalso. apply Hsame. cbn in Hst.
    destruct (selection_none st Hst) as [Hp Hd].
    destruct e as [l| | |env| |]; [done| | | | |].
    + unfold selection. cbn. by rewrite Hp, Hd.
    + unfold selection. cbn. by rewrite Hp, Hd.
    + cbn [handle]. unfold submitRequest. by rewrite Hp.
    + unfold selection. cbn. by rewrite Hp, Hd.
    + unfold selection. cbn. by rewrite Hp, Hd.
Qed.

Lemma styling_run es : forall st styled,
  styled_as st styled ->
  styled_as (run es st) (styling es st styled)
  /\ (styling es st styled = None <-> styled = None /\ clicked es = false).
Proof.
  induction es as [|e es IH]; intros st styled Hst; [by split; [|split; [|intros []]]|].
  destruct (restyle_step e st styled Hst) as [Hst1 Hnone1].
  destruct (IH (handle e st) _ Hst1) as [Hst' Hnone'].
  split; [exact Hst'|].
  change (styling (e :: es) st styled)
    with (styling es (handle e st) (restyle st (handle e st) styled)).
  rewrite Hnone', Hnone1.
  destruct e; cbn [clicked existsb orb]; intuition congruence.
Qed.

Lemma wrap_succ (z : Z) :
  (0 <= z)%Z -> wrap (z mod 200 + 1) = ((z + 1) mod 200)%Z.
Proof.
  intros Hz. unfold wrap, totalSteps.
  pose proof (Z.mod_pos_bound z 200 ltac:(lia)).
  destruct (z mod 200 + 1 >=? 200)%Z eqn:E.
  - assert (z mod 200 = 199)%Z as H199 by lia.
    rewrite <- Zplus_mod_idemp_l, H199. done.
  - rewrite <- Zplus_mod_idemp_l. rewrite (Z.mod_small (_ + 1)); lia.
Qed.

(** on a line without a segment of length zero a call of [animate]
    finds its point and counts its step *)
Lemma animate_arc distance latLngs step :
  (2 <= length latLngs)%nat ->
  Forall (fun len => 0 < len)%R (segmentLengths distance latLngs) ->
  (0 <= wrap step < 200)%Z ->
  exists p, animate distance latLngs step = (move_to p, Some (wrap step + 1)%Z)
    /\ at_arc_length (segmentLengths distance latLngs) latLngs
         (IZR (wrap step) / 200 * totalLength distance latLngs) p.
Proof.
  intros Hlen Hpos [Hlo Hhi]. unfold animate.
  apply IZR_le in Hlo. apply IZR_lt in Hhi.
  pose proof (fold_Rplus_nonneg _ Hpos) as Htot. fold (totalLength distance latLngs) in Htot.
  set (t := (IZR (wrap step) / IZR totalSteps * totalLength distance latLngs)%R).
  assert (0 <= t <= totalLength distance latLngs)%R as Ht.
  { unfold t, totalSteps.
    pose proof (ratio_range (IZR (wrap step)) 200 ltac:(lra) ltac:(lra)) as [H0 H1].
    split.
    - by apply Rmult_le_pos.
    - rewrite <- (Rmult_1_l (totalLength distance latLngs)) at 2.
      by apply Rmult_le_compat_r. }
  destruct (locate_arc (segmentLengths distance latLngs) latLngs 0 t) as (p & Hp & Harc).
  - intros Hnil. apply (f_equal length) in Hnil.
    rewrite segmentLengths_length in Hnil. cbn in Hnil. lia.
  - rewrite segmentLengths_length. lia.
  - done.
  - unfold totalLength in Ht. lra.
  - exists p. rewrite Hp. split; [done|]. rewrite Rminus_0_r in Harc. exact Harc.
Qed.

Lemma step_after_S distance latLngs n :
  step_after distance latLngs (S n)
  = match step_after distance latLngs n with
    | Some s => snd (animate distance latLngs s)
    | None => None
    end.
Proof. reflexivity. Qed.

Lemma step_after_defined distance latLngs n :
  (2 <= length latLngs)%nat ->
  Forall (fun len => 0 < len)%R (segmentLengths distance latLngs) ->
  exists step, step_after distance latLngs n = Some step
    /\ wrap step = (Z.of_nat n mod 200)%Z
    /\ step_after distance latLngs (S n) = Some (Z.of_nat n mod 200 + 1)%Z.
Proof.
  intros Hlen Hpos.
  assert (forall s, (0 <= wrap s < 200)%Z ->
            snd (animate distance latLngs s) = Some (wrap s + 1)%Z) as Hnext.
  { intros s Hs. by destruct (animate_arc distance latLngs s Hlen Hpos Hs) as (p & -> & _). }
  induction n as [|n (step & Hstep & Hwrap & Hsucc)].
  - exists 0%Z. split; [done|]. split; [done|].
    change (step_after distance latLngs 1) with (snd (animate distance latLngs 0)).
    rewrite Hnext; [done|]. change (wrap 0) with 0%Z. lia.
  - pose proof (Z.mod_pos_bound (Z.of_nat n) 200 ltac:(lia)) as Hmod.
    pose proof (Z.mod_pos_bound (Z.of_nat (S n)) 200 ltac:(lia)) as Hmod'.
    assert (wrap (Z.of_nat n mod 200 + 1) = Z.of_nat (S n) mod 200)%Z as Hw.
    { rewrite wrap_succ by lia. f_equal. lia. }
    exists (Z.of_nat n mod 200 + 1)%Z. split; [done|]. split; [done|].
    rewrite step_after_S, Hsucc, Hnext; rewrite Hw; [done|lia].
Qed.

End ViewFacts.


(** * Further facts about the demo *)

Module DemoMore.
Import Demo DemoView NumFacts DemoFacts.

Lemma Zfloor_range (x : R) (a b : Z) :
  (IZR a <= x < IZR b)%R -> (a <= Zfloor x < b)%Z.
Proof.
  intros [Ha Hb]. split; [by apply Zfloor_lub|by apply Zfloor_below].
Qed.

Lemma toFixed1_quarters (n : nat) : toFixed1 (INR n * 2.5) = (INR n * 2.5)%R.
Proof.
  pose proof (pos_INR n) as Hn.
  rewrite (toFixed1_tenths _ (25 * Z.of_nat n)).
  - rewrite mult_IZR, <- INR_IZR_INZ. lra.
  - lra.
  - rewrite mult_IZR, <- INR_IZR_INZ. lra.
Qed.

Lemma pick_elem (l : list Location) (d : Draw) x : pick l d = Some x -> x ∈ l.
Proof. unfold pick. apply list_elem_of_lookup_2. Qed.

Lemma catalogue_ids_differ o d :
  o ∈ CYPRUS_LOCATIONS.cities ->
  d ∈ CYPRUS_LOCATIONS.villages ++ CYPRUS_LOCATIONS.beaches
      ++ CYPRUS_LOCATIONS.archaeological ->
  loc_id o <> loc_id d.
Proof.
  intros Ho Hd.
  apply (list_elem_of_fmap_2 loc_id) in Ho, Hd.
  assert (Forall (fun a => Forall (fun b => a <> b)
            (loc_id <$> CYPRUS_LOCATIONS.villages ++ CYPRUS_LOCATIONS.beaches
                        ++ CYPRUS_LOCATIONS.archaeological))
            (loc_id <$> CYPRUS_LOCATIONS.cities)) as Hall.
  { apply (bool_decide_unpack _). vm_compute. exact I. }
  rewrite Forall_forall in Hall. specialize (Hall _ Ho).
  rewrite Forall_forall in Hall. by apply Hall.
Qed.

Lemma generate_ranges rnd now r :
  (forall k, unit_draw (rnd k)) ->
  generateRideRequest rnd now = Some r ->
  origin r ∈ CYPRUS_LOCATIONS.cities
  /\ destination r ∈ CYPRUS_LOCATIONS.villages ++ CYPRUS_LOCATIONS.beaches
                     ++ CYPRUS_LOCATIONS.archaeological
  /\ (1 <= passengers r <= 4)%Z
  /\ (5 <= eta r <= 24)%Z
  /\ status r = pending
  /\ timestamp r = now
  /\ loc_id (origin r) <> loc_id (destination r).
Proof.
  intros Hrnd Hgen.
  pose proof (generate_few_passengers rnd now r Hrnd Hgen) as Hfew.
  unfold generateRideRequest in Hgen.
  destruct (pick _ (rnd 0%nat)) as [d|] eqn:Hd; [|done].
  destruct (pick _ (rnd 1%nat)) as [o|] eqn:Ho; [|done].
  apply pick_elem in Hd, Ho.
  injection Hgen as <-. cbn [origin destination passengers eta status timestamp] in *.
  split; [done|]. split; [done|]. split; [done|].
  split.
  { destruct (Hrnd 4%nat) as [H0 H1]. unfold Math_floor.
    pose proof (Zfloor_range (number (rnd 4%nat) * 20) 0 20 ltac:(lra)). lia. }
  split; [done|]. split; [done|].
  by apply catalogue_ids_differ.
Qed.

Lemma simulate_co2Saved rnd reqs c :
  c ∈ simulateRLOptimization rnd reqs ->
  co2Saved c = (INR (length (requests c)) * 2.5)%R.
Proof.
  intros Hc. destruct (simulate_described rnd reqs c Hc) as [k Hk].
  rewrite Hk at 1. apply toFixed1_quarters.
Qed.

Lemma sum_co2Saved (cs : list Cluster) (z : R) :
  Forall (fun c => co2Saved c = (INR (length (requests c)) * 2.5)%R) cs ->
  fold_left (fun sum c => sum + co2Saved c)%R cs z
  = (z + 2.5 * INR (length (concat (map requests cs))))%R.
Proof.
  revert z. induction cs as [|c cs IH]; intros z Hcs; cbn [fold_left map concat].
  { cbn. lra. }
  apply Forall_cons in Hcs as [Hc Hcs].
  rewrite (IH _ Hcs), length_app, plus_INR, Hc. lra.
Qed.

Lemma simulate_credit rnd reqs :
  NoDup (map id reqs) ->
  fold_left (fun sum c => sum + co2Saved c)%R (simulateRLOptimization rnd reqs) 0%R
  = (2.5 * INR (length reqs))%R.
Proof.
  intros Hnd. rewrite sum_co2Saved.
  - rewrite simulate_requests.
    rewrite (Permutation_length (group_requests_partition id joins reqs Hnd)). lra.
  - apply Forall_forall. intros c Hc. by apply (simulate_co2Saved rnd reqs).
Qed.

Lemma simulate_credit_nonneg rnd reqs :
  (0 <= fold_left (fun sum c => sum + co2Saved c)%R (simulateRLOptimization rnd reqs) 0)%R.
Proof.
  rewrite sum_co2Saved.
  - pose proof (pos_INR (length (concat (map requests (simulateRLOptimization rnd reqs))))).
    lra.
  - apply Forall_forall. intros c Hc. by apply (simulate_co2Saved rnd reqs).
Qed.

Lemma NoDup_ids_filter (P : Request -> Prop) `{!forall r, Decision (P r)} rs :
  NoDup (map id rs) -> NoDup (map id (filter P rs)).
Proof.
  intros Hnd. apply (sublist_NoDup _ _ Hnd).
  by apply (fmap_sublist id), sublist_filter.
Qed.

Lemma queue_push rs r : queue (rs ++ [r]) = r :: take 5 (queue rs).
Proof.
  unfold queue. rewrite length_app. cbn [length].
  rewrite drop_app_le by lia. rewrite reverse_snoc. f_equal.
  rewrite take_reverse, length_drop, drop_drop. f_equal. f_equal. lia.
Qed.

Lemma queue_length rs : length (queue rs) = Nat.min 6 (length rs).
Proof. unfold queue. rewrite length_reverse, length_drop. lia. Qed.

Lemma origin_assign rs :
  Forall (fun r => origin r ∈ CYPRUS_LOCATIONS.cities
                   /\ destination r ∈ CYPRUS_LOCATIONS.villages
                        ++ CYPRUS_LOCATIONS.beaches
                        ++ CYPRUS_LOCATIONS.archaeological) rs ->
  Forall (fun r => origin r ∈ CYPRUS_LOCATIONS.cities
                   /\ destination r ∈ CYPRUS_LOCATIONS.villages
                        ++ CYPRUS_LOCATIONS.beaches
                        ++ CYPRUS_LOCATIONS.archaeological) (map assign rs).
Proof. intros H. apply Forall_fmap. exact H. Qed.

Lemma append_request_consistent r st :
  origin r ∈ CYPRUS_LOCATIONS.cities ->
  destination r ∈ CYPRUS_LOCATIONS.villages ++ CYPRUS_LOCATIONS.beaches
                  ++ CYPRUS_LOCATIONS.archaeological ->
  demo_consistent st -> demo_consistent (append_request r st).
Proof.
  intros Ho Hd (H1 & H2 & H3 & H4 & H5 & H6 & H7).
  unfold demo_consistent, append_request.
  cbn [rideRequests stats count_request totalRequests activeVehicles avgWaitTime
       stats_co2Saved selectedOrigin selectedDestination].
  split; [rewrite length_app, H1; cbn [length]; lia|].
  split; [done|]. split; [done|]. split; [done|].
  split; [|done].
  apply Forall_app. split; [done|]. by apply Forall_singleton.
Qed.

Lemma step_consistent st st' : step st st' -> demo_consistent st -> demo_consistent st'.
Proof.
  intros Hstep Hst.
  destruct Hstep as [rnd now st Hrnd|l st Hl|l st Hl|rnd now st Hrnd
                     |rnd snapshot ts1 ts2 st Hrnd Hts].
  - unfold incoming. destruct (length (rideRequests st) <? 8)%nat; [|done].
    destruct (generateRideRequest rnd now) as [r|] eqn:Hgen; [|done].
    destruct (generate_ranges rnd now r Hrnd Hgen) as (Ho & Hd & _).
    by apply append_request_consistent.
  - destruct Hst as (H1 & H2 & H3 & H4 & H5 & H6 & H7).
    unfold demo_consistent, setSelectedOrigin. cbn.
    repeat (split; [done|]). split; [by intros o [= <-]|done].
  - destruct Hst as (H1 & H2 & H3 & H4 & H5 & H6 & H7).
    unfold demo_consistent, setSelectedDestination. cbn.
    repeat (split; [done|]). by intros d [= <-].
  - unfold handleRequestRide.
    destruct (selectedOrigin st) as [o|] eqn:Ho; [|done].
    destruct (selectedDestination st) as [d|] eqn:Hd; [|done].
    pose proof Hst as (_ & _ & _ & _ & _ & H6 & H7).
    specialize (H6 o Ho). specialize (H7 d Hd).
    match goal with |- demo_consistent (clear_selection (append_request ?r st)) =>
      pose proof (append_request_consistent r st H6) as Happ end.
    cbn [destination] in Happ.
    destruct Happ as (H1 & H2 & H3 & H4 & H5 & _ & _); [|done|].
    { rewrite app_assoc. apply elem_of_app. by left. }
    unfold demo_consistent, clear_selection.
    cbn [rideRequests stats selectedOrigin selectedDestination].
    repeat (split; [done|]). done.
  - destruct Hst as (H1 & H2 & H3 & H4 & H5 & H6 & H7).
    unfold demo_consistent, optimize.
    cbn [rideRequests stats totalRequests activeVehicles avgWaitTime stats_co2Saved
         selectedOrigin selectedDestination].
    split; [by rewrite length_map|]. split; [done|]. split; [done|].
    split.
    { pose proof (simulate_credit_nonneg rnd
                    (filter (fun r => status r = pending) snapshot)). lra. }
    split; [by apply origin_assign|done].
Qed.

Lemma initial_consistent : demo_consistent initial.
Proof.
  unfold demo_consistent, initial. cbn.
  split; [done|]. split; [done|]. split; [done|]. split; [lra|].
  split; [by apply Forall_nil|done].
Qed.

(** the two lists of buttons of the demo's form share no location *)
Lemma selection_ids_differ st o d :
  demo_consistent st ->
  selectedOrigin st = Some o -> selectedDestination st = Some d ->
  loc_id o <> loc_id d.
Proof.
  intros (_ & _ & _ & _ & _ & Ho & Hd) Hso Hsd.
  apply catalogue_ids_differ; [by apply Ho|].
  specialize (Hd d Hsd). rewrite app_assoc. apply elem_of_app. by left.
Qed.

Lemma reachable_consistent st : reachable st -> demo_consistent st.
Proof.
  induction 1 as [|st st' _ IH Hstep]; [apply initial_consistent|].
  by apply (step_consistent st st').
Qed.

End DemoMore.


(** * Facts about the form and the savings *)

Module FormFacts.
Import MapApp MapState NumFacts MapFacts StateFacts.

Lemma total_passengers_from (cluster : list Request.t) (z : Z) :
  Forall valid_request cluster ->
  (z + Z.of_nat (length cluster)
   <= fold_left (fun sum r => sum + Request.passengers r) cluster z)%Z.
Proof.
  revert z. induction cluster as [|r cluster IH]; intros z Hc; cbn [fold_left length]; [lia|].
  apply Forall_cons in Hc as [[Hr _] Hc].
  pose proof (IH (z + Request.passengers r)%Z Hc). lia.
Qed.

Lemma total_passengers_pos (cluster : list Request.t) :
  cluster <> [] -> Forall valid_request cluster -> (1 <= total_passengers cluster)%Z.
Proof.
  intros Hne Hc. pose proof (total_passengers_from cluster 0 Hc) as H.
  unfold total_passengers. destruct cluster; [done|]. cbn [length] in H. lia.
Qed.

(** per passenger-kilometre a car emits more than any of the vehicles
    does per kilometre *)
Lemma selectVehicle_margin (p : Z) :
  (1 <= p)%Z -> (0.06 <= IZR p * 0.21 - Vehicle.co2 (selectVehicle p))%R.
Proof.
  intros Hp. unfold selectVehicle.
  destruct (p <=? 4)%Z eqn:E4; [|destruct (p <=? 8)%Z eqn:E8].
  - cbn. apply IZR_le in Hp. lra.
  - apply Z.leb_gt in E4. assert (5 <= p)%Z as H5 by lia. apply IZR_le in H5. cbn. lra.
  - apply Z.leb_gt in E8. assert (9 <= p)%Z as H9 by lia. apply IZR_le in H9. cbn. lra.
Qed.

Lemma plus_presses (n : nat) : forall st,
  (1 <= State.passengers st <= 20)%Z ->
  State.passengers (run (replicate n Plus) st)
  = Z.min 20 (State.passengers st + Z.of_nat n).
Proof.
  induction n as [|n IH]; intros st Hst.
  { cbn. lia. }
  change (run (replicate (S n) Plus) st) with (run (replicate n Plus) (more_passengers st)).
  rewrite IH; cbn [more_passengers setPassengers State.passengers]; lia.
Qed.

Lemma minus_presses (n : nat) : forall st,
  (1 <= State.passengers st <= 20)%Z ->
  State.passengers (run (replicate n Minus) st)
  = Z.max 1 (State.passengers st - Z.of_nat n).
Proof.
  induction n as [|n IH]; intros st Hst.
  { cbn. lia. }
  change (run (replicate (S n) Minus) st) with (run (replicate n Minus) (fewer_passengers st)).
  rewrite IH; cbn [fewer_passengers setPassengers State.passengers]; lia.
Qed.

End FormFacts.


(** * Facts about the sample inputs *)

Module MoreFacts.
Import MapApp MapState MapView DemoView.
Import NumFacts DemoFacts GeoFacts MapFacts GeoMore StopFacts StateFacts ViewFacts DemoMore.

Lemma troodos_five_distinct : NoDup (map Demo.id troodos_five).
Proof. apply (bool_decide_unpack _). vm_compute. exact I. Qed.

Lemma troodos_five_clusters :
  group_requests Demo.id Demo.joins troodos_five
  = [take 4 troodos_five; drop 4 troodos_five].
Proof. vm_compute. reflexivity. Qed.

Lemma equator_far :
  (20 <= getDistance (lat equator_west) (lng equator_west)
                     (lat equator_east) (lng equator_east))%R.
Proof.
  change (20 <= getDistance 0 0 0 180)%R. rewrite getDistance_antipodes.
  pose proof PI2_1. lra.
Qed.

Lemma equator_clusters : clusters_of [to_west; to_east] = [[to_west]; [to_east]].
Proof.
  unfold clusters_of. rewrite group_requests_pair.
  - unfold nearby. rewrite bool_decide_eq_false_2; [done|].
    pose proof equator_far.
    change (Request.destination to_west) with equator_west.
    change (Request.destination to_east) with equator_east. lra.
  - apply (bool_decide_unpack _). vm_compute. exact I.
Qed.

Lemma length_concat_bound {A : Type} (b : nat) (ls : list (list A)) :
  Forall (fun l => (length l <= b)%nat) ls ->
  (length (concat ls) <= b * length ls)%nat.
Proof.
  induction 1 as [|l ls Hl _ IH]; cbn [concat length]; [lia|].
  rewrite length_app. lia.
Qed.

(** the two submissions of [same_draw_twice] carry one id *)
Lemma twin_clusters : clusters_of [twin_a; twin_b] = [[twin_a]].
Proof. unfold clusters_of. by apply group_requests_same_id. Qed.

Lemma same_draw_twice_state :
  State.requests (run same_draw_twice start) = [twin_a; twin_b]
  /\ map Route.requests (State.routes (run same_draw_twice start)) = [[twin_a]].
Proof.
  change same_draw_twice with
    ((select pin_nicosia pin_kakopetria ++ [Submit offline]
      ++ select pin_nicosia pin_figtree) ++ [Submit offline]).
  rewrite MapFacts.run_app. cbn [run fold_left handle].
  rewrite (MapFacts.submitRequest_selected offline _ pin_nicosia pin_figtree) by reflexivity.
  cbn [State.routes State.requests].
  change (State.requests _ ++ _) with [twin_a; twin_b].
  split; [done|]. by rewrite twin_clusters.
Qed.

(** the bookings of [booked_thrice] *)
Lemma book_requests rnd o d st :
  number (rnd 1%nat) = 0%R ->
  Demo.rideRequests (book rnd o d st)
  = Demo.rideRequests st
    ++ [Demo.mkRequest (random_id (rnd 0%nat) 9) o d 1 0 Demo.pending 5].
Proof.
  intros H0. unfold book, Demo.handleRequestRide. cbn. rewrite H0.
  replace (Math_floor (0 * 15)) with 0%Z; [done|].
  symmetry. apply Zfloor_eq. simpl. lra.
Qed.

Lemma book_reachable rnd o d st :
  (forall k, unit_draw (rnd k)) ->
  o ∈ Demo.CYPRUS_LOCATIONS.cities ->
  d ∈ Demo.CYPRUS_LOCATIONS.villages ++ Demo.CYPRUS_LOCATIONS.beaches ->
  Demo.reachable st -> Demo.reachable (book rnd o d st).
Proof.
  intros Hrnd Ho Hd Hst. unfold book.
  eapply Demo.reachable_step; [|by apply Demo.step_request].
  eapply Demo.reachable_step; [|by apply Demo.step_destination].
  eapply Demo.reachable_step; [exact Hst|by apply Demo.step_origin].
Qed.

Lemma booked_thrice_reachable : Demo.reachable booked_thrice.
Proof.
  assert (forall k, unit_draw (Demo.still k)) as Hs by (intros k; cbv; lra).
  assert (forall k, unit_draw (other_draw k)) as Ho by (intros k; cbv; lra).
  assert (Demo.limassol ∈ Demo.CYPRUS_LOCATIONS.cities) as Hl
    by (apply list_elem_of_further, list_elem_of_here).
  assert (Demo.nicosia ∈ Demo.CYPRUS_LOCATIONS.cities) as Hn
    by apply list_elem_of_here.
  unfold booked_thrice.
  apply book_reachable; [done|done| |].
  { apply elem_of_app. left.
    by repeat first [apply list_elem_of_here|apply list_elem_of_further]. }
  apply book_reachable; [done|done| |].
  { apply elem_of_app. right.
    by repeat first [apply list_elem_of_here|apply list_elem_of_further]. }
  apply book_reachable; [done|done| |].
  { apply elem_of_app. left.
    by repeat first [apply list_elem_of_here|apply list_elem_of_further]. }
  apply Demo.reachable_initial.
Qed.


Lemma booked_thrice_requests :
  Demo.rideRequests booked_thrice = [booked_a; booked_b; booked_c].
Proof.
  unfold booked_thrice. by rewrite !book_requests.
Qed.

Lemma booked_thrice_timers :
  Demo.timers booked_thrice = [Demo.rideRequests booked_thrice].
Proof.
  assert (forall rnd o d st,
            Demo.timers (book rnd o d st)
            = Demo.optimization_effect (Demo.rideRequests (book rnd o d st))
                (Demo.timers st)) as Hbook.
  { intros rnd o d st. reflexivity. }
  unfold booked_thrice at 1. rewrite !Hbook.
  fold booked_thrice.
  rewrite !book_requests by reflexivity.
  change (Demo.timers Demo.initial) with (@nil (list Demo.Request)).
  change (Demo.rideRequests Demo.initial) with (@nil Demo.Request).
  rewrite booked_thrice_requests.
  reflexivity.
Qed.

Lemma booked_clusters :
  group_requests Demo.id Demo.joins
    (filter (fun r => Demo.status r = Demo.pending) [booked_a; booked_b; booked_c])
  = [[booked_a; booked_c]].
Proof. vm_compute. reflexivity. Qed.

End MoreFacts.


(** * The specification's claims *)

Import MapApp.

(** C1, as stated, fails when two requests carry one id, which nothing
    in the code excludes: an id is a slice of what [Math.random] returned
    when the request was made.  Both loops skip a request whose id is in
    [processed], so of two requests with one id the second one is in no
    cluster.  In the map-based application two submissions with the same
    draw leave two requests and one route of one request; in the demo
    three bookings through the form, the first two with the same draw,
    arm the timeout, and its clustering run places two of the three
    requests. *)
Lemma C1_counterexample :
  (State.requests (run same_draw_twice start) = [twin_a; twin_b]
   /\ Request.id twin_a = Request.id twin_b
   /\ twin_a <> twin_b
   /\ map Route.requests (State.routes (run same_draw_twice start)) = [[twin_a]]
   /\ clusters_of [twin_a; twin_b] = [[twin_a]]
   /\ (twin_b ∉ concat (clusters_of [twin_a; twin_b]))
   /\ list_sum (map length (clusters_of [twin_a; twin_b])) = 1%nat
   /\ length [twin_a; twin_b] = 2%nat)
  /\ (let booked := [DemoView.booked_a; DemoView.booked_b; DemoView.booked_c] in
      let pending := filter (fun r => Demo.status r = Demo.pending) booked in
      let out := map Demo.requests (Demo.simulateRLOptimization Demo.still pending) in
      Demo.reachable DemoView.booked_thrice
      /\ Demo.rideRequests DemoView.booked_thrice = booked
      /\ Demo.timers DemoView.booked_thrice = [booked]
      /\ pending = booked
      /\ Demo.id DemoView.booked_a = Demo.id DemoView.booked_b
      /\ DemoView.booked_a <> DemoView.booked_b
      /\ out = [[DemoView.booked_a; DemoView.booked_c]]
      /\ (DemoView.booked_b ∉ concat out)
      /\ list_sum (map length out) = 2%nat
      /\ length pending = 3%nat).
Proof.
  split.
  - destruct MoreFacts.same_draw_twice_state as [Hreq Hroutes].
    rewrite MoreFacts.twin_clusters.
    assert (twin_a <> twin_b) as Hne.
    { intros H. apply (f_equal (fun r => loc_id (Request.destination r))) in H.
      discriminate H. }
    repeat split; try done.
    cbn. intros H. apply list_elem_of_singleton in H. by apply Hne.
  - cbv zeta. rewrite DemoFacts.simulate_requests, MoreFacts.booked_clusters.
    assert (DemoView.booked_a <> DemoView.booked_b) as Hab.
    { intros H. apply (f_equal (fun r => loc_id (Demo.destination r))) in H.
      discriminate H. }
    assert (DemoView.booked_c <> DemoView.booked_b) as Hcb.
    { intros H. apply (f_equal Demo.id) in H. discriminate H. }
    split; [apply MoreFacts.booked_thrice_reachable|].
    split; [apply MoreFacts.booked_thrice_requests|].
    split.
    { rewrite MoreFacts.booked_thrice_timers.
      by rewrite MoreFacts.booked_thrice_requests. }
    repeat split; try done.
    cbn. intros H. apply elem_of_cons in H as [H|H]; [by apply Hab|].
    apply list_elem_of_singleton in H. by apply Hcb.
Qed.

(** C1, amended: a clustering run (the demo's [simulateRLOptimization]
    over the pending requests, the clustering block of [submitRequest]
    over the request list) places exactly one request for every id among
    its input: no request is in two clusters, every request of a cluster
    is one of the input, and the cluster sizes add up to the number of
    different ids.  When the ids of the input are pairwise different,
    every request is placed in exactly one cluster: the clusters laid
    end to end are a rearrangement of the input and the cluster sizes
    add up to the number of requests. *)
Theorem C1_one_request_per_id_in_exactly_one_cluster
    (rnd : nat -> Draw) (pending : list Demo.Request) (requests : list Request.t) :
  let demo_out := map Demo.requests (Demo.simulateRLOptimization rnd pending) in
  let map_out := clusters_of requests in
  (NoDup (map Demo.id (concat demo_out))
   /\ (forall x, x ∈ concat demo_out -> x ∈ pending)
   /\ (forall x, x ∈ pending -> Demo.id x ∈ map Demo.id (concat demo_out))
   /\ list_sum (map length demo_out) = length (remove_dups (map Demo.id pending))
   /\ (NoDup (map Demo.id pending) ->
       concat demo_out ≡ₚ pending /\ list_sum (map length demo_out) = length pending))
  /\ (NoDup (map Request.id (concat map_out))
      /\ (forall x, x ∈ concat map_out -> x ∈ requests)
      /\ (forall x, x ∈ requests -> Request.id x ∈ map Request.id (concat map_out))
      /\ list_sum (map length map_out) = length (remove_dups (map Request.id requests))
      /\ (NoDup (map Request.id requests) ->
          concat map_out ≡ₚ requests /\ list_sum (map length map_out) = length requests)).
Proof.
  intros demo_out map_out. subst demo_out map_out.
  rewrite DemoFacts.simulate_requests. unfold clusters_of.
  rewrite !length_concat_sum.
  destruct (group_requests_one_per_id Demo.id Demo.joins pending) as (D1 & D2 & D3 & D4).
  destruct (group_requests_one_per_id Request.id nearby requests) as (M1 & M2 & M3 & M4).
  split.
  - split; [done|]. split; [done|]. split; [done|]. split; [done|].
    intros Hnd.
    pose proof (group_requests_partition Demo.id Demo.joins pending Hnd) as H.
    split; [done|]. by apply Permutation_length.
  - split; [done|]. split; [done|]. split; [done|]. split; [done|].
    intros Hnd.
    pose proof (group_requests_partition Request.id nearby requests Hnd) as H.
    split; [done|]. by apply Permutation_length.
Qed.

Lemma C1_one_request_per_id_in_exactly_one_cluster_witness :
  (concat (map Demo.requests
             (Demo.simulateRLOptimization Demo.still [Demo.to_nissi; Demo.to_kourion]))
     ≡ₚ [Demo.to_nissi; Demo.to_kourion]
   /\ list_sum (map length (map Demo.requests
        (Demo.simulateRLOptimization Demo.still [Demo.to_nissi; Demo.to_kourion])))
      = 2%nat)
  /\ (concat (clusters_of [group_a; group_b]) ≡ₚ [group_a; group_b]
      /\ list_sum (map length (clusters_of [group_a; group_b])) = 2%nat).
Proof.
  destruct (C1_one_request_per_id_in_exactly_one_cluster Demo.still
              [Demo.to_nissi; Demo.to_kourion] [group_a; group_b])
    as ((_ & _ & _ & _ & Hdemo) & (_ & _ & _ & _ & Hmap)).
  split.
  - apply Hdemo. apply (bool_decide_unpack _). vm_compute. exact I.
  - apply Hmap. apply (bool_decide_unpack _). vm_compute. exact I.
Defined.







(** C4, as stated, fails in two ways.  When the routing service does not
    answer, the route that is built has no geometry at all.  And a body
    with code [Ok] whose first route has a geometry without coordinates
    and no numeric distance or duration is not taken as a failure: the
    route is built from it, with no geometry and with NaN for its
    distance and time, and no fallback is computed. *)
Lemma C4_counterexample :
  fetchRoute (network offline (stops_of [solo])) (stops_of [solo]) = None
  /\ Route.stops (build_route offline 0 [solo]) = [pin_nicosia; pin_kakopetria]
  /\ Route.geometry (build_route offline 0 [solo]) = None
  /\ Route.geometry (build_route offline 0 [solo])
     <> Some (map (fun s => (lng s, lat s)) (Route.stops (build_route offline 0 [solo])))
  /\ (let r := Payload.build_route (route_draw offline) Payload.garbled 0 [solo] in
      Payload.Route.stops r = [pin_nicosia; pin_kakopetria]
      /\ Payload.Route.geometry r = None
      /\ Payload.Route.distance r = None
      /\ Payload.Route.time r = None
      /\ Payload.Route.distance r
         <> Some (toFixed1 (segment_sum [pin_nicosia; pin_kakopetria]))).
Proof.
  split; [reflexivity|]. split; [reflexivity|]. split; [reflexivity|].
  split; [discriminate|].
  split; [reflexivity|]. split; [reflexivity|]. split; [reflexivity|].
  split; [reflexivity|discriminate].
Qed.

(** C4, amended: for every cluster whose routing call fails in a way
    that makes [fetchRoute] return null (the fetch or the parsing of
    the body throws, as on a network error or a timeout of the
    connection; the code is not [Ok]; there is no first route; or the
    first route has no geometry), route building still produces a route
    over the cluster's stops; its geometry is absent; its distance is
    the sum of the haversine lengths of the consecutive stop segments,
    rounded to one decimal, and so at least 0.1 km whenever the stops
    are locations of the catalogue that are not all at the same
    coordinates; its time is that sum at 45 km/h, in minutes rounded to
    the nearest integer.  These are all the bodies for which
    [fetchRoute] returns null when there are two stops or more. *)
Theorem C4_fallback_route_has_no_geometry
    (route_draw : nat -> Draw) (network : list Location -> Payload.reply)
    (k : nat) (cluster : list Request.t)
    (Hfail : Payload.fetchRoute (network (stops_of cluster)) (stops_of cluster) = None) :
  let r := Payload.build_route route_draw network k cluster in
  let stops := stops_of cluster in
  Payload.Route.stops r = stops
  /\ Payload.Route.geometry r = None
  /\ Payload.Route.distance r = Some (toFixed1 (segment_sum stops))
  /\ Payload.Route.time r = Some (Math_round (segment_sum stops / 45 * 60))
  /\ (Forall (fun s => s ∈ LOCATIONS) stops ->
      (exists s t, s ∈ stops /\ t ∈ stops /\ ~ coincident s t) ->
      (1 / 10 <= toFixed1 (segment_sum stops))%R)
  /\ (forall answer stops',
      (2 <= length stops')%nat ->
      Payload.fetchRoute answer stops' = None
      <-> answer = Payload.failure
          \/ exists code routes,
               answer = Payload.json code routes
               /\ (code <> "Ok" \/ routes = []
                   \/ exists r0 rs, routes = r0 :: rs
                        /\ Payload.geometry_of r0 = Payload.no_geometry)).
Proof.
  intros r stops. subst r stops. unfold Payload.build_route. rewrite Hfail.
  cbn [Payload.Route.stops Payload.Route.geometry Payload.Route.distance
       Payload.Route.time fmap option_fmap option_map].
  rewrite GeoFacts.straight_line_segment_sum.
  split; [done|]. split; [done|]. split; [done|]. split; [done|].
  split.
  - intros Hin Hfar. apply PayloadFacts.toFixed1_tenth.
    by apply PayloadFacts.segment_sum_catalogue.
  - apply PayloadFacts.fetchRoute_none.
Qed.

Lemma C4_fallback_route_has_no_geometry_witness :
  let r := Payload.build_route (route_draw offline) Payload.unreachable 0 [solo] in
  Payload.Route.stops r = [pin_nicosia; pin_kakopetria]
  /\ Payload.Route.geometry r = None
  /\ Payload.Route.distance r
     = Some (toFixed1 (segment_sum [pin_nicosia; pin_kakopetria]))
  /\ Payload.Route.time r
     = Some (Math_round (segment_sum [pin_nicosia; pin_kakopetria] / 45 * 60))
  /\ (1 / 10 <= toFixed1 (segment_sum [pin_nicosia; pin_kakopetria]))%R.
Proof.
  destruct (C4_fallback_route_has_no_geometry (route_draw offline) Payload.unreachable
              0 [solo] eq_refl)
    as (H1 & H2 & H3 & H4 & H5 & _).
  split; [exact H1|]. split; [exact H2|]. split; [exact H3|]. split; [exact H4|].
  apply H5.
  - apply Forall_cons. split; [apply (list_elem_of_lookup_2 _ 0); reflexivity|].
    apply Forall_cons. split; [apply (list_elem_of_lookup_2 _ 7); reflexivity|].
    apply Forall_nil_2.
  - exists pin_nicosia, pin_kakopetria.
    split; [apply list_elem_of_here|].
    split; [apply list_elem_of_further, list_elem_of_here|].
    intros [Hlat _]. simpl in Hlat. lra.
Defined.

(** C5, as stated, fails: the published figure is rounded to one
    decimal.  One passenger over a 10.5 km route in a Mini Van saves
    0.63 kg by the formula; the route carries 0.6. *)
Lemma C5_counterexample :
  let r := build_route online 0 [solo] in
  Route.passengers r = 1%Z
  /\ Route.distance r = 10.5%R
  /\ Route.vehicle r = VEHICLES.small
  /\ Route.co2 r = 0.6%R
  /\ Route.co2 r
     <> Rmax 0 (IZR (Route.passengers r) * Route.distance r * 0.21
                - Route.distance r * Vehicle.co2 (Route.vehicle r))%R.
Proof.
  destruct MapFacts.solo_online_route as (Hp & Hv & Hd & Hc).
  intros r. subst r. rewrite Hp, Hv, Hd, Hc.
  rewrite MapFacts.toFixed1_10_5, MapFacts.saved_solo, MapFacts.toFixed1_0_63.
  repeat split. simpl. rewrite Rmax_right; lra.
Qed.

(** C5, amended: the CO2 figure of every route of the map-based
    application is max(0, passengers x km x 0.21 - km x the vehicle's
    factor) rounded to one decimal, km being the route's distance before
    its own rounding; the figure of a demo cluster is 2.5 kg per request
    of the cluster, to one decimal; neither is ever negative. *)
Theorem C5_co2_is_rounded_and_never_negative :
  (forall env k cluster,
      let r := build_route env k cluster in
      let km := route_km env cluster in
      Route.distance r = toFixed1 km
      /\ Route.co2 r
         = toFixed1 (Rmax 0 (IZR (Route.passengers r) * km * 0.21
                             - km * Vehicle.co2 (Route.vehicle r)))
      /\ (0 <= Route.co2 r)%R)
  /\ (forall es r, r ∈ State.routes (run es start) -> (0 <= Route.co2 r)%R)
  /\ (forall rnd reqs c,
      c ∈ Demo.simulateRLOptimization rnd reqs ->
      Demo.co2Saved c = toFixed1 (INR (length (Demo.requests c)) * 2.5)
      /\ (0 <= Demo.co2Saved c)%R).
Proof.
  split; [|split].
  - intros env k cluster. split; [|split].
    + unfold build_route, route_km. cbn [Route.distance].
      by destruct (fetchRoute _ _).
    + reflexivity.
    + apply MapFacts.build_route_co2_nonneg.
  - intros es r Hr. apply MapFacts.run_routes in Hr as [Hr|(env & k & cluster & ->)].
    + by apply elem_of_nil in Hr.
    + apply MapFacts.build_route_co2_nonneg.
  - intros rnd reqs c Hc. apply DemoFacts.simulate_described in Hc as [k ->].
    split; [reflexivity|]. apply NumFacts.toFixed1_nonneg. simpl.
    pose proof (pos_INR (length (Demo.requests (Demo.describe rnd k (Demo.requests c))))).
    simpl in *. lra.
Qed.

Lemma C5_co2_is_rounded_and_never_negative_witness :
  (0 <= Route.co2 (build_route offline 0 [group_a; group_b]))%R
  /\ Demo.co2Saved (Demo.describe Demo.still 0 [Demo.to_nissi; Demo.to_kourion])
     = toFixed1 (INR 2 * 2.5)
  /\ (0 <= Demo.co2Saved (Demo.describe Demo.still 0 [Demo.to_nissi; Demo.to_kourion]))%R.
Proof.
  split.
  - apply (proj1 (proj2 C5_co2_is_rounded_and_never_negative) two_groups).
    rewrite MapFacts.two_groups_routes. apply list_elem_of_here.
  - apply (proj2 (proj2 C5_co2_is_rounded_and_never_negative) Demo.still
             [Demo.to_nissi; Demo.to_kourion]).
    apply list_elem_of_here.
Defined.

(** C6, as stated, fails.  With Nicosia and Kakopetria clicked on the map
    and the passenger count left at 1, the origin and the destination
    differ and the count is positive, so the claim has [submitRequest]
    append a request whose status is [pending]: the request it appends
    has no property [status] at all. *)
Lemma C6_counterexample :
  let st := run (select pin_nicosia pin_kakopetria) start in
  let r := new_request offline pin_nicosia pin_kakopetria 1 in
  State.pickup st = Some pin_nicosia
  /\ State.destination st = Some pin_kakopetria
  /\ loc_id pin_nicosia <> loc_id pin_kakopetria
  /\ (0 < State.passengers st)%Z
  /\ State.requests st = []
  /\ State.requests (submitRequest offline st) = [r]
  /\ property r "status" = None
  /\ property r "status" <> Some (VString "pending").
Proof.
  cbv zeta. rewrite MapFacts.property_status. by repeat split.
Qed.

(** C6, amended: [submitRequest] has no failing outcome.  It does
    nothing while the pickup or the destination is not selected, and
    otherwise appends exactly one new request with the selected pickup,
    destination and passenger count, none of which it tests; the request
    has the properties [id], [pickup], [destination], [passengers] and
    [time], and no [status].  The inputs the claim wants refused never
    reach it: however the form is used, the passenger count is between 1
    and 20 and the destination's id is not the pickup's.  The demo's
    [handleRequestRide] does nothing while the origin or the destination
    is not selected, and otherwise appends exactly one new request, of
    one passenger and status [pending]; in every state the demo reaches
    the selected origin and destination have different ids. *)
Theorem C6_submission_appends_without_validation :
  (forall env st,
      State.pickup st = None \/ State.destination st = None ->
      submitRequest env st = st)
  /\ (forall env st p d,
      State.pickup st = Some p -> State.destination st = Some d ->
      State.requests (submitRequest env st)
      = State.requests st ++ [new_request env p d (State.passengers st)])
  /\ (forall es, well_formed (run es start))
  /\ (forall r,
      map fst (properties r) = ["id"; "pickup"; "destination"; "passengers"; "time"]
      /\ property r "status" = None
      /\ property r "passengers" = Some (VNumber (Request.passengers r)))
  /\ (forall rnd now st,
      Demo.selectedOrigin st = None \/ Demo.selectedDestination st = None ->
      Demo.handleRequestRide rnd now st = st)
  /\ (forall rnd now st o d,
      Demo.selectedOrigin st = Some o -> Demo.selectedDestination st = Some d ->
      exists r,
        Demo.rideRequests (Demo.handleRequestRide rnd now st) = Demo.rideRequests st ++ [r]
        /\ Demo.status r = Demo.pending /\ Demo.passengers r = 1%Z
        /\ Demo.origin r = o /\ Demo.destination r = d)
  /\ (forall st o d,
      Demo.reachable st ->
      Demo.selectedOrigin st = Some o -> Demo.selectedDestination st = Some d ->
      loc_id o <> loc_id d).
Proof.
  split; [|split; [|split; [|split; [|split; [|split]]]]].
  - intros env st [H|H]; unfold submitRequest; rewrite H; [done|].
    by destruct (State.pickup st).
  - intros env st p d Hp Hd. by rewrite (MapFacts.submitRequest_selected env st p d).
  - intros es. apply MapFacts.run_well_formed, MapFacts.initial_well_formed.
  - intros r. split; [done|]. split.
    + apply MapFacts.property_status.
    + apply MapFacts.property_passengers.
  - intros rnd now st [H|H]; unfold Demo.handleRequestRide; rewrite H; [done|].
    by destruct (Demo.selectedOrigin st).
  - intros rnd now st o d Ho Hd. unfold Demo.handleRequestRide. rewrite Ho, Hd.
    eexists. repeat split.
  - intros st o d Hst. apply DemoMore.selection_ids_differ.
    by apply DemoMore.reachable_consistent.
Qed.

Lemma C6_submission_appends_without_validation_witness :
  submitRequest offline start = start
  /\ State.requests (submitRequest offline (run (select pin_nicosia pin_kakopetria) start))
     = [new_request offline pin_nicosia pin_kakopetria 1]
  /\ property (new_request offline pin_nicosia pin_kakopetria 1) "status" = None
  /\ Demo.handleRequestRide Demo.still 0 Demo.initial = Demo.initial
  /\ exists r,
       Demo.rideRequests (Demo.handleRequestRide Demo.still 0 Demo.ready) = [r]
       /\ Demo.status r = Demo.pending /\ Demo.passengers r = 1%Z
       /\ Demo.origin r = Demo.nicosia /\ Demo.destination r = Demo.kakopetria.
Proof.
  destruct C6_submission_appends_without_validation as (H1 & H2 & _ & H3 & H4 & H5 & _).
  split; [|split; [|split; [|split]]].
  - apply H1. by left.
  - apply (H2 offline (run (select pin_nicosia pin_kakopetria) start)
             pin_nicosia pin_kakopetria); reflexivity.
  - apply (H3 (new_request offline pin_nicosia pin_kakopetria 1)).
  - apply H4. by left.
  - apply (H5 Demo.still 0%Z Demo.ready Demo.nicosia Demo.kakopetria); reflexivity.
Defined.

(** C7: the vehicle of a route is [selectVehicle] of its passenger total,
    which is the smallest class whose capacity is at least that total
    (Mini Van up to 4, Minibus up to 8, Bus beyond) and the largest
    class, the Bus, when none fits; every cluster yields its route. *)
Theorem C7_vehicle_class_by_passenger_count :
  (forall p, selectVehicle p = spec_vehicle_class p)
  /\ (forall p,
      ((p <= 4)%Z -> selectVehicle p = VEHICLES.small)
      /\ ((4 < p <= 8)%Z -> selectVehicle p = VEHICLES.medium)
      /\ ((8 < p)%Z -> selectVehicle p = VEHICLES.large))
  /\ (forall env k cluster,
      Route.requests (build_route env k cluster) = cluster
      /\ Route.passengers (build_route env k cluster) = total_passengers cluster
      /\ Route.vehicle (build_route env k cluster)
         = selectVehicle (total_passengers cluster))
  /\ (forall env clusters,
      length (imap (build_route env) clusters) = length clusters).
Proof.
  split; [|split; [|split]].
  - intros p. unfold selectVehicle, spec_vehicle_class, classes.
    cbn [List.filter Vehicle.capacity VEHICLES.small VEHICLES.medium VEHICLES.large].
    destruct (p <=? 4)%Z eqn:H4; [done|].
    destruct (p <=? 8)%Z eqn:H8; [done|].
    destruct (p <=? 20)%Z eqn:H20; done.
  - intros p. unfold selectVehicle. repeat split; intros H.
    + by rewrite (proj2 (Z.leb_le p 4)).
    + rewrite (proj2 (Z.leb_gt p 4)), (proj2 (Z.leb_le p 8)); [done|lia|lia].
    + rewrite (proj2 (Z.leb_gt p 4)), (proj2 (Z.leb_gt p 8)); [done|lia|lia].
  - done.
  - intros env clusters. apply length_imap.
Qed.

Lemma C7_vehicle_class_by_passenger_count_witness :
  selectVehicle 3 = VEHICLES.small
  /\ selectVehicle 7 = VEHICLES.medium
  /\ selectVehicle 40 = VEHICLES.large.
Proof.
  destruct C7_vehicle_class_by_passenger_count as (_ & H & _).
  split; [|split].
  - apply (proj1 (H 3%Z)). lia.
  - apply (proj1 (proj2 (H 7%Z))). lia.
  - apply (proj2 (proj2 (H 40%Z))). lia.
Defined.

(** C8: which requests are grouped together depends on the request
    sequence alone: not on the draws of [Math.random] in the demo, and
    not on the draws or on what the routing service answers in the
    map-based application. *)
Theorem C8_membership_independent_of_draws_and_network :
  (forall rnd1 rnd2 reqs,
      map Demo.requests (Demo.simulateRLOptimization rnd1 reqs)
      = map Demo.requests (Demo.simulateRLOptimization rnd2 reqs))
  /\ (forall env1 env2 reqs,
      map Route.requests (imap (build_route env1) (clusters_of reqs))
      = map Route.requests (imap (build_route env2) (clusters_of reqs)))
  /\ (forall env1 env2 st1 st2 p d,
      State.pickup st1 = Some p -> State.pickup st2 = Some p ->
      State.destination st1 = Some d -> State.destination st2 = Some d ->
      State.passengers st1 = State.passengers st2 ->
      State.requests st1 = State.requests st2 ->
      request_draw env1 = request_draw env2 ->
      clock env1 = clock env2 ->
      map Route.requests (State.routes (submitRequest env1 st1))
      = map Route.requests (State.routes (submitRequest env2 st2))).
Proof.
  split; [|split].
  - intros rnd1 rnd2 reqs. by rewrite !DemoFacts.simulate_requests.
  - intros env1 env2 reqs. by rewrite !MapFacts.build_route_requests.
  - intros env1 env2 st1 st2 p d Hp1 Hp2 Hd1 Hd2 Hn Hr Hdraw Hclock.
    rewrite (MapFacts.submitRequest_selected env1 st1 p d Hp1 Hd1).
    rewrite (MapFacts.submitRequest_selected env2 st2 p d Hp2 Hd2).
    cbn [State.routes]. rewrite !MapFacts.build_route_requests.
    unfold new_request. by rewrite Hn, Hr, Hdraw, Hclock.
Qed.

Lemma C8_membership_independent_of_draws_and_network_witness :
  let st := run (removelast two_groups) start in
  map Route.requests (State.routes (submitRequest offline st))
  = map Route.requests (State.routes (submitRequest answering (setRoutes [] st))).
Proof.
  intros st.
  apply (proj2 (proj2 C8_membership_independent_of_draws_and_network)
           offline answering st (setRoutes [] st) pin_nicosia pin_kakopetria);
    reflexivity.
Defined.

(** C9, as stated, fails: [clearAll] puts the counter back to zero. *)
Lemma C9_counterexample :
  let before := run (select pin_nicosia pin_kakopetria ++ [Submit offline]) start in
  Stats.total (State.stats before) = 1%Z
  /\ Stats.total (State.stats (handle ClearAll before)) = 0%Z
  /\ (Stats.total (State.stats (handle ClearAll before))
      < Stats.total (State.stats before))%Z.
Proof. repeat split. Qed.

(** C9, amended: every successful submission adds one to the counter of
    requests; in the map-based application [clearAll] resets it to zero
    and no other event decreases it; in the demo no event decreases
    it. *)
Theorem C9_counter_is_reset_only_by_clearAll :
  (forall e st,
      e <> ClearAll ->
      (Stats.total (State.stats st) <= Stats.total (State.stats (handle e st)))%Z)
  /\ (forall env st p d,
      State.pickup st = Some p -> State.destination st = Some d ->
      Stats.total (State.stats (submitRequest env st))
      = (Stats.total (State.stats st) + 1)%Z)
  /\ (forall st, Stats.total (State.stats (clearAll st)) = 0%Z)
  /\ (forall st st',
      Demo.step st st' ->
      (Demo.totalRequests (Demo.stats st) <= Demo.totalRequests (Demo.stats st'))%Z)
  /\ (forall rnd now st o d,
      Demo.selectedOrigin st = Some o -> Demo.selectedDestination st = Some d ->
      Demo.totalRequests (Demo.stats (Demo.handleRequestRide rnd now st))
      = (Demo.totalRequests (Demo.stats st) + 1)%Z).
Proof.
  split; [|split; [|split; [|split]]].
  - intros e st He. destruct e as [l| | |env| |]; simpl; try lia.
    + unfold marker_click. destruct (State.pickup st); [|simpl; lia].
      destruct (State.destination st); case_bool_decide; simpl; lia.
    + unfold submitRequest. destruct (State.pickup st); [|lia].
      destruct (State.destination st); simpl; lia.
    + done.
  - intros env st p d Hp Hd. by rewrite (MapFacts.submitRequest_selected env st p d).
  - done.
  - apply DemoFacts.step_totalRequests.
  - intros rnd now st o d Ho Hd. unfold Demo.handleRequestRide. by rewrite Ho, Hd.
Qed.

Lemma C9_counter_is_reset_only_by_clearAll_witness :
  (Stats.total (State.stats start)
   <= Stats.total (State.stats (handle (MarkerClick pin_nicosia) start)))%Z
  /\ Stats.total (State.stats
       (submitRequest offline (run (select pin_nicosia pin_kakopetria) start)))
     = (Stats.total (State.stats (run (select pin_nicosia pin_kakopetria) start)) + 1)%Z
  /\ (Demo.totalRequests (Demo.stats Demo.initial)
      <= Demo.totalRequests
           (Demo.stats (Demo.setSelectedOrigin Demo.nicosia Demo.initial)))%Z
  /\ Demo.totalRequests (Demo.stats (Demo.handleRequestRide Demo.still 0 Demo.ready))
     = (Demo.totalRequests (Demo.stats Demo.ready) + 1)%Z.
Proof.
  destruct C9_counter_is_reset_only_by_clearAll as (H1 & H2 & _ & H4 & H5).
  split; [|split; [|split]].
  - apply H1. discriminate.
  - apply (H2 offline _ pin_nicosia pin_kakopetria); reflexivity.
  - apply H4. apply Demo.step_origin. apply list_elem_of_here.
  - apply (H5 Demo.still 0%Z Demo.ready Demo.nicosia Demo.kakopetria); reflexivity.
Defined.





(** * Further properties read off the code *)

Import MapApp MapState MapView DemoView.

(** X1: the clusters come out in the order of their first requests: the
    first members of the clusters, in cluster order, are requests of the
    input in input order (a subsequence of it), in the demo's
    [simulateRLOptimization] as in the clustering block of
    [submitRequest]. *)
Theorem X1_clusters_in_order_of_first_requests :
  (forall rnd reqs,
      omap head (map Demo.requests (Demo.simulateRLOptimization rnd reqs))
        `sublist_of` reqs)
  /\ (forall reqs, omap head (clusters_of reqs) `sublist_of` reqs).
Proof.
  split.
  - intros rnd reqs. rewrite DemoFacts.simulate_requests. apply group_requests_seeds.
  - intros reqs. apply group_requests_seeds.
Qed.

(** X2: the demo fills a cluster before it opens another one for the
    same region: when a request of a later cluster has the region of the
    first request of an earlier cluster, the earlier cluster holds
    exactly four requests. *)
Theorem X2_demo_cluster_is_full_before_the_next_opens
    (rnd : nat -> Draw) (reqs : list Demo.Request) (i j : nat)
    (c1 c2 : Demo.Cluster) (s x : Demo.Request) :
  (i < j)%nat ->
  Demo.simulateRLOptimization rnd reqs !! i = Some c1 ->
  Demo.simulateRLOptimization rnd reqs !! j = Some c2 ->
  head (Demo.requests c1) = Some s ->
  x ∈ Demo.requests c2 ->
  region (Demo.destination x) = region (Demo.destination s) ->
  length (Demo.requests c1) = 4%nat.
Proof.
  intros Hij H1 H2 Hs Hx Hregion.
  assert (group_requests Demo.id Demo.joins reqs !! i = Some (Demo.requests c1)) as G1.
  { rewrite <- (DemoFacts.simulate_requests rnd). by rewrite list_lookup_fmap, H1. }
  assert (group_requests Demo.id Demo.joins reqs !! j = Some (Demo.requests c2)) as G2.
  { rewrite <- (DemoFacts.simulate_requests rnd). by rewrite list_lookup_fmap, H2. }
  destruct (group_requests_first_fit Demo.id Demo.joins reqs i j _ _ x Hij G1 G2 Hx)
    as (s' & c0 & Hseed & Hc0 & Hjoin).
  assert (s' = s) as ->.
  { destruct Hseed as [k1 ->]. destruct Hc0 as [k2 Hc1]. rewrite Hc1 in Hs.
    cbn in Hs. by injection Hs. }
  unfold Demo.joins in Hjoin. rewrite bool_decide_eq_true_2 in Hjoin by done.
  cbn [andb] in Hjoin. apply Nat.ltb_ge in Hjoin.
  apply prefix_length in Hc0.
  assert (c1 ∈ Demo.simulateRLOptimization rnd reqs) as Hin
    by (by apply list_elem_of_lookup_2 in H1).
  destruct (DemoFacts.simulate_demo_cluster rnd reqs c1 Hin) as (req & _ & _ & Hle).
  lia.
Qed.

Lemma X2_demo_cluster_is_full_before_the_next_opens_witness :
  exists c1,
    Demo.simulateRLOptimization Demo.still troodos_five !! 0%nat = Some c1
    /\ length (Demo.requests c1) = 4%nat.
Proof.
  pose proof (DemoFacts.simulate_requests Demo.still troodos_five) as Hcs.
  rewrite MoreFacts.troodos_five_clusters in Hcs.
  destruct (Demo.simulateRLOptimization Demo.still troodos_five) as [|c1 [|c2 cs]] eqn:Hsim;
    try discriminate Hcs.
  assert (Demo.requests c1 = take 4 troodos_five
          /\ Demo.requests c2 = drop 4 troodos_five) as [Hc1 Hc2].
  { cbn [map] in Hcs. split; congruence. }
  exists c1. split; [done|].
  apply (X2_demo_cluster_is_full_before_the_next_opens Demo.still troodos_five 0 1 c1 c2
           (Demo.mkRequest "t1" Demo.nicosia Demo.kakopetria 1 0 Demo.pending 10)
           (Demo.mkRequest "t5" Demo.nicosia platres 1 0 Demo.pending 14)).
  - lia.
  - by rewrite Hsim.
  - by rewrite Hsim.
  - by rewrite Hc1.
  - rewrite Hc2. apply list_elem_of_here.
  - reflexivity.
Defined.

(** X3: in the map-based application a request of a later cluster is
    not within 20 km of the first request of any earlier cluster, by
    the destinations' great-circle distance. *)
Theorem X3_later_cluster_is_far_from_earlier_seeds
    (reqs : list Request.t) (i j : nat) (s : Request.t) (rest c2 : list Request.t)
    (x : Request.t) :
  (i < j)%nat ->
  clusters_of reqs !! i = Some (s :: rest) ->
  clusters_of reqs !! j = Some c2 ->
  x ∈ c2 ->
  (20 <= getDistance (lat (Request.destination s)) (lng (Request.destination s))
                     (lat (Request.destination x)) (lng (Request.destination x)))%R.
Proof.
  intros Hij H1 H2 Hx.
  destruct (group_requests_first_fit Request.id nearby reqs i j _ _ x Hij H1 H2 Hx)
    as (s' & c0 & Hseed & Hc0 & Hjoin).
  assert (s' = s) as ->.
  { destruct Hseed as [k1 ->]. destruct Hc0 as [k2 Hc1]. by injection Hc1. }
  unfold nearby in Hjoin. apply bool_decide_eq_false_1 in Hjoin. lra.
Qed.

Lemma X3_later_cluster_is_far_from_earlier_seeds_witness :
  (20 <= getDistance (lat equator_west) (lng equator_west)
                     (lat equator_east) (lng equator_east))%R.
Proof.
  apply (X3_later_cluster_is_far_from_earlier_seeds
           [to_west; to_east] 0 1 to_west [] [to_east] to_east).
  - lia.
  - by rewrite MoreFacts.equator_clusters.
  - by rewrite MoreFacts.equator_clusters.
  - apply list_elem_of_here.
Defined.

(** X4: no clustering run produces an empty cluster, it produces at most
    as many clusters as it is given requests, and it produces none only
    when it is given none. *)
Theorem X4_clusters_are_nonempty_and_at_most_one_per_request :
  (forall reqs,
      Forall (fun c => c <> []) (clusters_of reqs)
      /\ (length (clusters_of reqs) <= length reqs)%nat
      /\ (clusters_of reqs = [] <-> reqs = []))
  /\ (forall rnd reqs,
      Forall (fun c => Demo.requests c <> []) (Demo.simulateRLOptimization rnd reqs)
      /\ (length (Demo.simulateRLOptimization rnd reqs) <= length reqs)%nat
      /\ (Demo.simulateRLOptimization rnd reqs = [] <-> reqs = [])).
Proof.
  split.
  - intros reqs.
    destruct (group_requests_count Request.id nearby reqs) as [Hlen Hnil].
    split; [|done].
    apply Forall_forall. intros c Hc.
    destruct (group_requests_nonempty Request.id nearby reqs c Hc) as (s & rest & -> & _).
    done.
  - intros rnd reqs.
    destruct (group_requests_count Demo.id Demo.joins reqs) as [Hlen Hnil].
    rewrite <- (DemoFacts.simulate_requests rnd) in Hlen, Hnil.
    rewrite length_map in Hlen.
    split; [|split; [done|]].
    + apply Forall_forall. intros c Hc.
      apply (list_elem_of_fmap_2 Demo.requests) in Hc.
      change (Demo.requests <$> Demo.simulateRLOptimization rnd reqs)
        with (map Demo.requests (Demo.simulateRLOptimization rnd reqs)) in Hc.
      rewrite DemoFacts.simulate_requests in Hc.
      destruct (group_requests_nonempty Demo.id Demo.joins reqs _ Hc) as (s & rest & -> & _).
      done.
    + rewrite <- Hnil. split; [by intros ->|].
      by destruct (Demo.simulateRLOptimization rnd reqs).
Qed.

(** X5: over requests with distinct identifiers the demo needs at least
    a quarter as many clusters as there are requests. *)
Theorem X5_demo_needs_a_cluster_per_four_requests
    (rnd : nat -> Draw) (reqs : list Demo.Request) :
  NoDup (map Demo.id reqs) ->
  (length reqs <= 4 * length (Demo.simulateRLOptimization rnd reqs))%nat.
Proof.
  intros Hnd.
  rewrite <- (Permutation_length (group_requests_partition Demo.id Demo.joins reqs Hnd)).
  rewrite <- (DemoFacts.simulate_requests rnd).
  rewrite <- (length_map Demo.requests (Demo.simulateRLOptimization rnd reqs)).
  apply MoreFacts.length_concat_bound.
  apply Forall_forall. intros c Hc.
  apply list_elem_of_fmap_1 in Hc as (c' & -> & Hc').
  by destruct (DemoFacts.simulate_demo_cluster rnd reqs c' Hc') as (req & _ & _ & Hle).
Qed.

Lemma X5_demo_needs_a_cluster_per_four_requests_witness :
  (length troodos_five <= 4 * length (Demo.simulateRLOptimization Demo.still troodos_five))%nat.
Proof.
  apply (X5_demo_needs_a_cluster_per_four_requests Demo.still troodos_five).
  apply MoreFacts.troodos_five_distinct.
Defined.

(** X6: the stops that [new Map(...).values()] keeps have pairwise
    distinct identifiers, cover every identifier of the list they are
    taken from, are all members of that list and are never more than it
    has; a list whose identifiers are already distinct is kept as it
    is. *)
Theorem X6_unique_stops_keeps_one_stop_per_identifier (ls : list Location) :
  NoDup (map loc_id (unique_stops ls))
  /\ (forall l, l ∈ ls -> loc_id l ∈ map loc_id (unique_stops ls))
  /\ (forall s, s ∈ unique_stops ls -> s ∈ ls)
  /\ (length (unique_stops ls) <= length ls)%nat
  /\ (NoDup (map loc_id ls) -> unique_stops ls = ls).
Proof.
  destruct (StopFacts.unique_stops_spec ls) as (H1 & H2 & H3 & H4).
  split; [done|]. split; [done|]. split; [done|]. split; [|done].
  apply StopFacts.unique_stops_length.
Qed.

(** X7: in every state that the events lead to, each route serves at
    least one request and has at least two stops, at most two per
    request; so [fetchRoute] never returns early for lack of stops. *)
Theorem X7_every_route_has_at_least_two_stops (es : list event) :
  Forall (fun r => Route.requests r <> []
                   /\ Route.stops r = stops_of (Route.requests r)
                   /\ (2 <= length (Route.stops r) <= 2 * length (Route.requests r))%nat)
         (State.routes (run es start)).
Proof.
  destruct (StateFacts.run_consistent es start StateFacts.start_consistent)
    as (_ & _ & _ & [env Hroutes] & _).
  rewrite Hroutes. apply Forall_forall. intros r Hr.
  apply elem_of_lookup_imap in Hr as (k & c & -> & Hc).
  apply list_elem_of_lookup_2 in Hc.
  destruct (group_requests_nonempty Request.id nearby _ c Hc) as (s & rest & -> & _).
  cbn [build_route Route.requests Route.stops].
  split; [done|]. split; [done|].
  by apply StopFacts.stops_of_length.
Qed.

(** X8: for a cluster that is not empty the answer of the routing
    service is always used when it is usable: code [Ok], a first route,
    a geometry.  The route then carries that geometry, the answered
    distance in km to one decimal and the answered duration in whole
    minutes. *)
Theorem X8_usable_answer_is_always_used
    (env : Env) (k : nat) (cluster : list Request.t)
    (r0 : Osrm.route) (rs : list Osrm.route) (g : list (R * R)) :
  cluster <> [] ->
  network env (stops_of cluster) = Osrm.json "Ok" (r0 :: rs) ->
  Osrm.geometry r0 = Some g ->
  let r := build_route env k cluster in
  Route.geometry r = Some g
  /\ Route.distance r = toFixed1 (Osrm.distance r0 / 1000)
  /\ Route.time r = Math_round (Osrm.duration r0 / 60)
  /\ route_km env cluster = (Osrm.distance r0 / 1000)%R.
Proof.
  intros Hne Hnet Hg r. subst r. unfold build_route, route_km.
  rewrite (ViewFacts.fetchRoute_usable _ cluster Hne), Hnet.
  rewrite bool_decide_eq_true_2 by done. rewrite Hg.
  cbn [Route.geometry Route.distance Route.time RouteData.geometry
       RouteData.distance RouteData.duration].
  done.
Qed.

Lemma X8_usable_answer_is_always_used_witness :
  let r := build_route online 0 [solo] in
  Route.geometry r = Some [(33.3823, 35.1856); (32.9000, 34.9833)]%R
  /\ Route.distance r = toFixed1 (10500 / 1000)
  /\ Route.time r = Math_round (900 / 60)
  /\ route_km online [solo] = (10500 / 1000)%R.
Proof.
  apply (X8_usable_answer_is_always_used online 0 [solo]
           {| Osrm.geometry := Some [(33.3823, 35.1856); (32.9000, 34.9833)]%R;
              Osrm.distance := 10500; Osrm.duration := 900 |} []).
  - discriminate.
  - reflexivity.
  - reflexivity.
Defined.

(** X9: [getDistance] does not depend on the order of its two points,
    so whether two requests are near each other does not depend on
    which of them is the cluster's first request. *)
Theorem X9_distance_is_symmetric :
  (forall lat1 lng1 lat2 lng2,
      getDistance lat1 lng1 lat2 lng2 = getDistance lat2 lng2 lat1 lng1)
  /\ (forall req other c c', nearby req c other = nearby other c' req).
Proof.
  split; [apply GeoMore.getDistance_sym|].
  intros req other c c'. unfold nearby.
  by rewrite (GeoMore.getDistance_sym (lat (Request.destination req))).
Qed.

(** X10: every location of the catalogue lies in the box of latitudes 34
    to 36 and longitudes 32 to 35.  For two locations of the catalogue
    the haversine term of [getDistance] is between 0 and 0.002, far
    from 1, where the second square root would have no argument left,
    and their distance is between 0 and 700 km; they are at the same
    coordinates or at least 100 m apart; the distance of a location to
    itself is 0. *)
Theorem X10_catalogue_distances_are_in_range (s t : Location) :
  s ∈ LOCATIONS -> t ∈ LOCATIONS ->
  Grid.in_box (lat s) (lng s) /\ Grid.in_box (lat t) (lng t)
  /\ (0 <= hav (lat s) (lng s) (lat t) (lng t) <= 2 / 1000)%R
  /\ (0 <= getDistance (lat s) (lng s) (lat t) (lng t) <= 700)%R
  /\ (coincident s t \/ (1 / 10 <= getDistance (lat s) (lng s) (lat t) (lng t))%R)
  /\ getDistance (lat s) (lng s) (lat s) (lng s) = 0%R.
Proof.
  intros Hs Ht.
  pose proof GridFacts.LOCATIONS_in_box as Hbox. rewrite Forall_forall in Hbox.
  pose proof (Hbox s Hs) as Bs. pose proof (Hbox t Ht) as Bt.
  destruct (GeoBounds.getDistance_box _ _ _ _ Bs Bt) as (Hhav & Hd & _).
  split; [done|]. split; [done|]. split; [done|]. split; [done|].
  split; [by apply GridFacts.catalogue_apart|apply GeoFacts.getDistance_same].
Qed.

Lemma X10_catalogue_distances_are_in_range_witness :
  Grid.in_box (lat pin_nicosia) (lng pin_nicosia)
  /\ Grid.in_box (lat pin_kakopetria) (lng pin_kakopetria)
  /\ (0 <= hav (lat pin_nicosia) (lng pin_nicosia)
               (lat pin_kakopetria) (lng pin_kakopetria) <= 2 / 1000)%R
  /\ (0 <= getDistance (lat pin_nicosia) (lng pin_nicosia)
                       (lat pin_kakopetria) (lng pin_kakopetria) <= 700)%R
  /\ (coincident pin_nicosia pin_kakopetria
      \/ (1 / 10 <= getDistance (lat pin_nicosia) (lng pin_nicosia)
                                (lat pin_kakopetria) (lng pin_kakopetria))%R)
  /\ getDistance (lat pin_nicosia) (lng pin_nicosia)
                 (lat pin_nicosia) (lng pin_nicosia) = 0%R.
Proof.
  apply (X10_catalogue_distances_are_in_range pin_nicosia pin_kakopetria).
  - apply (list_elem_of_lookup_2 _ 0). reflexivity.
  - apply (list_elem_of_lookup_2 _ 7). reflexivity.
Defined.

(** X11: every request that the form has stored, in any state that the
    events lead to, carries between 1 and 20 passengers and a
    destination whose identifier differs from its pickup's. *)
Theorem X11_stored_requests_are_valid (es : list event) :
  Forall valid_request (State.requests (run es start)).
Proof.
  by destruct (StateFacts.run_consistent es start StateFacts.start_consistent)
    as (_ & H & _).
Qed.



(** X14: clicks on markers, starting without a selection, make the
    first marker clicked the pickup and the last clicked marker with
    another identifier the destination; they change nothing else. *)
Theorem X14_marker_clicks_select_first_and_last
    (p : Location) (ls : list Location) (st : State.t) :
  let st' := run (map MarkerClick (p :: ls)) (clearSelection st) in
  State.pickup st' = Some p
  /\ State.destination st' = last (filter (fun l => loc_id l ≠ loc_id p) ls)
  /\ State.passengers st' = State.passengers st
  /\ State.routes st' = State.routes st
  /\ State.requests st' = State.requests st
  /\ State.stats st' = State.stats st.
Proof.
  intros st'. subst st'.
  change (run (map MarkerClick (p :: ls)) (clearSelection st))
    with (run (map MarkerClick ls) (setPickup p (clearSelection st))).
  destruct (StateFacts.marker_clicks_selected p ls (setPickup p (clearSelection st)) eq_refl)
    as (H1 & H2 & H3 & H4 & H5 & H6).
  split; [done|]. split; [|done].
  rewrite H2. by destruct (last _).
Qed.

(** X15: the figures a route displays are within half a unit of their
    last digit of the figures they are rounded from: the distance and
    the saved CO2 within 0.05, the time within half a minute. *)
Theorem X15_displayed_figures_are_close
    (env : Env) (k : nat) (cluster : list Request.t) :
  let r := build_route env k cluster in
  let km := route_km env cluster in
  let minutes :=
    match fetchRoute (network env (stops_of cluster)) (stops_of cluster) with
    | Some rd => RouteData.duration rd
    | None => (km / 45 * 60)%R
    end in
  (Rabs (Route.distance r - km) <= / 20)%R
  /\ (Rabs (Route.co2 r
            - Rmax 0 (IZR (Route.passengers r) * km * 0.21
                      - km * Vehicle.co2 (Route.vehicle r))) <= / 20)%R
  /\ (Rabs (IZR (Route.time r) - minutes) <= / 2)%R.
Proof.
  intros r km minutes. subst r km minutes. unfold build_route, route_km.
  cbn [Route.distance Route.co2 Route.time Route.passengers Route.vehicle].
  destruct (fetchRoute (network env (stops_of cluster)) (stops_of cluster)) as [rd|].
  - split; [apply StateFacts.toFixed1_close|].
    split; [apply StateFacts.toFixed1_close|apply StateFacts.Math_round_close].
  - split; [apply StateFacts.toFixed1_close|].
    split; [apply StateFacts.toFixed1_close|apply StateFacts.Math_round_close].
Qed.

(** X16: in every state that the events lead to, the marker of the
    pickup is green and the marker of the destination red, both 18
    pixels wide with the wide border and the pulse.  Every other marker
    has the colour of its category, a border of 2 and no pulse; until
    the first click on a marker it has the size that [loadMap] gave it
    (14 for a city, 9 for a point of interest, 11 for a transport hub,
    10 otherwise), and from the first click on 14 for a city and 10
    otherwise. *)
Theorem X16_selected_markers_are_highlighted (es : list event) (loc : Location) :
  let st := run es start in
  let icon := displayed (styling es start None) loc in
  (is_selected (State.pickup st) loc = true -> icon = mkIcon "#22c55e" 18 3 true)
  /\ (is_selected (State.destination st) loc = true -> icon = mkIcon "#ef4444" 18 3 true)
  /\ (is_selected (State.pickup st) loc = false ->
      is_selected (State.destination st) loc = false ->
      icon = mkIcon (colors (type loc))
                    (if clicked es
                     then (if bool_decide (type loc = city) then 14 else 10)
                     else sizes (type loc))
                    2 false).
Proof.
  intros st icon. subst icon.
  destruct (MapFacts.run_well_formed es start MapFacts.initial_well_formed) as (_ & _ & Hne).
  fold st in Hne.
  destruct (ViewFacts.styling_run es start None eq_refl) as [Hst Hnone].
  fold st in Hst.
  destruct (styling es start None) as [[p d]|] eqn:Hstyled.
  - assert (clicked es = true) as ->.
    { destruct (clicked es) eqn:Hc; [done|].
      by pose proof (proj2 Hnone (conj eq_refl eq_refl)). }
    cbn [displayed]. cbn in Hst. injection Hst as Hp Hd.
    rewrite (ViewFacts.marker_icon_ids p (State.pickup st) d (State.destination st) loc Hp Hd).
    unfold marker_icon.
    split; [|split].
    + intros Hsel. rewrite Hsel.
      destruct (State.pickup st) as [p'|]; [|done].
      destruct (State.destination st) as [d'|]; [|done].
      cbn in Hsel. apply bool_decide_eq_true_1 in Hsel.
      cbn. rewrite bool_decide_eq_false_2; [done|].
      intros Heq. apply (Hne p' d' eq_refl eq_refl). congruence.
    + intros Hsel. rewrite Hsel. by destruct (is_selected (State.pickup st) loc).
    + by intros -> ->.
  - destruct (proj1 Hnone eq_refl) as [_ ->].
    cbn in Hst. unfold selection in Hst.
    destruct (State.pickup st); [done|]. destruct (State.destination st); [done|].
    cbn [displayed is_selected]. split; [done|]. split; [done|]. done.
Qed.

(** X17: when the routing service fails, none of the routes that a
    submission builds is drawn on the map: no line, no stop marker, no
    vehicle. *)
Theorem X17_fallback_routes_are_not_drawn
    (env : Env) (clusters : list (list Request.t)) :
  (forall stops, network env stops = Osrm.failure) ->
  draw (imap (build_route env) clusters) = [].
Proof.
  intros Hfail. apply ViewFacts.draw_nothing, Forall_forall. intros r Hr.
  apply elem_of_lookup_imap in Hr as (k & c & -> & _).
  unfold build_route. cbn [Route.geometry].
  assert (fetchRoute (network env (stops_of c)) (stops_of c) = None) as ->; [|done].
  unfold fetchRoute. rewrite Hfail. by destruct (_ <? _)%nat.
Qed.

Lemma X17_fallback_routes_are_not_drawn_witness :
  draw (imap (build_route offline) [[solo]; [group_a; group_b]]) = [].
Proof.
  apply (X17_fallback_routes_are_not_drawn offline [[solo]; [group_a; group_b]]).
  reflexivity.
Defined.

(** X18: a route built for a cluster that is not empty from a usable
    answer with at least two coordinates is drawn as one line in the
    vehicle's colour, one numbered marker per stop and one vehicle
    marker placed on the first point of the line: two layers more than
    it has stops, at least four. *)
Theorem X18_answered_route_is_drawn
    (env : Env) (k : nat) (cluster : list Request.t)
    (r0 : Osrm.route) (rs : list Osrm.route) (c0 c1 : R * R) (g : list (R * R)) :
  cluster <> [] ->
  network env (stops_of cluster) = Osrm.json "Ok" (r0 :: rs) ->
  Osrm.geometry r0 = Some (c0 :: c1 :: g) ->
  let layers := draw_route (build_route env k cluster) in
  length layers = (2 + length (stops_of cluster))%nat
  /\ (4 <= length layers)%nat
  /\ head layers
     = Some (Polyline (map to_latLng (c0 :: c1 :: g))
                      (Vehicle.color (selectVehicle (total_passengers cluster))))
  /\ last layers = Some (VehicleMarker (Some (to_latLng c0))).
Proof.
  intros Hne Hnet Hg layers. subst layers.
  pose proof (StopFacts.stops_of_length cluster Hne) as [Hstops _].
  assert (Route.geometry (build_route env k cluster) = Some (c0 :: c1 :: g)) as Hgeo.
  { unfold build_route. cbn [Route.geometry].
    rewrite (ViewFacts.fetchRoute_usable _ cluster Hne), Hnet.
    rewrite bool_decide_eq_true_2 by done. by rewrite Hg. }
  pose proof (ViewFacts.draw_route_length (build_route env k cluster) _ Hgeo) as Hlen.
  cbn [length] in Hlen. specialize (Hlen ltac:(lia)).
  change (Route.stops (build_route env k cluster)) with (stops_of cluster) in Hlen.
  split; [done|]. split; [lia|].
  unfold draw_route. rewrite Hgeo. cbn [length Nat.ltb Nat.leb].
  split; [done|].
  rewrite app_assoc. by rewrite last_snoc.
Qed.

Lemma X18_answered_route_is_drawn_witness :
  let layers := draw_route (build_route online 0 [solo]) in
  length layers = (2 + length (stops_of [solo]))%nat
  /\ (4 <= length layers)%nat
  /\ head layers
     = Some (Polyline (map to_latLng [(33.3823, 35.1856); (32.9000, 34.9833)]%R)
                      (Vehicle.color (selectVehicle (total_passengers [solo]))))
  /\ last layers = Some (VehicleMarker (Some (to_latLng (33.3823, 35.1856)%R))).
Proof.
  apply (X18_answered_route_is_drawn online 0 [solo]
           {| Osrm.geometry := Some [(33.3823, 35.1856); (32.9000, 34.9833)]%R;
              Osrm.distance := 10500; Osrm.duration := 900 |} []).
  - discriminate.
  - reflexivity.
  - reflexivity.
Defined.

(** X19: when no two consecutive points of the line coincide for
    Leaflet's distance, every call of [animate] moves the vehicle onto
    the line: the [n]-th call (from zero) puts it between two
    consecutive points, at the arc length that is the fraction
    [(n mod 200) / 200] of the line's length. *)
Theorem X19_vehicle_moves_along_the_line
    (distance : R * R -> R * R -> R) (latLngs : list (R * R)) (n : nat) :
  (2 <= length latLngs)%nat ->
  Forall (fun len => 0 < len)%R (segmentLengths distance latLngs) ->
  exists p, frame distance latLngs n = move_to p
    /\ at_arc_length (segmentLengths distance latLngs) latLngs
         (IZR (Z.of_nat n mod 200) / 200 * totalLength distance latLngs) p.
Proof.
  intros Hlen Hpos. unfold frame.
  destruct (ViewFacts.step_after_defined distance latLngs n Hlen Hpos)
    as (step & -> & Hwrap & _).
  pose proof (Z.mod_pos_bound (Z.of_nat n) 200 ltac:(lia)) as Hmod.
  destruct (ViewFacts.animate_arc distance latLngs step Hlen Hpos ltac:(lia))
    as (p & -> & Harc).
  exists p. split; [done|]. by rewrite Hwrap in Harc.
Qed.

Lemma X19_vehicle_moves_along_the_line_witness :
  exists p, frame unit_distance three_points 250 = move_to p
    /\ at_arc_length (segmentLengths unit_distance three_points) three_points
         (IZR (Z.of_nat 250 mod 200) / 200 * totalLength unit_distance three_points) p.
Proof.
  apply (X19_vehicle_moves_along_the_line unit_distance three_points 250).
  - cbn. lia.
  - cbn. unfold unit_distance. repeat constructor; lra.
Defined.

(** X20: on a line without a segment of length zero the step counter of
    the animation is back at 1 after every 200 calls: after the
    [n+1]-th call it is [n mod 200 + 1], so the [n+1]-th call works with
    [n mod 200] and the fraction of the line it aims at stays below 1;
    the vehicle never reaches the end of the line.  On a line whose
    first segment has length zero the first call hands [setLatLng] a
    position that is not a number, and the source does not decide
    whether the step is counted. *)
Theorem X20_animation_step_cycles
    (distance : R * R -> R * R -> R) (latLngs : list (R * R)) (n : nat) :
  ((2 <= length latLngs)%nat ->
   Forall (fun len => 0 < len)%R (segmentLengths distance latLngs) ->
   step_after distance latLngs (S n) = Some (Z.of_nat n mod 200 + 1)%Z
   /\ (1 <= Z.of_nat n mod 200 + 1 <= 200)%Z
   /\ wrap <$> step_after distance latLngs n = Some (Z.of_nat n mod 200)%Z
   /\ (0 <= IZR (Z.of_nat n mod 200) / IZR totalSteps < 1)%R)
  /\ (forall a b rest,
      distance a b = 0%R ->
      frame distance (a :: b :: rest) 0 = move_undefined
      /\ step_after distance (a :: b :: rest) 1 = None).
Proof.
  split.
  - intros Hlen Hpos.
    destruct (ViewFacts.step_after_defined distance latLngs n Hlen Hpos)
      as (step & Hstep & Hwrap & Hsucc).
    pose proof (Z.mod_pos_bound (Z.of_nat n) 200 ltac:(lia)) as [Hlo Hhi].
    split; [done|]. split; [lia|]. split; [by rewrite Hstep, <- Hwrap|].
    apply IZR_le in Hlo. apply IZR_lt in Hhi. unfold totalSteps.
    split.
    + apply (ViewFacts.ratio_range _ 200); lra.
    + apply (Rmult_lt_reg_r 200); [lra|]. unfold Rdiv.
      rewrite Rmult_assoc, Rinv_l by lra. lra.
  - intros a b rest Hab.
    assert (fst (animate distance (a :: b :: rest) 0) = move_undefined) as Hmove.
    { unfold animate. cbn [fst].
      change (segmentLengths distance (a :: b :: rest))
        with (distance a b :: segmentLengths distance (b :: rest)).
      rewrite Hab. cbn [locate].
      rewrite bool_decide_eq_true_2.
      - by rewrite bool_decide_eq_true_2.
      - change (wrap 0) with 0%Z. unfold Rdiv. rewrite !Rmult_0_l, Rplus_0_l. lra. }
    split; [exact Hmove|].
    change (step_after distance (a :: b :: rest) 1)
      with (snd (animate distance (a :: b :: rest) 0)).
    revert Hmove. unfold animate. cbn [fst snd]. by intros ->.
Qed.

Lemma X20_animation_step_cycles_witness :
  step_after unit_distance three_points 251 = Some (Z.of_nat 250 mod 200 + 1)%Z
  /\ (1 <= Z.of_nat 250 mod 200 + 1 <= 200)%Z
  /\ wrap <$> step_after unit_distance three_points 250 = Some (Z.of_nat 250 mod 200)%Z
  /\ (0 <= IZR (Z.of_nat 250 mod 200) / IZR totalSteps < 1)%R.
Proof.
  apply (X20_animation_step_cycles unit_distance three_points 250).
  - cbn. lia.
  - cbn. unfold unit_distance. repeat constructor; lra.
Defined.

(** X21: in every state the demo reaches, the request counter is the
    number of requests in the list, the numbers of active vehicles and
    of minutes of average wait are still the initial 3 and 12, the CO2
    statistic is not negative, and every request goes from one of the
    four cities to a village, a beach or an archaeological site. *)
Theorem X21_demo_counters_follow_the_request_list (st : Demo.State) :
  Demo.reachable st -> demo_consistent st.
Proof.
  induction 1 as [|st st' _ IH Hstep]; [apply DemoMore.initial_consistent|].
  by apply (DemoMore.step_consistent st st').
Qed.

Lemma X21_demo_counters_follow_the_request_list_witness :
  demo_consistent (Demo.setSelectedOrigin Demo.nicosia Demo.initial).
Proof.
  apply (X21_demo_counters_follow_the_request_list
           (Demo.setSelectedOrigin Demo.nicosia Demo.initial)).
  apply (Demo.reachable_step Demo.initial); [apply Demo.reachable_initial|].
  apply Demo.step_origin. apply list_elem_of_here.
Defined.

(** X22: no event of the demo removes or reorders a request: an event
    either appends at most one request to the list or, when an
    optimisation timeout fires, marks every request of the list as
    assigned. *)
Theorem X22_demo_requests_are_never_removed (st st' : Demo.State) :
  Demo.step st st' ->
  exists new, (length new <= 1)%nat
    /\ (Demo.rideRequests st' = Demo.rideRequests st ++ new
        \/ (new = [] /\ Demo.rideRequests st' = map Demo.assign (Demo.rideRequests st))).
Proof.
  intros Hstep.
  destruct Hstep as [rnd now st Hrnd|l st Hl|l st Hl|rnd now st Hrnd
                     |rnd snapshot ts1 ts2 st Hrnd Hts].
  - unfold Demo.incoming. destruct (length (Demo.rideRequests st) <? 8)%nat.
    + destruct (Demo.generateRideRequest rnd now) as [r|].
      * exists [r]. split; [done|]. by left.
      * exists []. split; [cbn; lia|]. left. by rewrite app_nil_r.
    + exists []. split; [cbn; lia|]. left. by rewrite app_nil_r.
  - exists []. split; [cbn; lia|]. left. by rewrite app_nil_r.
  - exists []. split; [cbn; lia|]. left. by rewrite app_nil_r.
  - unfold Demo.handleRequestRide.
    destruct (Demo.selectedOrigin st) as [o|];
      [destruct (Demo.selectedDestination st) as [d|]|].
    + eexists [_]. split; [done|]. left. reflexivity.
    + exists []. split; [cbn; lia|]. left. by rewrite app_nil_r.
    + exists []. split; [cbn; lia|]. left. by rewrite app_nil_r.
  - exists []. split; [cbn; lia|]. right. done.
Qed.

Lemma X22_demo_requests_are_never_removed_witness :
  exists new, (length new <= 1)%nat
    /\ (Demo.rideRequests (Demo.handleRequestRide Demo.still 0 Demo.ready)
        = Demo.rideRequests Demo.ready ++ new
        \/ (new = []
            /\ Demo.rideRequests (Demo.handleRequestRide Demo.still 0 Demo.ready)
               = map Demo.assign (Demo.rideRequests Demo.ready))).
Proof.
  apply (X22_demo_requests_are_never_removed Demo.ready
           (Demo.handleRequestRide Demo.still 0 Demo.ready)).
  apply Demo.step_request. intros k. unfold unit_draw. cbn. lra.
Defined.

(** X23: when an optimisation timeout fires, every request of the
    current list is marked as assigned, with its identifier kept,
    whether or not the timeout's snapshot contained it, while the
    clusters that are published hold only requests of the snapshot, in
    the pending status they had there. *)
Theorem X23_timeout_assigns_every_request
    (rnd : nat -> Draw) (snapshot : list Demo.Request) (st : Demo.State) :
  let st' := Demo.optimize rnd snapshot st in
  Forall (fun r => Demo.status r = Demo.assigned) (Demo.rideRequests st')
  /\ map Demo.id (Demo.rideRequests st') = map Demo.id (Demo.rideRequests st)
  /\ (forall c x, c ∈ Demo.optimizedRoutes st' -> x ∈ Demo.requests c ->
      x ∈ snapshot /\ Demo.status x = Demo.pending).
Proof.
  intros st'. subst st'. unfold Demo.optimize.
  cbn [Demo.rideRequests Demo.optimizedRoutes].
  split; [|split].
  - apply Forall_fmap, Forall_forall. done.
  - rewrite <- list_fmap_compose. done.
  - intros c x Hc Hx.
    destruct (DemoFacts.simulate_demo_cluster rnd _ c Hc) as (req & _ & Hin & _).
    destruct (Hin x Hx) as [Hmem _].
    by apply list_elem_of_filter in Hmem as [? ?].
Qed.

(** X24: a timeout credits 2.5 kg of CO2 for each pending request of its
    snapshot (identifiers distinct), whatever the current state, so a
    request that is pending in two snapshots is credited twice. *)
Theorem X24_timeout_credits_its_snapshot
    (rnd : nat -> Draw) (snapshot : list Demo.Request) (st : Demo.State) :
  NoDup (map Demo.id snapshot) ->
  Demo.stats_co2Saved (Demo.stats (Demo.optimize rnd snapshot st))
  = (Demo.stats_co2Saved (Demo.stats st)
     + 2.5 * INR (length (filter (fun r => Demo.status r = Demo.pending) snapshot)))%R.
Proof.
  intros Hnd. unfold Demo.optimize. cbn [Demo.stats Demo.stats_co2Saved].
  rewrite DemoMore.simulate_credit; [done|].
  by apply DemoMore.NoDup_ids_filter.
Qed.

Lemma X24_timeout_credits_its_snapshot_witness :
  Demo.stats_co2Saved
    (Demo.stats (Demo.optimize Demo.still troodos_five
                   (Demo.optimize Demo.still troodos_five waiting)))
  = (Demo.stats_co2Saved (Demo.stats (Demo.optimize Demo.still troodos_five waiting))
     + 2.5 * INR (length (filter (fun r => Demo.status r = Demo.pending) troodos_five)))%R.
Proof.
  apply (X24_timeout_credits_its_snapshot Demo.still troodos_five
           (Demo.optimize Demo.still troodos_five waiting)).
  apply MoreFacts.troodos_five_distinct.
Defined.

(** X25: with draws in [[0, 1)], [generateRideRequest] always returns a
    request; it goes from one of the four cities to a village, a beach
    or an archaeological site, never to where it starts, carries 1 to 4
    passengers and an ETA of 5 to 24 minutes, and is pending at the
    given time. *)
Theorem X25_generated_request_is_in_range (rnd : nat -> Draw) (now : Z) :
  (forall k, unit_draw (rnd k)) ->
  exists r, Demo.generateRideRequest rnd now = Some r
    /\ Demo.origin r ∈ Demo.CYPRUS_LOCATIONS.cities
    /\ Demo.destination r ∈ Demo.CYPRUS_LOCATIONS.villages
                             ++ Demo.CYPRUS_LOCATIONS.beaches
                             ++ Demo.CYPRUS_LOCATIONS.archaeological
    /\ (1 <= Demo.passengers r <= 4)%Z
    /\ (5 <= Demo.eta r <= 24)%Z
    /\ Demo.status r = Demo.pending
    /\ Demo.timestamp r = now
    /\ loc_id (Demo.origin r) <> loc_id (Demo.destination r).
Proof.
  intros Hrnd. destruct (DemoFacts.generate_some rnd now Hrnd) as [r Hr].
  exists r. split; [done|]. by apply (DemoMore.generate_ranges rnd now).
Qed.

Lemma X25_generated_request_is_in_range_witness :
  exists r, Demo.generateRideRequest Demo.still 7 = Some r
    /\ Demo.origin r ∈ Demo.CYPRUS_LOCATIONS.cities
    /\ Demo.destination r ∈ Demo.CYPRUS_LOCATIONS.villages
                             ++ Demo.CYPRUS_LOCATIONS.beaches
                             ++ Demo.CYPRUS_LOCATIONS.archaeological
    /\ (1 <= Demo.passengers r <= 4)%Z
    /\ (5 <= Demo.eta r <= 24)%Z
    /\ Demo.status r = Demo.pending
    /\ Demo.timestamp r = 7%Z
    /\ loc_id (Demo.origin r) <> loc_id (Demo.destination r).
Proof.
  apply (X25_generated_request_is_in_range Demo.still 7).
  intros k. unfold unit_draw. cbn. lra.
Defined.

(** X26: the request queue shows the last six requests at most, the
    newest first: a request that is appended to the list enters at the
    top and what was shown moves down, the sixth row dropping out. *)
Theorem X26_queue_shows_the_last_six_newest_first
    (rideRequests : list Demo.Request) (r : Demo.Request) :
  queue (rideRequests ++ [r]) = r :: take 5 (queue rideRequests)
  /\ length (queue rideRequests) = Nat.min 6 (length rideRequests)
  /\ queue rideRequests = take 6 (reverse rideRequests).
Proof.
  split; [apply DemoMore.queue_push|]. split; [apply DemoMore.queue_length|].
  unfold queue. by rewrite take_reverse.
Qed.

(** X27: with its draw in [[0, 1)], the record of a cluster of [n]
    requests shows exactly 2.5 n kg of CO2 saved, an efficiency gain
    between 15 n and 15 n + 9 percent and one destination name per
    request. *)
Theorem X27_cluster_record_figures
    (rnd : nat -> Draw) (k : nat) (cluster : list Demo.Request) :
  unit_draw (rnd (2 * k + 1)%nat) ->
  let c := Demo.describe rnd k cluster in
  let n := Z.of_nat (length cluster) in
  Demo.requests c = cluster
  /\ Demo.co2Saved c = (INR (length cluster) * 2.5)%R
  /\ (15 * n <= Demo.estimatedSavings c <= 15 * n + 9)%Z
  /\ length (Demo.route c) = length cluster.
Proof.
  intros [H0 H1] c n. subst c n. unfold Demo.describe.
  cbn [Demo.requests Demo.co2Saved Demo.estimatedSavings Demo.route].
  split; [done|]. split; [apply DemoMore.toFixed1_quarters|].
  split; [|by rewrite length_map].
  unfold Math_floor.
  pose proof (DemoMore.Zfloor_range
                (INR (length cluster) * 15 + number (rnd (2 * k + 1)%nat) * 10)
                (15 * Z.of_nat (length cluster)) (15 * Z.of_nat (length cluster) + 10)) as H.
  rewrite plus_IZR, mult_IZR, <- INR_IZR_INZ in H.
  specialize (H ltac:(lra)). lia.
Qed.

Lemma X27_cluster_record_figures_witness :
  let c := Demo.describe Demo.still 1 troodos_five in
  Demo.requests c = troodos_five
  /\ Demo.co2Saved c = (INR 5 * 2.5)%R
  /\ (15 * 5 <= Demo.estimatedSavings c <= 15 * 5 + 9)%Z
  /\ length (Demo.route c) = 5%nat.
Proof.
  apply (X27_cluster_record_figures Demo.still 1 troodos_five).
  unfold unit_draw. cbn. lra.
Defined.

(** X28: the interval callback alone never brings the request list
    beyond eight requests: with draws in [[0, 1)], [n] calls from the
    initial state leave exactly the smaller of [n] and 8 requests, and
    once the list holds eight the callback leaves the state as it
    is. *)
Theorem X28_incoming_requests_stop_at_eight (ticks : list ((nat -> Draw) * Z)) :
  Forall (fun tick => forall k, unit_draw (fst tick k)) ticks ->
  let st := fold_left (fun st tick => Demo.incoming (fst tick) (snd tick) st)
                      ticks Demo.initial in
  length (Demo.rideRequests st) = Nat.min 8 (length ticks)
  /\ (forall rnd now, (8 <= length (Demo.rideRequests st))%nat ->
      Demo.incoming rnd now st = st).
Proof.
  intros Hticks st. split.
  - subst st.
    assert (forall st0,
              length (Demo.rideRequests
                        (fold_left (fun st tick => Demo.incoming (fst tick) (snd tick) st)
                                   ticks st0))
              = Nat.max (length (Demo.rideRequests st0))
                        (Nat.min 8 (length (Demo.rideRequests st0) + length ticks)))
      as Hgen.
    { induction Hticks as [|[rnd now] ticks Hrnd _ IH]; intros st0; cbn [fold_left length].
      { lia. }
      rewrite IH. cbn [fst snd] in *. unfold Demo.incoming.
      destruct (length (Demo.rideRequests st0) <? 8)%nat eqn:E.
      - apply Nat.ltb_lt in E.
        destruct (DemoFacts.generate_some rnd now Hrnd) as [r ->].
        unfold Demo.append_request. cbn [Demo.rideRequests].
        rewrite length_app. cbn [length]. lia.
      - apply Nat.ltb_ge in E. lia. }
    rewrite Hgen. cbn. lia.
  - intros rnd now H. unfold Demo.incoming.
    destruct (length (Demo.rideRequests st) <? 8)%nat eqn:E; [|done].
    apply Nat.ltb_lt in E. lia.
Qed.

Lemma X28_incoming_requests_stop_at_eight_witness :
  length (Demo.rideRequests
            (fold_left (fun st tick => Demo.incoming (fst tick) (snd tick) st)
                       (replicate 10 (Demo.still, 0%Z)) Demo.initial))
  = Nat.min 8 (length (replicate 10 (Demo.still, 0%Z))).
Proof.
  apply (X28_incoming_requests_stop_at_eight (replicate 10 (Demo.still, 0%Z))).
  apply Forall_forall. intros tick Htick.
  apply elem_of_replicate in Htick as [-> _].
  intros k. unfold unit_draw. cbn. lra.
Defined.

(** X29: for a cluster of valid requests that is not empty and a
    distance that is not negative, the route carries at least one
    passenger and the travel by car would emit at least 0.06 kg more per
    km than the chosen vehicle; so the [Math.max(0, ...)] of the saving
    never takes its first argument, and the figure displayed is the
    rounded difference itself. *)
Theorem X29_saving_is_never_clamped
    (env : Env) (k : nat) (cluster : list Request.t) :
  cluster <> [] ->
  Forall valid_request cluster ->
  (0 <= route_km env cluster)%R ->
  let r := build_route env k cluster in
  let km := route_km env cluster in
  (1 <= Route.passengers r)%Z
  /\ (0.06 * km
      <= IZR (Route.passengers r) * km * 0.21 - km * Vehicle.co2 (Route.vehicle r))%R
  /\ Route.co2 r
     = toFixed1 (IZR (Route.passengers r) * km * 0.21
                 - km * Vehicle.co2 (Route.vehicle r)).
Proof.
  intros Hne Hvalid Hkm r km. subst r km.
  pose proof (FormFacts.total_passengers_pos cluster Hne Hvalid) as Hp.
  pose proof (FormFacts.selectVehicle_margin _ Hp) as Hmargin.
  assert (0.06 * route_km env cluster
          <= IZR (total_passengers cluster) * route_km env cluster * 0.21
             - route_km env cluster * Vehicle.co2 (selectVehicle (total_passengers cluster)))%R
    as Hsaved by nra.
  split; [done|]. split; [done|].
  unfold build_route. cbn [Route.co2 Route.passengers Route.vehicle].
  fold (route_km env cluster). unfold Math_max.
  rewrite Rmax_right; [done|]. lra.
Qed.

Lemma X29_saving_is_never_clamped_witness :
  let r := build_route online 0 [solo] in
  let km := route_km online [solo] in
  (1 <= Route.passengers r)%Z
  /\ (0.06 * km
      <= IZR (Route.passengers r) * km * 0.21 - km * Vehicle.co2 (Route.vehicle r))%R
  /\ Route.co2 r
     = toFixed1 (IZR (Route.passengers r) * km * 0.21
                 - km * Vehicle.co2 (Route.vehicle r)).
Proof.
  apply (X29_saving_is_never_clamped online 0 [solo]).
  - discriminate.
  - apply Forall_singleton. split; [cbn; lia|]. cbn. discriminate.
  - change (0 <= 10500 / 1000)%R. lra.
Defined.

(** X30: the passenger buttons saturate: from any state that the events
    lead to, [n] presses of the plus button give the smaller of 20 and
    the count plus [n], and [n] presses of the minus button the larger
    of 1 and the count minus [n]. *)
Theorem X30_passenger_buttons_saturate (es : list event) (n : nat) :
  let st := run es start in
  State.passengers (run (replicate n Plus) st)
  = Z.min 20 (State.passengers st + Z.of_nat n)
  /\ State.passengers (run (replicate n Minus) st)
     = Z.max 1 (State.passengers st - Z.of_nat n).
Proof.
  intros st.
  destruct (MapFacts.run_well_formed es start MapFacts.initial_well_formed) as (Hp & _).
  fold st in Hp.
  split; [by apply FormFacts.plus_presses|by apply FormFacts.minus_presses].
Qed.
